(** * pi-monte-carlo: the MonteCarloPi class of [pi.js]

    A shallow embedding of the browser script that estimates pi by
    throwing random dots at a square with an inscribed circle.

    JavaScript numbers are IEEE 754 binary64 values, so every number of
    the script (the geometry, the coordinates, the two counters, the
    ratio, the z-score) is a primitive [float] here and every operator
    is the kernel's binary64 operator, which rounds as the script's
    does.  The canvas, the buttons and the browser's timer table are
    state that is threaded explicitly through the methods.

    [src/pi.js] is the earlier revision of the same class, without the
    pause and reset buttons; its sampling and statistics code is the
    code embedded here, line by line, and its tick is [PiJs.animate]. *)

From Stdlib Require Import ZArith Lia Bool List String.
From Stdlib Require Uint63.
From Stdlib Require Import Floats.
Import ListNotations.

Local Open Scope Z_scope.

(** ** JavaScript numbers *)

Module JSNumber.

(** [Math.PI], the binary64 nearest to pi. *)
Definition MathPI : float := 0x1.921fb54442d18p+1%float.

End JSNumber.
Export JSNumber.

(** ** The canvas and the page *)

(** What a [fillText] call writes. The template strings of [drawStats]
    are kept as their tag and the number they interpolate
    ([toFixed] only formats that number). *)
Inductive Text : Type :=
| TotalText (n : float)           (* `Total:\t${total}` *)
| InsideText (n : float)          (* `Inside:\t${inside}` *)
| PiText (piEstimate : float)     (* `4 x (Inside / Total) = ${piEstimate.toFixed(6)} -> pi` *)
| ZText (z : float).              (* `Standard deviations from expectation: ${z.toFixed(2)}` *)

(** The calls made on the 2D context, in order. *)
Inductive DrawCmd : Type :=
| StrokeRect (x y w h : float)
| StrokeArc (cx cy r : float)
| FillArc (x y r : float) (fillStyle : string)
| FillRect (x y w h : float) (fillStyle : string)
| FillText (t : Text) (x y : float)
| ClearRect (x y w h : float).

(** A pending [setTimeout]: its id and its delay in milliseconds. The
    callback is always [() => this.animate()]. *)
Record Timer : Type := mkTimer { timerId : nat; timerDelay : Z }.

(** ** The object *)

Module MonteCarloPi.

Local Open Scope float_scope.

(** The object after [setupCanvas] and [setupUI], together with the
    page it draws on (the canvas log and the browser's pending
    timers). *)
Record State : Type := mkState {
  (* Geometry configuration *)
  squareSize : float;
  offset : float;
  radius : float;
  centerX : float;
  centerY : float;
  (* UI elements *)
  isRunning : bool;
  timeoutId : option nat;          (* null, or the id of the last timer set *)
  pauseBtn : string;               (* the button's textContent *)
  resetBtn : string;
  slider : Z;                      (* slider.value, a decimal integer *)
  sliderValue : Z;                 (* the number shown before " ms" *)
  (* Stats *)
  total : float;
  inside : float;
  (* the page: what was drawn, and the browser's timers *)
  canvas : list DrawCmd;
  timers : list Timer;
  nextTimer : nat
}.

Definition set_isRunning (b : bool) (st : State) : State :=
  mkState st.(squareSize) st.(offset) st.(radius) st.(centerX) st.(centerY)
          b st.(timeoutId) st.(pauseBtn) st.(resetBtn) st.(slider)
          st.(sliderValue) st.(total) st.(inside) st.(canvas) st.(timers)
          st.(nextTimer).

Definition set_timeoutId (t : option nat) (st : State) : State :=
  mkState st.(squareSize) st.(offset) st.(radius) st.(centerX) st.(centerY)
          st.(isRunning) t st.(pauseBtn) st.(resetBtn) st.(slider)
          st.(sliderValue) st.(total) st.(inside) st.(canvas) st.(timers)
          st.(nextTimer).

Definition set_pauseBtn (s : string) (st : State) : State :=
  mkState st.(squareSize) st.(offset) st.(radius) st.(centerX) st.(centerY)
          st.(isRunning) st.(timeoutId) s st.(resetBtn) st.(slider)
          st.(sliderValue) st.(total) st.(inside) st.(canvas) st.(timers)
          st.(nextTimer).

Definition set_slider (v shown : Z) (st : State) : State :=
  mkState st.(squareSize) st.(offset) st.(radius) st.(centerX) st.(centerY)
          st.(isRunning) st.(timeoutId) st.(pauseBtn) st.(resetBtn) v
          shown st.(total) st.(inside) st.(canvas) st.(timers)
          st.(nextTimer).

Definition set_counts (t i : float) (st : State) : State :=
  mkState st.(squareSize) st.(offset) st.(radius) st.(centerX) st.(centerY)
          st.(isRunning) st.(timeoutId) st.(pauseBtn) st.(resetBtn) st.(slider)
          st.(sliderValue) t i st.(canvas) st.(timers) st.(nextTimer).

Definition set_canvas (c : list DrawCmd) (st : State) : State :=
  mkState st.(squareSize) st.(offset) st.(radius) st.(centerX) st.(centerY)
          st.(isRunning) st.(timeoutId) st.(pauseBtn) st.(resetBtn) st.(slider)
          st.(sliderValue) st.(total) st.(inside) c st.(timers) st.(nextTimer).

Definition set_timers (ts : list Timer) (n : nat) (st : State) : State :=
  mkState st.(squareSize) st.(offset) st.(radius) st.(centerX) st.(centerY)
          st.(isRunning) st.(timeoutId) st.(pauseBtn) st.(resetBtn) st.(slider)
          st.(sliderValue) st.(total) st.(inside) st.(canvas) ts n.

(** Calls on the context append to the canvas log. *)
Definition draw (cs : list DrawCmd) (st : State) : State :=
  set_canvas (st.(canvas) ++ cs) st.

(** *** The browser's timers *)

(** [setTimeout(() => this.animate(), interval)]: a fresh id. *)
Definition setTimeout (interval : Z) (st : State) : nat * State :=
  let id := st.(nextTimer) in
  (id, set_timers (st.(timers) ++ [mkTimer id interval]) (S id) st).

(** [clearTimeout(id)]: drops the timer if it is still pending. *)
Definition clearTimeout (id : nat) (st : State) : State :=
  set_timers (filter (fun t => negb (Nat.eqb t.(timerId) id)) st.(timers))
             st.(nextTimer) st.

(** *** Setup *)

Definition drawBoard (st : State) : State :=
  draw [StrokeRect st.(offset) st.(offset) st.(squareSize) st.(squareSize);
        StrokeArc st.(centerX) st.(centerY) st.(radius)] st.

(** What the canvas refuses: [ctx.arc(x, y, radius, 0, 2 * Math.PI)]
    throws an [IndexSizeError] when [radius] is negative. (When one of
    its arguments is infinite or [NaN] it returns at once and throws
    nothing.) No other call that the class makes on the context throws
    on its arguments. *)
Definition arcThrows (x y r : float) : bool :=
  (is_finite x && is_finite y && is_finite r && (r <? 0))%bool.

(** [drawBoard] ends in that exception, after its [strokeRect], when
    the circle's radius is negative; [drawBoard] above is what it
    draws when it returns. *)
Definition drawBoardThrows (st : State) : bool :=
  arcThrows st.(centerX) st.(centerY) st.(radius).

(** *** Pause *)

Definition pause (st : State) : State :=
  let st := set_isRunning false st in
  let st := match st.(timeoutId) with
            | Some id => clearTimeout id st
            | None => st
            end in
  set_pauseBtn "Resume"%string st.

(** *** Loop methods *)

Definition drawDot (x y : float) (isInside : bool) (st : State) : State :=
  draw [FillArc x y 4 (if isInside then "green" else "red")%string] st.

Definition computeZScore (st : State) : float :=
  let p := MathPI / 4 in
  let n := st.(total) in
  if n =? 0 then 0 else
  let observed := st.(inside) / n in
  let std := sqrt ((p * (1 - p)) / n) in
  if std =? 0 then 0 else (observed - p) / std.

(** The [fillText] calls of [drawStats]. *)
Definition statsText (st : State) : list DrawCmd :=
  [FillText (TotalText st.(total)) 50 20;
   FillText (InsideText st.(inside)) 50 38]
  ++ (if 0 <? st.(total) then
        let piEstimate := (st.(inside) / st.(total)) * 4 in
        let z := computeZScore st in
        [FillText (PiText piEstimate) 200 20; FillText (ZText z) 200 38]
      else []).

Definition drawStats (st : State) : State :=
  draw (FillRect 0 0 600 40 "#fff" :: statsText st) st.

(** The coordinate [animate] makes of one value of [Math.random()]. *)
Definition coordinate (st : State) (r : float) : float :=
  r * st.(squareSize) + st.(offset).

(** [dx * dx + dy * dy < radius * radius]. *)
Definition isInside (st : State) (x y : float) : bool :=
  let dx := x - st.(centerX) in
  let dy := y - st.(centerY) in
  dx * dx + dy * dy <? st.(radius) * st.(radius).

(** [++this.total; if (isInside) ++this.inside;] *)
Definition record (isIn : bool) (st : State) : State :=
  set_counts (st.(total) + 1)
             (if isIn then st.(inside) + 1 else st.(inside)) st.

(** [animate], given the two values [rx], [ry] that its two calls of
    [Math.random()] return. *)
Definition animate (rx ry : float) (st : State) : State :=
  if negb st.(isRunning) then st else
  let interval := st.(slider) in
  let x := coordinate st rx in
  let y := coordinate st ry in
  let isIn := isInside st x y in
  let st := drawDot x y isIn st in
  let st := record isIn st in
  let st := drawStats st in
  let (id, st) := setTimeout interval st in
  set_timeoutId (Some id) st.

Definition resume (rx ry : float) (st : State) : State :=
  if negb st.(isRunning) then
    let st := set_isRunning true st in
    let st := set_pauseBtn "Pause"%string st in
    animate rx ry st
  else st.

Definition reset (st : State) : State :=
  let st := pause st in
  let st := set_counts 0 0 st in
  let st := draw [ClearRect 0 0 600 600] st in
  let st := drawBoard st in
  drawStats st.

(** *** Construction *)

(** The object once its fields are initialised and [setupCanvas] and
    [setupUI] have run: an empty 600 x 600 canvas, the slider at 500,
    the two buttons labelled, no timer. [size] and [off] are the two
    literals of the geometry configuration. *)
Definition fields (size off : float) : State :=
  let radius := size / 2 in
  mkState size off radius (off + radius) (off + radius)
          false None "Pause"%string "Reset"%string 500 500 0 0 [] [] 1%nat.

(** How a call ends: normally with a value, or with a thrown
    exception. *)
Inductive Completion (A : Type) : Type :=
| Normal (a : A)
| Throw.
Arguments Normal {A} a.
Arguments Throw {A}.

(** The constructor body on the class with geometry literals [size]
    and [off]. It has no [throw] and no check of the geometry of its
    own: the one exception that can end it is the canvas's, raised in
    [drawBoard] before [setupUI] and the first tick. [rx] and [ry] are
    what [Math.random()] returns if [animate] runs. *)
Definition constructWith (size off : float) (autoStart : bool)
           (rx ry : float) : Completion State :=
  let st := fields size off in
  if drawBoardThrows st then Throw else
  let st := drawBoard st in
  if autoStart then Normal (animate rx ry (set_isRunning true st))
  else Normal st.

(** [new MonteCarloPi(autoStart)]: [squareSize = 500], [offset = 50]. *)
Definition construct (autoStart : bool) (rx ry : float) : Completion State :=
  constructWith 500 50 autoStart rx ry.

End MonteCarloPi.
Import MonteCarloPi.

(** ** The earlier revision, [src/pi.js] *)

Module PiJs.

Local Open Scope float_scope.

(** [animate] of [src/pi.js]: the same tick without the [isRunning]
    guard, and the id of the timer is not kept. *)
Definition animate (rx ry : float) (st : State) : State :=
  let interval := st.(slider) in
  let x := coordinate st rx in
  let y := coordinate st ry in
  let isIn := isInside st x y in
  let st := drawDot x y isIn st in
  let st := record isIn st in
  let st := drawStats st in
  snd (setTimeout interval st).

(** Its constructor: no [isRunning] to set. *)
Definition construct (autoStart : bool) (rx ry : float) : Completion State :=
  let st := drawBoard (fields 500 50) in
  if autoStart then Normal (animate rx ry st) else Normal st.

End PiJs.

(** ** The event loop *)

Module EventLoop.

(** What the browser can deliver to the object: a pending timer
    fires, a click on one of the two buttons, a move of the slider.
    The events that may reach [animate] carry the two values its
    calls of [Math.random()] return. *)
Inductive Event : Type :=
| TimerFires (id : nat) (rx ry : float)
| PauseClick (rx ry : float)
| ResetClick
| SliderInput (v : Z).

Definition pending (id : nat) (st : State) : bool :=
  existsb (fun t => Nat.eqb t.(timerId) id) st.(timers).

(** One turn of the event loop. A timer that is not pending cannot
    fire; one that fires leaves the timer table before its callback
    runs. *)
Definition step (e : Event) (st : State) : State :=
  match e with
  | TimerFires id rx ry =>
      if pending id st then animate rx ry (clearTimeout id st) else st
  | PauseClick rx ry =>
      if st.(isRunning) then pause st else resume rx ry st
  | ResetClick => reset st
  | SliderInput v => set_slider v v st
  end.

Definition run (es : list Event) (st : State) : State :=
  fold_left (fun s e => step e s) es st.

(** The events that are neither of the two control buttons. *)
Definition passive (e : Event) : bool :=
  match e with
  | TimerFires _ _ _ | SliderInput _ => true
  | PauseClick _ _ | ResetClick => false
  end.

End EventLoop.
Import EventLoop.

(** * Vocabulary of the statements *)

(** ** Counters *)

(** The Number that holds the integer [z]; the conversion is exact for
    every [0 <= z <= 2^53]. *)
Definition toNumber (z : Z) : float := PrimFloat.of_uint63 (Uint63.of_Z z).

(** The largest integer up to which a Number counts by ones. *)
Definition maxCount : Z := 2 ^ 53.

(** What [++] makes of a counter that holds the integer [n]. *)
Definition incr (n : Z) : Z := if n <? maxCount then n + 1 else n.

(** The counters hold integers with [0 <= inside <= total]. *)
Definition counts_ok (st : State) : Prop :=
  exists i t : Z,
    inside st = toNumber i /\ total st = toNumber t /\
    0 <= i <= t /\ t <= maxCount.

(** ** The estimator as the specification words it *)

Module Spec.

Local Open Scope float_scope.

Definition p : float := MathPI / 4.

Definition observed (st : State) : float := st.(inside) / st.(total).

Definition std (st : State) : float := sqrt (p * (1 - p) / st.(total)).

Definition zScore (st : State) : float :=
  if std st =? 0 then 0 else (observed st - p) / std st.

Definition piEstimate (st : State) : float :=
  4 * (st.(inside) / st.(total)).

End Spec.

(** ** The classifier's two quantities *)

(** The squared distance of [(x, y)] from the centre, as [animate]
    computes it. *)
Definition sqDist (st : State) (x y : float) : float :=
  ((x - st.(centerX)) * (x - st.(centerX))
   + (y - st.(centerY)) * (y - st.(centerY)))%float.

Definition sqRadius (st : State) : float := (st.(radius) * st.(radius))%float.

(** ** Geometry *)

(** The five geometry fields. *)
Definition geometry (st : State) : float * float * float * float * float :=
  (squareSize st, offset st, radius st, centerX st, centerY st).

(** ** A stopped object *)

(** What a stopped object keeps when an event that is not a button
    click reaches it. *)
Definition frozen (st st' : State) : Prop :=
  total st' = total st /\ inside st' = inside st /\
  canvas st' = canvas st /\ isRunning st' = false.

(** While the object runs exactly one tick is pending, the one
    [timeoutId] names; while it is stopped none is. *)
Definition one_loop (st : State) : Prop :=
  if isRunning st
  then exists id d, timers st = [mkTimer id d] /\ timeoutId st = Some id
  else timers st = [].

(** The events that are not a click on the pause button. *)
Definition no_resume (e : Event) : bool :=
  match e with
  | PauseClick _ _ => false
  | _ => true
  end.

(** The clicks on the reset button. *)
Definition isReset (e : Event) : bool :=
  match e with
  | ResetClick => true
  | _ => false
  end.

(** The dots among the calls made on the canvas: one [drawDot] per
    recorded sample. *)
Definition isDot (cmd : DrawCmd) : bool :=
  match cmd with
  | FillArc _ _ _ _ => true
  | _ => false
  end.

Definition dotCalls (c : list DrawCmd) : list DrawCmd := filter isDot c.

(** ** Concrete states and values *)

(** A state after 100 samples, 78 of them inside. *)
Definition sampled : State := set_counts 100 78 (fields 500 50).


(** The object [new MonteCarloPi()] leaves behind when both random
    values are 0.5: running, one sample recorded, one tick pending. *)
Definition started : State :=
  animate 0.5 0.5 (set_isRunning true (drawBoard (fields 500 50))).

(** The largest binary64 below 1, [1 - 2^-53]. *)
Definition belowOne : float := 0x1.fffffffffffffp-1%float.

(** ** Binary64 numbers as scaled integers *)

(** Every finite binary64 is [m * 2^e] with [e >= -1074]; scaled by
    [2^bias] it is an integer, and so is every exact product or sum of
    two of them met below. *)
Definition bias : Z := 1200.

Definition scaled (m e : Z) : Z := m * 2 ^ (e + bias).

(** The scaled value of a number that is zero or positive. *)
Definition value (x : spec_float) : Z :=
  match x with
  | S754_finite false m e => scaled (Zpos m) e
  | _ => 0
  end.

Definition nonneg_finite (x : spec_float) : Prop :=
  match x with
  | S754_zero false => True
  | S754_finite false _ e => - bias <= e
  | _ => False
  end.

(** [P] advances by one with each application of [f]. *)
Definition iter_inv {A : Type} (f : A -> A) (P : Z -> A -> Prop) : Prop :=
  forall k x, 0 <= k -> P k x -> P (k + 1) (f x).

(** The record [mrs] is [m0] shifted right by [k] bits: its mantissa is
    the quotient, its round and sticky bits are both clear exactly when
    nothing was shifted out, and its round bit is set only when at
    least half a unit was. *)
Definition shifted (m0 : Z) (k : Z) (mrs : shr_record) : Prop :=
  shr_m mrs = m0 / 2 ^ k /\
  (shr_r mrs || shr_s mrs = false <-> m0 mod 2 ^ k = 0) /\
  (shr_r mrs = true -> 2 ^ k <= 2 * (m0 mod 2 ^ k)).

(** * Vocabulary of the further properties *)

(** ** The earlier revision's event loop *)

Module PiJsLoop.

(** [src/pi.js] has the slider and no button: the browser can only
    fire a pending timer or move the slider. *)
Inductive Event : Type :=
| TimerFires (id : nat) (rx ry : float)
| SliderInput (v : Z).

Definition step (e : Event) (st : State) : State :=
  match e with
  | TimerFires id rx ry =>
      if pending id st then PiJs.animate rx ry (clearTimeout id st) else st
  | SliderInput v => set_slider v v st
  end.

Definition run (es : list Event) (st : State) : State :=
  fold_left (fun s e => step e s) es st.

End PiJsLoop.

(** ** What the canvas shows *)

(** [clearRect(0, 0, 600, 600)]: the whole canvas. *)
Definition wipesCanvas (x y w h : float) : bool :=
  (PrimFloat.eqb x 0 && PrimFloat.eqb y 0
   && PrimFloat.eqb w 600 && PrimFloat.eqb h 600)%bool.

(** [fillRect(0, 0, 600, 40)]: the strip the statistics are written on. *)
Definition paintsStrip (x y w h : float) : bool :=
  (PrimFloat.eqb x 0 && PrimFloat.eqb y 0
   && PrimFloat.eqb w 600 && PrimFloat.eqb h 40)%bool.

(** The dots on the canvas, and the green ones among them, counted one
    drawing call at a time: a dot adds one, clearing the canvas starts
    again from none. *)
Definition countDot (acc : Z * Z) (cmd : DrawCmd) : Z * Z :=
  match cmd with
  | ClearRect x y w h => if wipesCanvas x y w h then (0, 0) else acc
  | FillArc _ _ _ col =>
      (fst acc + 1, if String.eqb col "green" then snd acc + 1 else snd acc)
  | _ => acc
  end.

Definition dotsDrawn (c : list DrawCmd) : Z * Z := fold_left countDot c (0, 0).

(** The counters are the numbers of dots on the canvas, as far as a
    Number counts. *)
Definition dots_ok (st : State) : Prop :=
  total st = toNumber (Z.min (fst (dotsDrawn (canvas st))) maxCount) /\
  inside st = toNumber (Z.min (snd (dotsDrawn (canvas st))) maxCount).

(** The text on the statistics strip: nothing known before the strip
    is first painted or after the canvas is cleared; painting the strip
    erases the text; every [fillText] adds a line. *)
Definition stripStep (h : option (list DrawCmd)) (cmd : DrawCmd)
  : option (list DrawCmd) :=
  match cmd with
  | ClearRect x y w h' => if wipesCanvas x y w h' then None else h
  | FillRect x y w h' _ => if paintsStrip x y w h' then Some [] else h
  | FillText _ _ _ => option_map (fun l => l ++ [cmd]) h
  | _ => h
  end.

Definition stripShown (c : list DrawCmd) : option (list DrawCmd) :=
  fold_left stripStep c None.

(** The strip shows the lines of the current counters; it is unpainted
    only while both counters are still 0. *)
Definition strip_ok (st : State) : Prop :=
  (stripShown (canvas st) = None /\ total st = 0%float /\ inside st = 0%float)
  \/ stripShown (canvas st) = Some (statsText st).

(** What the loop of [src/pi.js] keeps: the timers it should have, the
    counters equal to the dots, and nothing drawn if it never started. *)
Definition PiJs_ok (autoStart : bool) (c0 : list DrawCmd) (st : State) : Prop :=
  (if autoStart then exists id d, timers st = [mkTimer id d]
   else timers st = [] /\ canvas st = c0 /\ total st = 0%float) /\
  dots_ok st.

(** ** The controls *)

(** The pause button is labelled with what a click on it does. *)
Definition label_ok (st : State) : Prop :=
  pauseBtn st = if isRunning st then "Pause"%string else "Resume"%string.

(** The number beside the slider is the slider's value. *)
Definition slider_ok (st : State) : Prop := sliderValue st = slider st.

(** ** The samples *)

(** A value that [Math.random()] may return: a Number of [[0, 1)]. *)
Definition isRandom (r : float) : bool :=
  (PrimFloat.leb 0 r && PrimFloat.ltb r 1)%bool.

(** Every random value that the events carry is one. *)
Definition randoms_ok (e : Event) : bool :=
  match e with
  | TimerFires _ rx ry | PauseClick rx ry => (isRandom rx && isRandom ry)%bool
  | _ => true
  end.

(** A dot as [animate] draws it: of radius 4, its centre in the closed
    square, green exactly when the classifier of [st] puts the centre
    inside the circle and red otherwise. Other drawing calls are not
    constrained. *)
Definition dot_ok (st : State) (cmd : DrawCmd) : Prop :=
  match cmd with
  | FillArc x y r col =>
      r = 4%float /\
      (PrimFloat.leb 50 x = true /\ PrimFloat.leb x 550 = true) /\
      (PrimFloat.leb 50 y = true /\ PrimFloat.leb y 550 = true) /\
      col = (if isInside st x y then "green" else "red")%string
  | _ => True
  end.

(** ** The board *)

(** What was drawn since the canvas was last cleared. *)
Definition sinceClearStep (shown : list DrawCmd) (cmd : DrawCmd) : list DrawCmd :=
  match cmd with
  | ClearRect x y w h => if wipesCanvas x y w h then [] else shown ++ [cmd]
  | _ => shown ++ [cmd]
  end.

Definition sinceClear (c : list DrawCmd) : list DrawCmd :=
  fold_left sinceClearStep c [].

(** The square and the circle of a geometry are among it. *)
Definition boardShown (g : float * float * float * float * float)
           (c : list DrawCmd) : Prop :=
  let '(size, off, r, cx, cy) := g in
  In (StrokeRect off off size size) (sinceClear c) /\
  In (StrokeArc cx cy r) (sinceClear c).

Definition board_ok (st : State) : Prop :=
  boardShown (geometry st) (canvas st).


(** ** Rounding a quotient or a square root *)

(** Division and square root hand to the rounding a truncated mantissa
    and the position of the exact result above it: on it
    ([loc_Exact]) or strictly between it and the next integer. *)
Definition inexact (l : location) : Z :=
  match l with
  | loc_Exact => 0
  | loc_Inexact _ => 1
  end.

(** The record [mrs] is the mantissa [m0] at the position [l], shifted
    right by [k] bits: its round and sticky bits are both clear exactly
    when nothing was shifted out and the position was exact. *)
Definition located (m0 : Z) (l : location) (k : Z) (mrs : shr_record) : Prop :=
  shr_m mrs = m0 / 2 ^ k /\
  (shr_r mrs || shr_s mrs = false <-> m0 mod 2 ^ k = 0 /\ l = loc_Exact).

(** ** What the statistics show *)

(** An estimate line shows a number of [[0, 4]]. *)
Definition estimate_ok (cmd : DrawCmd) : Prop :=
  match cmd with
  | FillText (PiText v) _ _ =>
      PrimFloat.leb 0 v = true /\ PrimFloat.leb v 4 = true
  | _ => True
  end.

(** The standard deviation that [computeZScore] divides by:
    [Math.sqrt((p * (1 - p)) / n)] with [p = Math.PI / 4] and
    [n = this.total]. *)
Definition std (st : State) : float :=
  (sqrt ((MathPI / 4 * (1 - MathPI / 4)) / total st))%float.

(** A z-score line shows a finite number, of magnitude at most
    [2^28]. *)
Definition zscore_ok (cmd : DrawCmd) : Prop :=
  match cmd with
  | FillText (ZText z) _ _ => PrimFloat.leb (abs z) 0x1p+28 = true
  | _ => True
  end.
(** * Binary64 arithmetic

    What the proofs below need of the kernel's specification of
    binary64 ([SpecFloat]): how a product or a sum is rounded, and how
    two numbers compare. *)

(** ** Number of binary digits *)

(** [digits2_pos] is the library's [Pos.size]. *)
Lemma digits2_pos_size (m : positive) : digits2_pos m = Pos.size m.
Proof. induction m as [m IH|m IH|]; cbn; now rewrite ?IH. Qed.

(** A number of [d] digits lies in [[2^(d-1), 2^d)]. *)
Lemma digits2_pos_bounds (m : positive) :
  2 ^ (Zpos (digits2_pos m) - 1) <= Zpos m < 2 ^ Zpos (digits2_pos m).
Proof.
  rewrite digits2_pos_size.
  pose proof (Pos.size_gt m) as Hgt. pose proof (Pos.size_le m) as Hle.
  apply Pos2Z.pos_lt_pos in Hgt. apply Pos2Z.pos_le_pos in Hle.
  rewrite Pos2Z.inj_pow in Hgt, Hle.
  split; [|exact Hgt].
  assert (E : 2 ^ Zpos (Pos.size m) = 2 * 2 ^ (Zpos (Pos.size m) - 1)).
  { replace (Zpos (Pos.size m)) with (Z.succ (Zpos (Pos.size m) - 1)) at 1 by lia.
    apply Z.pow_succ_r. lia. }
  rewrite E in Hle. lia.
Qed.

(** A positive number below [2^n] has at most [n] digits. *)
Lemma digits2_pos_le (m : positive) (n : Z) :
  Zpos m < 2 ^ n -> Zpos (digits2_pos m) <= n.
Proof.
  intros H. destruct (Z.le_gt_cases (Zpos (digits2_pos m)) n) as [|Hgt]; [assumption|].
  exfalso. pose proof (digits2_pos_bounds m) as [Hlo _].
  assert (0 <= n \/ n < 0) as [Hn|Hn] by lia.
  - assert (2 ^ n <= 2 ^ (Zpos (digits2_pos m) - 1))
      by (apply Z.pow_le_mono_r; lia).
    lia.
  - rewrite Z.pow_neg_r in H by lia. lia.
Qed.

(** ** Iterating a step *)

(** What each step advances by one has advanced by [p] after [p]
    steps. *)
Lemma iter_pos_inv {A} (f : A -> A) (P : Z -> A -> Prop) :
  iter_inv f P ->
  forall p k x, 0 <= k -> P k x -> P (k + Zpos p) (iter_pos f p x).
Proof.
  intros Hf. induction p as [p IH|p IH|]; intros k x Hk HP; cbn [iter_pos].
  - replace (k + Zpos p~1) with (k + 1 + Zpos p + Zpos p) by lia.
    apply IH; [lia|]. apply IH; [lia|]. now apply Hf.
  - replace (k + Zpos p~0) with (k + Zpos p + Zpos p) by lia.
    apply IH; [lia|]. now apply IH.
  - now apply Hf.
Qed.

(** ** Shifting right *)

(** One shift halves the mantissa, makes the bit shifted out the round
    bit and folds the old round bit into the sticky bit. *)
Lemma shr_1_nonneg m r s :
  0 <= m ->
  shr_1 (Build_shr_record m r s) = Build_shr_record (m / 2) (Z.odd m) (r || s).
Proof.
  intros Hm. rewrite <- Z.div2_div.
  destruct m as [|[p|p|]|p]; try reflexivity. lia.
Qed.

(** Each [shr_1] shifts by one more bit. *)
Lemma shifted_step m0 : 0 <= m0 -> iter_inv shr_1 (shifted m0).
Proof.
  intros Hm0 k [m r s] Hk (Hq & Hrem & _); cbn in Hq, Hrem.
  assert (Hp : 0 < 2 ^ k) by (apply Z.pow_pos_nonneg; lia).
  assert (Hm : 0 <= m) by (subst m; apply Z.div_pos; lia).
  rewrite shr_1_nonneg by exact Hm. unfold shifted; cbn [shr_m shr_r shr_s].
  rewrite Z.pow_add_r, Z.pow_1_r by lia.
  rewrite Z.rem_mul_r by lia. rewrite <- Hq.
  pose proof (Z.mod_pos_bound m0 (2 ^ k) Hp) as Hb.
  pose proof (Z.mod_pos_bound m 2 ltac:(lia)) as Hb2.
  split; [|split].
  - subst m. rewrite Z.div_div by lia. reflexivity.
  - rewrite orb_false_iff, Hrem.
    rewrite <- Z.negb_even, negb_false_iff, Z.even_spec.
    split.
    + intros [Hev Hz]. apply Z.even_spec in Hev. rewrite Zeven_mod in Hev.
      apply Z.eqb_eq in Hev. rewrite Hev, Hz. lia.
    + intros Hsum. assert (m0 mod 2 ^ k = 0 /\ m mod 2 = 0) as [Hz Hev] by nia.
      split; [|exact Hz]. apply Z.even_spec. rewrite Zeven_mod.
      now apply Z.eqb_eq.
  - intros Hodd. rewrite Zodd_mod in Hodd. apply Z.eqb_eq in Hodd.
    rewrite Hodd. lia.
Qed.

(** [shr] of an exact mantissa by [n] bits ([n <= 0] shifts nothing). *)
Lemma shifted_0 (m : Z) : shifted m 0 (Build_shr_record m false false).
Proof.
  unfold shifted; cbn [shr_m shr_r shr_s]. rewrite Z.div_1_r, Z.mod_1_r.
  repeat split; try reflexivity. discriminate.
Qed.

Lemma shr_exact_spec (m e n : Z) :
  0 <= m ->
  let k := Z.max n 0 in
  let '(mrs, e') := shr (shr_record_of_loc m loc_Exact) e n in
  e' = e + k /\ shifted m k mrs.
Proof.
  intros Hm k. unfold shr, shr_record_of_loc.
  destruct n as [|p|p]; subst k; cbn [Z.max].
  - split; [lia|apply shifted_0].
  - rewrite Z.max_l by lia. split; [reflexivity|].
    apply (iter_pos_inv shr_1 (shifted m) (shifted_step m Hm) p 0); [lia|].
    apply shifted_0.
  - rewrite Z.max_r by lia. split; [lia|apply shifted_0].
Qed.

(** ** Rounding to nearest *)

(** The rounded mantissa is the quotient or the quotient plus one; it
    is the quotient when nothing was shifted out, and when less than
    half a unit was. *)
Lemma round_nearest_between (m k : Z) (mrs : shr_record) :
  shifted m k mrs ->
  let m1 := round_nearest_even (shr_m mrs) (loc_of_shr_record mrs) in
  m / 2 ^ k <= m1 <= m / 2 ^ k + 1 /\
  (m mod 2 ^ k = 0 -> m1 = m / 2 ^ k) /\
  (2 * (m mod 2 ^ k) < 2 ^ k -> m1 = m / 2 ^ k).
Proof.
  destruct mrs as [q r s]. unfold shifted; cbn [shr_m shr_r shr_s].
  intros (<- & Hrem & Hhalf).
  destruct r, s; cbn [round_nearest_even loc_of_shr_record];
    try destruct (Z.even q);
    (split; [lia|split]); try reflexivity;
    try (intros Hz; apply Hrem in Hz; discriminate Hz);
    intros Hlt; specialize (Hhalf eq_refl); lia.
Qed.

(** A multiple [b * g] of the unit [g] that is above [m] is above [m]
    rounded in units of [g]. *)
Lemma ceil_le (m g b m1 : Z) :
  0 < g -> m <= b * g -> m1 <= m / g + 1 -> (m mod g = 0 -> m1 = m / g) ->
  m1 <= b.
Proof.
  intros Hg Hm H1 Hex.
  pose proof (Z.div_mod m g ltac:(lia)) as Hdm.
  pose proof (Z.mod_pos_bound m g Hg) as Hb.
  destruct (Z.eq_dec (m mod g) 0) as [Hz|Hnz].
  - rewrite (Hex Hz). nia.
  - assert (m / g < b) by nia. lia.
Qed.

(** A multiple [a * g] of the unit [g] that is below [m] is below [m]
    rounded in units of [g]. *)
Lemma floor_ge (m g a m1 : Z) :
  0 < g -> a * g <= m -> m / g <= m1 -> a <= m1.
Proof.
  intros Hg Ha H1. pose proof (Z.div_le_lower_bound m g a Hg ltac:(lia)). lia.
Qed.

(** ** Scaled values *)

Lemma pow2_pos (n : Z) : 0 <= n -> 0 < 2 ^ n.
Proof. intros; apply Z.pow_pos_nonneg; lia. Qed.

Lemma scaled_shift (m e k : Z) :
  - bias <= e -> 0 <= k -> scaled (m * 2 ^ k) e = scaled m (e + k).
Proof.
  intros He Hk. unfold scaled.
  replace (e + k + bias) with (k + (e + bias)) by lia.
  rewrite (Z.pow_add_r 2 k (e + bias)) by lia. ring.
Qed.

(** A multiple of [2^y] is a multiple of every smaller power of two. *)
Lemma on_grid (x y H : Z) :
  0 <= x <= y -> (2 ^ y | H) -> exists b, H = b * 2 ^ x.
Proof.
  intros Hxy [c Hc]. exists (c * 2 ^ (y - x)).
  replace y with ((y - x) + x) in Hc by lia.
  rewrite Z.pow_add_r in Hc by lia. rewrite Hc. ring.
Qed.

(** A scaled value below [2^N] has a mantissa below [2^(N - e)]. *)
Lemma scaled_lt_pow (m e N : Z) :
  0 < m -> - bias <= e -> scaled m e < 2 ^ (N + bias) -> m < 2 ^ (N - e).
Proof.
  intros Hm He H. unfold scaled in H.
  pose proof (pow2_pos (e + bias) ltac:(lia)) as Hu.
  destruct (Z.le_gt_cases e N) as [Hle|Hgt].
  - replace (N + bias) with ((N - e) + (e + bias)) in H by lia.
    rewrite (Z.pow_add_r 2 (N - e) (e + bias)) in H by lia. nia.
  - exfalso.
    assert (2 ^ (N + bias) <= 2 ^ (e + bias)).
    { destruct (Z.le_gt_cases 0 (N + bias)).
      - apply Z.pow_le_mono_r; lia.
      - rewrite (Z.pow_neg_r 2 (N + bias)) by lia. lia. }
    nia.
Qed.

Lemma fexp_mono (a b : Z) : a <= b -> fexp prec emax a <= fexp prec emax b.
Proof. unfold fexp, SpecFloat.emin, prec, emax. lia. Qed.

Lemma fexp_ge_emin (a : Z) : - 1074 <= fexp prec emax a.
Proof. unfold fexp, SpecFloat.emin, prec, emax. lia. Qed.

(** The digits of a scaled number below [2^N]. *)
Lemma digits_scaled (m : positive) (e N : Z) :
  - bias <= e -> scaled (Zpos m) e < 2 ^ (N + bias) ->
  Zpos (digits2_pos m) + e <= N.
Proof.
  intros He H. apply scaled_lt_pow in H; [|lia|lia].
  apply digits2_pos_le in H. lia.
Qed.

(** The unit of the exponent [e + k] is [2^k] units of the exponent [e]. *)
Lemma grid_step (e e1 k : Z) :
  - bias <= e -> 0 <= k -> e1 = e + k ->
  2 ^ (e1 + bias) = 2 ^ k * 2 ^ (e + bias).
Proof.
  intros He Hk ->. rewrite <- Z.pow_add_r by lia. f_equal. lia.
Qed.

(** ** Rounding against a grid *)

(** [binary_round_aux] rounds the exact value [m * 2^e] to the format.
    Let [LO] and [HI] be multiples of the unit [2^G] that the result
    cannot be finer than (the value is below [2^N] and [fexp N <= G]).
    If the value is at least [LO], and at most [HI] or above [HI] by
    less than half a unit of the rounding, then the rounded result lies
    between [LO] and [HI]: rounding never crosses a number it can
    represent, and goes to the nearest one. *)
Lemma round_aux_near (m : positive) (e N G LO HI : Z) :
  - bias <= e <= G -> fexp prec emax N <= G -> G <= emax - prec ->
  (2 ^ (G + bias) | LO) -> (2 ^ (G + bias) | HI) ->
  HI < 2 ^ (N + bias) -> scaled (Zpos m) e < 2 ^ (N + bias) ->
  LO <= scaled (Zpos m) e ->
  2 * (scaled (Zpos m) e - HI)
  < 2 ^ (Z.max e (fexp prec emax (Zpos (digits2_pos m) + e)) + bias) ->
  let z := binary_round_aux prec emax false (Zpos m) e loc_Exact in
  nonneg_finite z /\ LO <= value z <= HI.
Proof.
  intros He HN HG HLO HHI Hlt Hlt' Hv Hnear z. subst z.
  unfold binary_round_aux, shr_fexp.
  (* the first shift, to the exponent of the format *)
  set (n := fexp prec emax (Zdigits2 (Zpos m) + e) - e).
  pose proof (shr_exact_spec (Zpos m) e n ltac:(lia)) as S1.
  destruct (shr (shr_record_of_loc (Zpos m) loc_Exact) e n) as [mrs1 e1].
  cbv zeta in S1. destruct S1 as [He1 Hsh1].
  pose proof (round_nearest_between _ _ _ Hsh1) as R1. cbv zeta in R1.
  set (m1 := round_nearest_even (shr_m mrs1) (loc_of_shr_record mrs1)) in *.
  destruct R1 as ([Hq1 Hq1'] & Hex1 & Hhalf1).
  set (k := Z.max n 0) in *.
  assert (Hk : 0 <= k) by lia.
  assert (Hd : Zpos (digits2_pos m) + e <= N) by (apply digits_scaled; lia).
  assert (He1G : e1 <= G).
  { subst e1 k n. cbn [Zdigits2]. pose proof (fexp_mono _ _ Hd). lia. }
  replace (Z.max e (fexp prec emax (Zpos (digits2_pos m) + e))) with e1
    in Hnear by (subst e1 k n; cbn [Zdigits2]; lia).
  destruct (on_grid (e1 + bias) (G + bias) LO ltac:(lia) HLO) as [a Ha].
  destruct (on_grid (e1 + bias) (G + bias) HI ltac:(lia) HHI) as [b Hb].
  assert (Hu : 0 < 2 ^ (e + bias)) by (apply pow2_pos; lia).
  assert (Hg : 0 < 2 ^ k) by (apply pow2_pos; lia).
  pose proof (grid_step e e1 k ltac:(lia) Hk He1) as Hpow.
  unfold scaled in Hv, Hnear.
  assert (Hm1lo : a <= m1).
  { apply (floor_ge (Zpos m) (2 ^ k)); [lia| |lia].
    apply (Z.mul_le_mono_pos_r _ _ (2 ^ (e + bias)) Hu).
    rewrite <- Z.mul_assoc, <- Hpow, <- Ha. lia. }
  assert (Hm1hi : m1 <= b).
  { destruct (Z.le_gt_cases (Zpos m) (b * 2 ^ k)) as [Hle|Hgt].
    - apply (ceil_le (Zpos m) (2 ^ k)); [lia|exact Hle|lia|exact Hex1].
    - (* above [HI] by less than half a unit: rounded down to [HI] *)
      rewrite Hb, Hpow in Hnear.
      assert (Hclose : 2 * (Zpos m - b * 2 ^ k) < 2 ^ k).
      { apply (Z.mul_lt_mono_pos_r (2 ^ (e + bias)) _ _ Hu). lia. }
      assert (Hdiv : Zpos m / 2 ^ k = b).
      { symmetry. apply (Z.div_unique _ _ _ (Zpos m - b * 2 ^ k)); lia. }
      assert (Hmod : Zpos m mod 2 ^ k = Zpos m - b * 2 ^ k).
      { symmetry. apply (Z.mod_unique _ _ b); lia. }
      rewrite Hhalf1 by lia. lia. }
  assert (Hm1 : 0 <= m1).
  { pose proof (Z.div_pos (Zpos m) (2 ^ k) ltac:(lia) Hg). lia. }
  assert (Hu1 : 0 < 2 ^ (e1 + bias)) by (apply pow2_pos; lia).
  (* the second shift, after a carry *)
  set (n2 := fexp prec emax (Zdigits2 m1 + e1) - e1).
  pose proof (shr_exact_spec m1 e1 n2 Hm1) as S2.
  destruct (shr (shr_record_of_loc m1 loc_Exact) e1 n2) as [mrs2 e2].
  cbv zeta in S2. destruct S2 as [He2 [Hq2 _]].
  set (k2 := Z.max n2 0) in *.
  assert (Hk2 : 0 <= k2) by lia.
  assert (He2G : e2 <= G).
  { pose proof (fexp_ge_emin N).
    destruct m1 as [|p1|p1]; [| |lia].
    - subst e2 k2 n2. cbn [Zdigits2].
      unfold fexp, SpecFloat.emin, prec, emax in *. lia.
    - assert (Hd1 : Zpos (digits2_pos p1) + e1 <= N).
      { apply digits_scaled; [lia|]. unfold scaled. nia. }
      subst e2 k2 n2. cbn [Zdigits2]. pose proof (fexp_mono _ _ Hd1). lia. }
  destruct (on_grid (e2 + bias) (G + bias) LO ltac:(lia) HLO) as [a2 Ha2].
  assert (Hg2 : 0 < 2 ^ k2) by (apply pow2_pos; lia).
  pose proof (grid_step e1 e2 k2 ltac:(lia) Hk2 He2) as Hpow2.
  rewrite Hq2.
  assert (Hm2lo : a2 <= m1 / 2 ^ k2).
  { apply Z.div_le_lower_bound; [exact Hg2|].
    apply (Z.mul_le_mono_pos_r _ _ (2 ^ (e1 + bias)) Hu1).
    rewrite (Z.mul_comm (2 ^ k2) a2), <- Z.mul_assoc, <- Hpow2, <- Ha2. nia. }
  assert (Hm2hi : m1 / 2 ^ k2 * 2 ^ (e2 + bias) <= HI).
  { pose proof (Z.mul_div_le m1 (2 ^ k2) Hg2). rewrite Hpow2. nia. }
  assert (Hm2 : 0 <= m1 / 2 ^ k2) by (apply Z.div_pos; lia).
  assert (Hu2 : 0 < 2 ^ (e2 + bias)) by (apply pow2_pos; lia).
  destruct (m1 / 2 ^ k2) as [|p2|p2] eqn:Em2; [| |lia].
  - cbn. split; [exact I|]. nia.
  - destruct (Z.leb_spec e2 (emax - prec)) as [_|Hov]; [|lia].
    cbn [nonneg_finite value]. unfold scaled.
    split; [lia|]. split; [|exact Hm2hi]. rewrite Ha2. nia.
Qed.

(** In particular a value between [LO] and [HI] stays there. *)
Lemma round_aux_bounds (m : positive) (e N G LO HI : Z) :
  - bias <= e <= G -> fexp prec emax N <= G -> G <= emax - prec ->
  (2 ^ (G + bias) | LO) -> (2 ^ (G + bias) | HI) -> HI < 2 ^ (N + bias) ->
  LO <= scaled (Zpos m) e <= HI ->
  let z := binary_round_aux prec emax false (Zpos m) e loc_Exact in
  nonneg_finite z /\ LO <= value z <= HI.
Proof.
  intros He HN HG HLO HHI Hlt Hv.
  apply (round_aux_near m e N G LO HI); try assumption; lia.
Qed.

(** ** Aligning two exponents *)

(** [Pos.iter xO] appends [d] zero bits. *)
Lemma iter_xO (m d : positive) : Zpos (Pos.iter xO m d) = Zpos m * 2 ^ Zpos d.
Proof.
  induction d as [|d IH] using Pos.peano_ind.
  - cbn. lia.
  - rewrite Pos.iter_succ, Pos2Z.inj_xO, IH, Pos2Z.inj_succ, Z.pow_succ_r by lia.
    ring.
Qed.

(** [shl_align] lowers the exponent to [t] (when [t] is lower) and
    keeps the value. *)
Lemma shl_align_spec (m : positive) (e t : Z) :
  - bias <= t ->  - bias <= e ->
  let '(m', e') := shl_align m e t in
  scaled (Zpos m') e' = scaled (Zpos m) e /\ e' = Z.min e t.
Proof.
  intros Ht He. unfold shl_align.
  destruct (t - e) as [|d|d] eqn:E.
  - split; [reflexivity|lia].
  - split; [reflexivity|lia].
  - rewrite iter_xO. split; [|lia].
    rewrite scaled_shift by lia. f_equal. lia.
Qed.

(** [binary_round] aligns and then rounds: the same bounds hold. *)
Lemma binary_round_bounds (m : positive) (e N G LO HI : Z) :
  - bias <= e <= G -> fexp prec emax N <= G -> G <= emax - prec ->
  (2 ^ (G + bias) | LO) -> (2 ^ (G + bias) | HI) -> HI < 2 ^ (N + bias) ->
  LO <= scaled (Zpos m) e <= HI ->
  let z := binary_round prec emax false m e in
  nonneg_finite z /\ LO <= value z <= HI.
Proof.
  intros He HN HG HLO HHI Hlt Hv z. subst z. unfold binary_round.
  set (t := fexp prec emax (Zpos (digits2_pos m) + e)).
  assert (Ht : - bias <= t).
  { pose proof (fexp_ge_emin (Zpos (digits2_pos m) + e)).
    unfold bias; subst t; lia. }
  pose proof (shl_align_spec m e t Ht ltac:(lia)) as A.
  destruct (shl_align m e t) as [mz ez]. destruct A as [Hval Hez].
  apply (round_aux_bounds mz ez N G LO HI); try assumption; [lia|].
  now rewrite Hval.
Qed.

(** ** The sum of two positive numbers *)

(** The sum of two positive numbers is their exact sum, rounded. *)
Lemma SFadd_finite (mx : positive) (ex : Z) (my : positive) (ey : Z) :
  - bias <= ex -> - bias <= ey ->
  exists m,
    SF64add (S754_finite false mx ex) (S754_finite false my ey)
    = binary_round prec emax false m (Z.min ex ey) /\
    scaled (Zpos m) (Z.min ex ey) = scaled (Zpos mx) ex + scaled (Zpos my) ey.
Proof.
  intros Hx Hy. unfold SF64add, SFadd, cond_Zopp.
  set (ez := Z.min ex ey).
  pose proof (shl_align_spec mx ex ez ltac:(lia) Hx) as Ax.
  pose proof (shl_align_spec my ey ez ltac:(lia) Hy) as Ay.
  destruct (shl_align mx ex ez) as [mx' ex'], (shl_align my ey ez) as [my' ey'].
  destruct Ax as [Vx Ex], Ay as [Vy Ey]. cbn [fst].
  exists (mx' + my')%positive. split; [reflexivity|].
  replace ex' with ez in Vx by lia. replace ey' with ez in Vy by lia.
  rewrite <- Vx, <- Vy. unfold scaled. rewrite Pos2Z.inj_add. ring.
Qed.

(** ** Comparison *)

(** A canonical mantissa has at most 53 bits, and exactly 53 above the
    smallest exponent. *)
Lemma canonical_bounds (m : positive) (e : Z) :
  canonical_mantissa prec emax m e = true ->
  - 1074 <= e /\ Zpos m < 2 ^ 53 /\ (- 1074 < e -> 2 ^ 52 <= Zpos m).
Proof.
  unfold canonical_mantissa. intros H. apply Z.eqb_eq in H.
  pose proof (digits2_pos_bounds m) as [Hlo Hhi].
  unfold fexp, SpecFloat.emin, prec, emax in H.
  assert (Hd : Zpos (digits2_pos m) <= 53) by lia.
  split; [lia|]. split.
  - assert (2 ^ Zpos (digits2_pos m) <= 2 ^ 53) by (apply Z.pow_le_mono_r; lia). lia.
  - intros He. assert (Hd' : Zpos (digits2_pos m) = 53) by lia.
    rewrite Hd' in Hlo. exact Hlo.
Qed.

(** Of two canonical numbers the one with the smaller exponent is the
    smaller. *)
Lemma scaled_lt_exp (m1 e1 m2 e2 : Z) :
  - bias <= e1 < e2 -> 0 < m1 < 2 ^ 53 -> 2 ^ 52 <= m2 ->
  scaled m1 e1 < scaled m2 e2.
Proof.
  intros He Hm1 Hm2. unfold scaled.
  assert (Hu : 0 < 2 ^ (e1 + bias)) by (apply pow2_pos; lia).
  assert (Hp : 2 * 2 ^ (e1 + bias) <= 2 ^ (e2 + bias)).
  { rewrite <- Z.pow_succ_r by lia. apply Z.pow_le_mono_r; lia. }
  change (2 ^ 53) with (2 * 2 ^ 52) in Hm1. nia.
Qed.

(** Positive numbers compare as their scaled values. *)
Lemma SFcompare_finite (m1 : positive) (e1 : Z) (m2 : positive) (e2 : Z) :
  canonical_mantissa prec emax m1 e1 = true ->
  canonical_mantissa prec emax m2 e2 = true ->
  SFcompare (S754_finite false m1 e1) (S754_finite false m2 e2)
  = Some (scaled (Zpos m1) e1 ?= scaled (Zpos m2) e2).
Proof.
  intros C1 C2.
  destruct (canonical_bounds m1 e1 C1) as (Hemin1 & Hhi1 & Hlo1).
  destruct (canonical_bounds m2 e2 C2) as (Hemin2 & Hhi2 & Hlo2).
  cbn [SFcompare]. f_equal.
  destruct (Z.compare_spec e1 e2) as [E|L|L].
  - subst e2. unfold scaled.
    change (Pos.compare_cont Eq m1 m2) with (Zpos m1 ?= Zpos m2).
    rewrite !(Z.mul_comm _ (2 ^ (e1 + bias))).
    apply Zmult_compare_compat_l. apply Z.lt_gt, pow2_pos. unfold bias; lia.
  - symmetry. apply Z.compare_lt_iff.
    apply scaled_lt_exp; [unfold bias|lia|apply Hlo2]; lia.
  - symmetry. apply Z.compare_gt_iff.
    apply scaled_lt_exp; [unfold bias|lia|apply Hlo1]; lia.
Qed.

Lemma SFleb_finite (m1 : positive) (e1 : Z) (m2 : positive) (e2 : Z) :
  valid_binary (S754_finite false m1 e1) = true ->
  valid_binary (S754_finite false m2 e2) = true ->
  scaled (Zpos m1) e1 <= scaled (Zpos m2) e2 ->
  SFleb (S754_finite false m1 e1) (S754_finite false m2 e2) = true.
Proof.
  intros V1 V2 H. cbn in V1, V2. unfold bounded in V1, V2.
  apply andb_true_iff in V1 as [C1 _]. apply andb_true_iff in V2 as [C2 _].
  unfold SFleb. rewrite (SFcompare_finite m1 e1 m2 e2 C1 C2).
  destruct (Z.compare_spec (scaled (Zpos m1) e1) (scaled (Zpos m2) e2));
    [reflexivity|reflexivity|lia].
Qed.

(** ** Comparing through values *)

(** The digits of a scaled number that is at least [2^(N-1)]. *)
Lemma digits_scaled_ge (m : positive) (e N : Z) :
  - bias <= e -> 0 <= N - 1 + bias -> 2 ^ (N - 1 + bias) <= scaled (Zpos m) e ->
  N <= Zpos (digits2_pos m) + e.
Proof.
  intros He HN H. unfold scaled in H.
  pose proof (digits2_pos_bounds m) as [_ Hhi].
  assert (Hu : 0 < 2 ^ (e + bias)) by (apply pow2_pos; lia).
  assert (Hlt : 2 ^ (N - 1 + bias) < 2 ^ (Zpos (digits2_pos m) + (e + bias))).
  { rewrite (Z.pow_add_r 2 (Zpos (digits2_pos m)) (e + bias)) by lia. nia. }
  apply Z.pow_lt_mono_r_iff in Hlt; lia.
Qed.

(** Two numbers that are zero or positive compare as their values. *)
Lemma leb_of_values (x y : float) :
  nonneg_finite (Prim2SF x) -> nonneg_finite (Prim2SF y) ->
  value (Prim2SF x) <= value (Prim2SF y) ->
  PrimFloat.leb x y = true.
Proof.
  rewrite leb_spec.
  pose proof (Prim2SF_valid x) as Vx. pose proof (Prim2SF_valid y) as Vy.
  destruct (Prim2SF x) as [sx|sx| |sx mx ex], (Prim2SF y) as [sy|sy| |sy my ey];
    cbn [nonneg_finite value]; try contradiction;
    destruct sx; try contradiction; destruct sy; try contradiction;
    intros Nx Ny H; try reflexivity.
  - exfalso.
    assert (0 < scaled (Zpos mx) ex)
      by (apply Z.mul_pos_pos; [lia|apply pow2_pos; lia]).
    lia.
  - now apply SFleb_finite.
Qed.

Lemma ltb_of_values (x y : float) :
  nonneg_finite (Prim2SF x) -> nonneg_finite (Prim2SF y) ->
  value (Prim2SF x) < value (Prim2SF y) ->
  PrimFloat.ltb x y = true.
Proof.
  rewrite ltb_spec.
  pose proof (Prim2SF_valid x) as Vx. pose proof (Prim2SF_valid y) as Vy.
  destruct (Prim2SF x) as [sx|sx| |sx mx ex], (Prim2SF y) as [sy|sy| |sy my ey];
    cbn [nonneg_finite value]; try contradiction;
    destruct sx; try contradiction; destruct sy; try contradiction;
    intros Nx Ny H; try reflexivity; try lia.
  - exfalso.
    assert (0 < scaled (Zpos mx) ex)
      by (apply Z.mul_pos_pos; [lia|apply pow2_pos; lia]).
    lia.
  - cbn in Vx, Vy. unfold bounded in Vx, Vy.
    apply andb_true_iff in Vx as [Cx _]. apply andb_true_iff in Vy as [Cy _].
    unfold SFltb. rewrite (SFcompare_finite mx ex my ey Cx Cy).
    now apply Z.compare_lt_iff in H as ->.
Qed.

(** ** The coordinate of a sample *)

Section Coordinate.

Local Open Scope float_scope.

(** A number of [[0, 1)] is a zero or [m * 2^e] with at most 53 bits
    and [e <= -53]. *)
Lemma unit_interval (r : float) :
  (0 <=? r) = true -> (r <? 1) = true ->
  (exists s, Prim2SF r = S754_zero s) \/
  (exists m e, Prim2SF r = S754_finite false m e /\
               (- 1074 <= e <= - 53)%Z /\ (Zpos m < 2 ^ 53)%Z).
Proof.
  rewrite leb_spec, ltb_spec.
  change (Prim2SF 0) with (S754_zero false).
  change (Prim2SF 1) with (S754_finite false 4503599627370496 (-52)).
  pose proof (Prim2SF_valid r) as V.
  destruct (Prim2SF r) as [s|s| |s m e]; intros H0 H1.
  - left. now exists s.
  - destruct s; discriminate.
  - discriminate.
  - right. destruct s; [discriminate|]. exists m, e. split; [reflexivity|].
    cbn in V. unfold bounded in V. apply andb_true_iff in V as [C _].
    unfold SFltb in H1.
    rewrite (SFcompare_finite m e 4503599627370496 (-52) C eq_refl) in H1.
    destruct (Z.compare_spec (scaled (Zpos m) e)
                             (scaled 4503599627370496 (-52))) as [|L|];
      try discriminate.
    change (scaled 4503599627370496 (-52)) with (2 ^ 52 * 2 ^ (bias - 52))%Z in L.
    destruct (canonical_bounds m e C) as (Hemin & Hm & Hnormal).
    split; [|exact Hm]. split; [exact Hemin|].
    destruct (Z.le_gt_cases e (-53)) as [|Hgt]; [assumption|exfalso].
    unfold scaled in L.
    assert (2 ^ (bias - 52) <= 2 ^ (e + bias))%Z
      by (apply Z.pow_le_mono_r; unfold bias; lia).
    specialize (Hnormal ltac:(lia)). nia.
Qed.

Lemma sum_of_zero_and_50 (s : bool) :
  SF64add (S754_zero s) (Prim2SF 50) = Prim2SF 50.
Proof. destruct s; reflexivity. Qed.

(** The exact product of [m * 2^e] and 500. *)
Lemma product_value (m : positive) (e : Z) :
  (- 1074 <= e)%Z ->
  scaled (Zpos (m * 8796093022208000)) (e + -44) = (500 * scaled (Zpos m) e)%Z.
Proof.
  intros He. rewrite Pos2Z.inj_mul.
  change (Zpos 8796093022208000) with (500 * 2 ^ 44)%Z.
  rewrite Z.mul_assoc, scaled_shift by (unfold bias; lia).
  replace (e + -44 + 44)%Z with e by lia.
  unfold scaled. ring.
Qed.

(** A number below 1 has a value below 1. *)
Lemma below_one_value (m : positive) (e : Z) :
  (- 1074 <= e <= - 53)%Z -> (Zpos m < 2 ^ 53)%Z ->
  (0 < scaled (Zpos m) e < 2 ^ bias)%Z.
Proof.
  intros He Hm. unfold scaled.
  assert (0 < 2 ^ (e + bias))%Z by (apply pow2_pos; unfold bias; lia).
  assert (2 ^ (e + bias) <= 2 ^ (bias - 53))%Z
    by (apply Z.pow_le_mono_r; unfold bias; lia).
  change (2 ^ bias)%Z with (2 ^ 53 * 2 ^ (bias - 53))%Z. nia.
Qed.

(** [r * 500] for [r] of [(0, 1)]: between 0 and 500. *)
Lemma product_bounds (m : positive) (e : Z) :
  (- 1074 <= e <= - 53)%Z -> (Zpos m < 2 ^ 53)%Z ->
  let y := SF64mul (S754_finite false m e) (Prim2SF 500) in
  nonneg_finite y /\ (0 <= value y <= 500 * 2 ^ bias)%Z.
Proof.
  intros He Hm. pose proof (below_one_value m e He Hm) as Hv.
  change (Prim2SF 500) with (S754_finite false 8796093022208000 (-44)).
  unfold SF64mul, SFmul. cbn [xorb].
  apply (round_aux_bounds _ _ 9 (-44)).
  - unfold bias. lia.
  - vm_compute. discriminate.
  - vm_compute. discriminate.
  - apply Z.divide_0_r.
  - exists (500 * 2 ^ 44)%Z. vm_compute. reflexivity.
  - vm_compute. reflexivity.
  - rewrite product_value by lia. lia.
Qed.

(** [y + 50] for [y] of [(0, 500]]: between 50 and 550. *)
Lemma sum_bounds (my : positive) (ey : Z) (HI : Z) :
  (- bias <= ey)%Z -> (scaled (Zpos my) ey <= HI)%Z ->
  (HI <= 500 * 2 ^ bias)%Z -> (2 ^ (- 43 + bias) | HI)%Z ->
  let x := SF64add (S754_finite false my ey) (Prim2SF 50) in
  nonneg_finite x /\ (50 * 2 ^ bias <= value x <= HI + 50 * 2 ^ bias)%Z.
Proof.
  intros He Hv HHI Hgrid.
  change (Prim2SF 50) with (S754_finite false 7036874417766400 (-47)).
  destruct (SFadd_finite my ey 7036874417766400 (-47) He ltac:(unfold bias; lia))
    as (ms & -> & Hs).
  change (scaled 7036874417766400 (-47)) with (50 * 2 ^ bias)%Z in Hs.
  assert (0 < scaled (Zpos my) ey)%Z.
  { unfold scaled. apply Z.mul_pos_pos; [lia|apply pow2_pos; lia]. }
  apply (binary_round_bounds _ _ 10 (-43)).
  - unfold bias in *. lia.
  - vm_compute. discriminate.
  - vm_compute. discriminate.
  - exists (50 * 2 ^ 43)%Z. vm_compute. reflexivity.
  - apply Z.divide_add_r; [exact Hgrid|].
    exists (50 * 2 ^ 43)%Z. vm_compute. reflexivity.
  - assert (550 * 2 ^ bias < 2 ^ (10 + bias))%Z by (vm_compute; reflexivity).
    lia.
  - rewrite Hs. lia.
Qed.


(** The largest binary64 below 500, [500 - 2^-44], scaled. *)
Lemma below_500_grid :
  (2 ^ (- 44 + bias) | (500 * 2 ^ 44 - 1) * 2 ^ (bias - 44))%Z /\
  (2 ^ (- 43 + bias) | (500 * 2 ^ 44 - 2) * 2 ^ (bias - 44))%Z.
Proof.
  split.
  - exists (500 * 2 ^ 44 - 1)%Z. reflexivity.
  - exists (500 * 2 ^ 43 - 1)%Z. vm_compute. reflexivity.
Qed.

(** [r * 500] for [r] of [(0, 1)] other than [1 - 2^-53]: at most
    [500 - 2^-43], two units below 500. The largest such [r],
    [1 - 2^-52], gives a product less than half a unit above that. *)
Lemma product_below (m : positive) (e : Z) :
  (- 1074 <= e <= - 53)%Z -> (Zpos m < 2 ^ 53)%Z ->
  ~ (e = - 53 /\ Zpos m = 2 ^ 53 - 1)%Z ->
  let y := SF64mul (S754_finite false m e) (Prim2SF 500) in
  nonneg_finite y /\
  (0 <= value y <= (500 * 2 ^ 44 - 2) * 2 ^ (bias - 44))%Z.
Proof.
  intros He Hm Hne. pose proof (below_one_value m e He Hm) as Hv.
  change (Prim2SF 500) with (S754_finite false 8796093022208000 (-44)).
  unfold SF64mul, SFmul. cbn [xorb].
  pose proof (product_value m e ltac:(lia)) as Hp.
  set (v := scaled (Zpos (m * 8796093022208000)) (e + -44)) in *.
  set (w := (2 ^ (bias - 53))%Z).
  assert (Hw : (0 < w)%Z) by (apply pow2_pos; unfold bias; lia).
  assert (Hgrid : (2 ^ (- 44 + bias)
                   | (500 * 2 ^ 44 - 2) * 2 ^ (bias - 44))%Z).
  { exists (500 * 2 ^ 44 - 2)%Z. reflexivity. }
  assert (Hlt : ((500 * 2 ^ 44 - 2) * 2 ^ (bias - 44) < 2 ^ (9 + bias))%Z)
    by (vm_compute; reflexivity).
  destruct (Z.le_gt_cases v ((500 * 2 ^ 44 - 2) * 2 ^ (bias - 44))) as [Hle|Hgt].
  - apply (round_aux_bounds _ _ 9 (-44)); try assumption.
    + unfold bias. lia.
    + vm_compute. discriminate.
    + vm_compute. discriminate.
    + apply Z.divide_0_r.
    + fold v. lia.
  - (* only for [e = -53] and [m <= 2^53 - 2] *)
    change ((500 * 2 ^ 44 - 2) * 2 ^ (bias - 44))%Z
      with ((500 * 2 ^ 53 - 1024) * w)%Z in *.
    assert (He53 : e = (-53)%Z).
    { destruct (Z.eq_dec e (-53)) as [|Hn]; [assumption|exfalso].
      assert (2 * 2 ^ (e + bias) <= w)%Z.
      { subst w. rewrite <- Z.pow_succ_r by (unfold bias; lia).
        apply Z.pow_le_mono_r; unfold bias; lia. }
      unfold scaled in Hp, Hv.
      assert (0 < 2 ^ (e + bias))%Z by (apply pow2_pos; unfold bias; lia).
      nia. }
    subst e.
    assert (Hm' : (Zpos m <= 2 ^ 53 - 2)%Z) by lia.
    assert (Hvw : (v = 500 * Zpos m * w)%Z).
    { rewrite Hp. unfold scaled. subst w.
      replace (-53 + bias)%Z with (bias - 53)%Z by lia. ring. }
    assert (Hv9 : (v < 2 ^ (9 + bias))%Z).
    { change (2 ^ (9 + bias))%Z with (512 * 2 ^ 53 * w)%Z. nia. }
    assert (Hd : (Zpos (digits2_pos (m * 8796093022208000)) + (-53 + -44) = 9)%Z).
    { apply Z.le_antisymm.
      - apply digits_scaled; [unfold bias; lia|exact Hv9].
      - apply digits_scaled_ge; [unfold bias; lia|unfold bias; lia|].
        fold v. change (2 ^ (9 - 1 + bias))%Z with (256 * 2 ^ 53 * w)%Z. nia. }
    apply (round_aux_near _ _ 9 (-44)); try assumption.
    + unfold bias. lia.
    + vm_compute. discriminate.
    + vm_compute. discriminate.
    + apply Z.divide_0_r.
    + fold v. lia.
    + fold v. rewrite Hd.
      change (2 ^ (Z.max (-53 + -44) (fexp prec emax 9) + bias))%Z
        with (512 * w)%Z.
      nia.
Qed.

(** A sum that is a zero or a positive number between 50 and an upper
    bound at most 550. *)
Lemma between_50_and (x : float) (HI : Z) :
  nonneg_finite (Prim2SF x) ->
  (50 * 2 ^ bias <= value (Prim2SF x) <= HI)%Z ->
  (HI <= 550 * 2 ^ bias)%Z ->
  (50 <=? x) = true /\ (x <=? 550) = true /\
  ((HI < 550 * 2 ^ bias)%Z -> (x <? 550) = true).
Proof.
  intros N V H.
  assert (N50 : nonneg_finite (Prim2SF 50)) by (vm_compute; discriminate).
  assert (N550 : nonneg_finite (Prim2SF 550)) by (vm_compute; discriminate).
  assert (V50 : value (Prim2SF 50) = (50 * 2 ^ bias)%Z) by reflexivity.
  assert (V550 : value (Prim2SF 550) = (550 * 2 ^ bias)%Z) by reflexivity.
  split; [|split].
  - apply leb_of_values; try assumption. lia.
  - apply leb_of_values; try assumption. lia.
  - intros Hlt. apply ltb_of_values; try assumption. lia.
Qed.

(** The coordinate made of [r], given bounds on the product [r * 500]. *)
Lemma coordinate_from_product (r : float) (HI : Z) :
  nonneg_finite (Prim2SF (r * 500)) ->
  (0 <= value (Prim2SF (r * 500)) <= HI)%Z ->
  (HI <= 500 * 2 ^ bias)%Z -> (2 ^ (- 43 + bias) | HI)%Z ->
  (50 <=? r * 500 + 50) = true /\ (r * 500 + 50 <=? 550) = true /\
  ((HI < 500 * 2 ^ bias)%Z -> (r * 500 + 50 <? 550) = true).
Proof.
  intros N V H Hgrid.
  destruct (Prim2SF (r * 500)) as [s|s| |s my ey] eqn:Ey;
    cbn [nonneg_finite value] in N, V; try contradiction.
  - assert (E : r * 500 + 50 = 50).
    { apply Prim2SF_inj. rewrite add_spec, Ey. apply sum_of_zero_and_50. }
    rewrite E. repeat split.
  - destruct s; [contradiction|].
    pose proof (sum_bounds my ey HI N ltac:(lia) H Hgrid) as [Nx Vx].
    rewrite <- Ey, <- add_spec in Nx, Vx.
    destruct (between_50_and _ _ Nx Vx ltac:(lia)) as (H1 & H2 & H3).
    repeat split; try assumption. intros Hlt. apply H3. lia.
Qed.

(** Every [r] of [[0, 1)] gives a coordinate of [[50, 550]]. *)
Lemma coordinate_closed_range (r : float) :
  (0 <=? r) = true -> (r <? 1) = true ->
  (50 <=? r * 500 + 50) = true /\ (r * 500 + 50 <=? 550) = true.
Proof.
  intros H0 H1.
  assert (Hgrid : (2 ^ (- 43 + bias) | 500 * 2 ^ bias)%Z).
  { exists (500 * 2 ^ 43)%Z. vm_compute. reflexivity. }
  destruct (unit_interval r H0 H1) as [[s Hz]|(m & e & Hr & He & Hm)].
  - assert (Hy : Prim2SF (r * 500) = S754_zero s).
    { rewrite mul_spec, Hz. destruct s; reflexivity. }
    assert (E : r * 500 + 50 = 50).
    { apply Prim2SF_inj. rewrite add_spec, Hy. apply sum_of_zero_and_50. }
    rewrite E. split; reflexivity.
  - pose proof (product_bounds m e He Hm) as [Ny Vy].
    rewrite <- Hr, <- mul_spec in Ny, Vy.
    destruct (coordinate_from_product r _ Ny Vy (Z.le_refl _) Hgrid)
      as (Hlo & Hhi & _).
    now split.
Qed.

(** Every [r] of [[0, 1)] but [1 - 2^-53] gives a coordinate below 550. *)
Lemma coordinate_half_open (r : float) :
  (0 <=? r) = true -> (r <? 1) = true -> r <> 0x1.fffffffffffffp-1 ->
  (r * 500 + 50 <? 550) = true.
Proof.
  intros H0 H1 Hne.
  destruct (unit_interval r H0 H1) as [[s Hz]|(m & e & Hr & He & Hm)].
  - assert (Hy : Prim2SF (r * 500) = S754_zero s).
    { rewrite mul_spec, Hz. destruct s; reflexivity. }
    assert (E : r * 500 + 50 = 50).
    { apply Prim2SF_inj. rewrite add_spec, Hy. apply sum_of_zero_and_50. }
    rewrite E. reflexivity.
  - assert (Hne' : ~ (e = - 53 /\ Zpos m = 2 ^ 53 - 1)%Z).
    { intros [-> Em]. apply Hne, Prim2SF_inj. rewrite Hr.
      change (2 ^ 53 - 1)%Z with (Zpos 9007199254740991) in Em.
      injection Em as ->. reflexivity. }
    pose proof (product_below m e He Hm Hne') as [Ny Vy].
    rewrite <- Hr, <- mul_spec in Ny, Vy.
    destruct below_500_grid as [_ Hgrid].
    assert (Hlt : ((500 * 2 ^ 44 - 2) * 2 ^ (bias - 44) < 500 * 2 ^ bias)%Z)
      by (vm_compute; reflexivity).
    destruct (coordinate_from_product r _ Ny Vy ltac:(lia) Hgrid)
      as (_ & _ & Hstrict).
    exact (Hstrict Hlt).
Qed.

End Coordinate.

(** ** Counting in binary64 *)


(** Two positive binary64 of the same value are the same number. *)
Lemma value_inj (m1 : positive) (e1 : Z) (m2 : positive) (e2 : Z) :
  valid_binary (S754_finite false m1 e1) = true ->
  valid_binary (S754_finite false m2 e2) = true ->
  scaled (Zpos m1) e1 = scaled (Zpos m2) e2 ->
  S754_finite false m1 e1 = S754_finite false m2 e2.
Proof.
  intros V1 V2 H. cbn in V1, V2. unfold bounded in V1, V2.
  apply andb_true_iff in V1 as [C1 _]. apply andb_true_iff in V2 as [C2 _].
  pose proof (SFcompare_finite m1 e1 m2 e2 C1 C2) as Hc.
  rewrite H, Z.compare_refl in Hc. cbn [SFcompare] in Hc.
  destruct (Z.compare_spec e1 e2) as [E| |]; try discriminate Hc.
  injection Hc as Hc. apply Pos.compare_eq in Hc. now subst.
Qed.

Lemma same_value (x y : float) (v : Z) :
  0 < v ->
  nonneg_finite (Prim2SF x) -> value (Prim2SF x) = v ->
  nonneg_finite (Prim2SF y) -> value (Prim2SF y) = v ->
  x = y.
Proof.
  intros Hv Nx Vx Ny Vy. apply Prim2SF_inj.
  pose proof (Prim2SF_valid x) as Wx. pose proof (Prim2SF_valid y) as Wy.
  destruct (Prim2SF x) as [sx|sx| |sx mx ex];
    cbn [nonneg_finite value] in Nx, Vx; try contradiction;
    destruct sx; try contradiction; try lia.
  destruct (Prim2SF y) as [sy|sy| |sy my ey];
    cbn [nonneg_finite value] in Ny, Vy; try contradiction;
    destruct sy; try contradiction; try lia.
  apply value_inj; try assumption. congruence.
Qed.

(** The Number that holds [n] has the value [n], below 2^53. *)
Lemma toNumber_value (n : Z) :
  0 < n < 2 ^ 53 ->
  nonneg_finite (Prim2SF (toNumber n)) /\
  value (Prim2SF (toNumber n)) = n * 2 ^ bias.
Proof.
  intros Hn. unfold toNumber. rewrite of_uint63_spec, Uint63.of_Z_spec.
  rewrite Z.mod_small by (change Uint63.wB with (2 ^ 63); lia).
  destruct n as [|p|p]; try lia. cbn [binary_normalize].
  pose proof (binary_round_bounds p 0 53 0 (Zpos p * 2 ^ bias) (Zpos p * 2 ^ bias))
    as B.
  cbv zeta in B. destruct B as [N [Hlo Hhi]].
  - unfold bias; lia.
  - vm_compute; discriminate.
  - vm_compute; discriminate.
  - exists (Zpos p). reflexivity.
  - exists (Zpos p). reflexivity.
  - rewrite (Z.pow_add_r 2 53 bias) by (unfold bias; lia).
    apply Z.mul_lt_mono_pos_r; [apply pow2_pos; unfold bias|]; lia.
  - unfold scaled. change (0 + bias) with bias. lia.
  - split; [exact N|lia].
Qed.

(** Adding 1 to it gives the value [n + 1], below 2^53. *)
Lemma toNumber_succ_value (n : Z) :
  0 < n -> n + 1 < 2 ^ 53 ->
  nonneg_finite (Prim2SF (toNumber n + 1)%float) /\
  value (Prim2SF (toNumber n + 1)%float) = (n + 1) * 2 ^ bias.
Proof.
  intros H0 H1. rewrite add_spec.
  destruct (toNumber_value n ltac:(lia)) as [N V].
  destruct (Prim2SF (toNumber n)) as [s|s| |s m e];
    cbn [nonneg_finite value] in N, V; try contradiction;
    destruct s; try contradiction.
  { assert (0 < n * 2 ^ bias)
      by (apply Z.mul_pos_pos; [lia|apply pow2_pos; unfold bias; lia]).
    lia. }
  change (Prim2SF 1) with (S754_finite false 4503599627370496 (-52)).
  destruct (SFadd_finite m e 4503599627370496 (-52) N ltac:(unfold bias; lia))
    as (ms & -> & Hs).
  change (scaled 4503599627370496 (-52)) with (2 ^ bias) in Hs.
  pose proof (binary_round_bounds ms (Z.min e (-52)) 53 0
                ((n + 1) * 2 ^ bias) ((n + 1) * 2 ^ bias)) as B.
  cbv zeta in B. destruct B as [N' [Hlo Hhi]].
  - unfold bias in *; lia.
  - vm_compute; discriminate.
  - vm_compute; discriminate.
  - exists (n + 1). reflexivity.
  - exists (n + 1). reflexivity.
  - rewrite (Z.pow_add_r 2 53 bias) by (unfold bias; lia).
    apply Z.mul_lt_mono_pos_r; [apply pow2_pos; unfold bias|]; lia.
  - rewrite Hs, V. lia.
  - split; [exact N'|lia].
Qed.

(** [++] on a counter that holds [n]: the Number [toNumber n + 1] is the
    one that holds [incr n], for every integer a counter can reach. *)
Lemma toNumber_incr (n : Z) :
  0 <= n <= 2 ^ 53 -> (toNumber n + 1)%float = toNumber (incr n).
Proof.
  intros Hn. unfold incr, maxCount.
  destruct (Z.ltb_spec n (2 ^ 53)) as [Hlt|Hge].
  - destruct (Z.eq_dec n 0) as [->|Hn0]; [vm_compute; reflexivity|].
    destruct (Z.eq_dec (n + 1) (2 ^ 53)) as [E|Hn1].
    + replace n with (2 ^ 53 - 1) by lia. vm_compute. reflexivity.
    + destruct (toNumber_succ_value n ltac:(lia) ltac:(lia)) as [N V].
      destruct (toNumber_value (n + 1) ltac:(lia)) as [N' V'].
      apply (same_value _ _ ((n + 1) * 2 ^ bias)); try assumption.
      apply Z.mul_pos_pos; [lia|apply pow2_pos; unfold bias; lia].
  - replace n with (2 ^ 53) by lia. vm_compute. reflexivity.
Qed.

Lemma toNumber_value_upto (n : Z) :
  0 <= n <= 2 ^ 53 ->
  nonneg_finite (Prim2SF (toNumber n)) /\
  value (Prim2SF (toNumber n)) = n * 2 ^ bias.
Proof.
  intros Hn.
  destruct (Z.eq_dec n 0) as [->|H0]; [split; [exact I|reflexivity]|].
  destruct (Z.eq_dec n (2 ^ 53)) as [->|H1].
  - split; [vm_compute; discriminate|vm_compute; reflexivity].
  - apply toNumber_value. lia.
Qed.

Lemma toNumber_leb (a b : Z) :
  0 <= a <= b -> b <= 2 ^ 53 ->
  PrimFloat.leb (toNumber a) (toNumber b) = true.
Proof.
  intros Ha Hb.
  destruct (toNumber_value_upto a ltac:(lia)) as [Na Va].
  destruct (toNumber_value_upto b ltac:(lia)) as [Nb Vb].
  apply leb_of_values; try assumption.
  rewrite Va, Vb. apply Z.mul_le_mono_nonneg_r; [|lia].
  apply Z.lt_le_incl, pow2_pos. unfold bias; lia.
Qed.

(** Below 2^53 distinct integers are held by distinct Numbers. *)
Lemma toNumber_inj (a b : Z) :
  0 <= a <= 2 ^ 53 -> 0 <= b <= 2 ^ 53 -> toNumber a = toNumber b -> a = b.
Proof.
  intros Ha Hb E.
  destruct (toNumber_value_upto a Ha) as [_ Va].
  destruct (toNumber_value_upto b Hb) as [_ Vb].
  rewrite E, Vb in Va.
  apply Z.mul_reg_r in Va; [congruence|].
  pose proof (pow2_pos bias ltac:(unfold bias; lia)). lia.
Qed.

(** ** Order and equality *)

Section Order.

Local Open Scope float_scope.

(** Multiplication rounds the same product whichever operand comes
    first. *)
Lemma SFmul_comm (x y : spec_float) : SF64mul x y = SF64mul y x.
Proof.
  unfold SF64mul.
  destruct x as [sx|sx| |sx mx ex], y as [sy|sy| |sy my ey]; cbn;
    rewrite ?(xorb_comm sx sy); try reflexivity.
  now rewrite Pos.mul_comm, Z.add_comm.
Qed.

Lemma float_mul_comm (x y : float) : x * y = y * x.
Proof.
  apply Prim2SF_inj. rewrite !mul_spec. apply SFmul_comm.
Qed.

(** Two numbers that compare equal are not strictly ordered. *)
Lemma float_eqb_not_ltb (x y : float) : (x =? y) = true -> (x <? y) = false.
Proof.
  rewrite eqb_spec, ltb_spec. unfold SFeqb, SFltb.
  destruct (SFcompare (Prim2SF x) (Prim2SF y)) as [[ | | ]|];
    intros H; (reflexivity || discriminate H).
Qed.

(** A number that is at least 1 is not [0] and is above [0]. *)
Lemma one_le_positive (x : float) :
  (1 <=? x) = true -> (x =? 0) = false /\ (0 <? x) = true.
Proof.
  rewrite leb_spec, eqb_spec, ltb_spec.
  change (Prim2SF 0) with (S754_zero false).
  change (Prim2SF 1) with (S754_finite false 4503599627370496 (-52)).
  destruct (Prim2SF x) as [s|s| |s m e]; try destruct s;
    intros H; try discriminate H; split; reflexivity.
Qed.

(** A number that [=== 0] is not above [0]. *)
Lemma zero_not_positive (x : float) : (x =? 0) = true -> (0 <? x) = false.
Proof.
  rewrite eqb_spec, ltb_spec.
  change (Prim2SF 0) with (S754_zero false).
  destruct (Prim2SF x) as [s|s| |s m e]; try destruct s;
    intros H; try discriminate H; reflexivity.
Qed.

End Order.

(** * The object's methods *)

(** ** Projections through the setters *)

Section Projections.

Variable st : State.

Lemma total_pause : total (pause st) = total st.
Proof. unfold pause; cbn. destruct (timeoutId st); reflexivity. Qed.

Lemma inside_pause : inside (pause st) = inside st.
Proof. unfold pause; cbn. destruct (timeoutId st); reflexivity. Qed.

Lemma isRunning_pause : isRunning (pause st) = false.
Proof. unfold pause; cbn. destruct (timeoutId st); reflexivity. Qed.

Lemma geometry_pause : geometry (pause st) = geometry st.
Proof. unfold pause; cbn. destruct (timeoutId st); reflexivity. Qed.

Lemma total_record b : total (record b st) = (total st + 1)%float.
Proof. reflexivity. Qed.

Lemma inside_record b :
  inside (record b st) = if b then (inside st + 1)%float else inside st.
Proof. reflexivity. Qed.

Lemma total_reset : total (reset st) = 0%float.
Proof. reflexivity. Qed.

Lemma inside_reset : inside (reset st) = 0%float.
Proof. reflexivity. Qed.

Lemma isRunning_reset : isRunning (reset st) = false.
Proof. exact isRunning_pause. Qed.

Lemma geometry_reset : geometry (reset st) = geometry st.
Proof. exact geometry_pause. Qed.

End Projections.

(** ** The loop *)

(** [animate] on a stopped object is the early [return]. *)
Lemma animate_stopped rx ry st :
  isRunning st = false -> animate rx ry st = st.
Proof. intros H; unfold animate; rewrite H; reflexivity. Qed.

(** [animate] on a running object records one sample and stays running. *)
Lemma animate_running rx ry st :
  isRunning st = true ->
  let isIn := isInside st (coordinate st rx) (coordinate st ry) in
  total (animate rx ry st) = total (record isIn st) /\
  inside (animate rx ry st) = inside (record isIn st) /\
  isRunning (animate rx ry st) = true.
Proof.
  intros H; unfold animate; rewrite H; cbn.
  repeat split; assumption.
Qed.

(** The tick of [src/pi.js] is the tick of the running object, but for
    the timer id that the later revision keeps. *)
Lemma PiJs_animate_running rx ry st :
  isRunning st = true ->
  PiJs.animate rx ry st
  = set_timeoutId (timeoutId st) (animate rx ry st).
Proof. intros H. unfold PiJs.animate, animate. rewrite H. reflexivity. Qed.

Lemma PiJs_animate_records rx ry st :
  let isIn := isInside st (coordinate st rx) (coordinate st ry) in
  total (PiJs.animate rx ry st) = total (record isIn st) /\
  inside (PiJs.animate rx ry st) = inside (record isIn st).
Proof. split; reflexivity. Qed.

Lemma geometry_animate rx ry st : geometry (animate rx ry st) = geometry st.
Proof. unfold animate. destruct (isRunning st); reflexivity. Qed.

Lemma resume_stopped rx ry st :
  isRunning st = false ->
  resume rx ry st
  = animate rx ry (set_pauseBtn "Pause"%string (set_isRunning true st)).
Proof. intros R. unfold resume. rewrite R. reflexivity. Qed.

Lemma resume_running rx ry st : isRunning st = true -> resume rx ry st = st.
Proof. intros R. unfold resume. rewrite R. reflexivity. Qed.

Lemma isRunning_resume rx ry st : isRunning (resume rx ry st) = true.
Proof.
  destruct (isRunning st) eqn:R.
  - now rewrite resume_running.
  - rewrite resume_stopped by exact R. now apply animate_running.
Qed.

Lemma geometry_resume rx ry st : geometry (resume rx ry st) = geometry st.
Proof.
  destruct (isRunning st) eqn:R.
  - now rewrite resume_running.
  - rewrite resume_stopped by exact R. now rewrite geometry_animate.
Qed.

Lemma geometry_step e st : geometry (step e st) = geometry st.
Proof.
  destruct e as [id rx ry|rx ry| |v]; unfold step.
  - destruct (pending id st); [|reflexivity].
    now rewrite geometry_animate.
  - destruct (isRunning st); [apply geometry_pause | apply geometry_resume].
  - apply geometry_reset.
  - reflexivity.
Qed.

Lemma geometry_run es : forall st, geometry (run es st) = geometry st.
Proof.
  induction es as [|e es IH]; intros st; cbn; [reflexivity|].
  now rewrite IH, geometry_step.
Qed.

(** ** Counting *)


Lemma incr_bounds a b :
  0 <= a <= b -> b <= maxCount ->
  0 <= incr a <= incr b /\ incr b <= maxCount /\ a <= incr a.
Proof.
  intros Ha Hb. unfold incr.
  destruct (Z.ltb_spec a maxCount), (Z.ltb_spec b maxCount); lia.
Qed.

Lemma counts_ok_record st b : counts_ok st -> counts_ok (record b st).
Proof.
  intros (i & t & Hi & Ht & Hit & Hmax).
  destruct (incr_bounds i t Hit Hmax) as (Hii & Hti & _).
  exists (if b then incr i else i), (incr t).
  rewrite total_record, inside_record, Hi, Ht.
  rewrite (toNumber_incr t) by (unfold maxCount in Hmax; lia).
  destruct b.
  - rewrite (toNumber_incr i) by (unfold maxCount in Hmax; lia).
    repeat split; lia.
  - destruct (incr_bounds t t ltac:(lia) Hmax) as (_ & _ & Hge).
    repeat split; lia.
Qed.

Lemma counts_ok_zero st :
  total st = 0%float -> inside st = 0%float -> counts_ok st.
Proof.
  intros Ht Hi. exists 0, 0. rewrite Ht, Hi. unfold maxCount.
  repeat split; lia.
Qed.

Lemma counts_ok_reset st : counts_ok (reset st).
Proof. apply counts_ok_zero; reflexivity. Qed.

Lemma counts_ok_eq st st' :
  total st' = total st -> inside st' = inside st ->
  counts_ok st -> counts_ok st'.
Proof. unfold counts_ok. intros -> ->. exact (fun H => H). Qed.

Lemma counts_ok_animate rx ry st :
  counts_ok st -> counts_ok (animate rx ry st).
Proof.
  intros H. destruct (isRunning st) eqn:R.
  - destruct (animate_running rx ry st R) as (Ht & Hi & _).
    apply (counts_ok_eq _ _ Ht Hi). now apply counts_ok_record.
  - now rewrite animate_stopped.
Qed.

Lemma counts_ok_step e st : counts_ok st -> counts_ok (step e st).
Proof.
  intros H. destruct e as [id rx ry|rx ry| |v]; unfold step.
  - destruct (pending id st); [|exact H].
    apply counts_ok_animate. exact H.
  - destruct (isRunning st) eqn:R.
    + apply (counts_ok_eq st); [apply total_pause | apply inside_pause | exact H].
    + rewrite (resume_stopped rx ry st R). apply counts_ok_animate. exact H.
  - apply counts_ok_reset.
  - exact H.
Qed.

(** The counters hold integers with [0 <= inside <= total] along every
    run of the event loop. *)
Lemma counts_ok_run es : forall st, counts_ok st -> counts_ok (run es st).
Proof.
  induction es as [|e es IH]; intros st H; cbn.
  - exact H.
  - apply IH, counts_ok_step, H.
Qed.

(** In the script's own comparisons: [0 <= inside] and
    [inside <= total]. *)
Lemma counts_ok_ordered st :
  counts_ok st ->
  PrimFloat.leb 0 (inside st) = true /\
  PrimFloat.leb (inside st) (total st) = true.
Proof.
  intros (i & t & -> & -> & Hit & Hmax). unfold maxCount in Hmax.
  split.
  - change 0%float with (toNumber 0). apply toNumber_leb; lia.
  - apply toNumber_leb; lia.
Qed.

(** ** What the methods draw *)

Lemma canvas_pause st : canvas (pause st) = canvas st.
Proof. unfold pause; cbn. destruct (timeoutId st); reflexivity. Qed.

Lemma fields_pause st :
  squareSize (pause st) = squareSize st /\ offset (pause st) = offset st /\
  radius (pause st) = radius st /\ centerX (pause st) = centerX st /\
  centerY (pause st) = centerY st.
Proof. unfold pause; cbn. destruct (timeoutId st); repeat split. Qed.

Lemma canvas_drawStats st :
  canvas (drawStats st) = canvas st ++ FillRect 0 0 600 40 "#fff" :: statsText st.
Proof. reflexivity. Qed.

Lemma canvas_drawBoard st :
  canvas (drawBoard st)
  = canvas st
    ++ [StrokeRect (offset st) (offset st) (squareSize st) (squareSize st);
        StrokeArc (centerX st) (centerY st) (radius st)].
Proof. reflexivity. Qed.

(** The lines of the strip depend on the two counters only. *)
Lemma statsText_counts st st' :
  total st' = total st -> inside st' = inside st ->
  statsText st' = statsText st.
Proof.
  intros Ht Hi. unfold statsText, computeZScore. now rewrite Ht, Hi.
Qed.

Lemma statsText_zero st :
  total st = 0%float -> inside st = 0%float ->
  statsText st = [FillText (TotalText 0) 50 20; FillText (InsideText 0) 50 38].
Proof. intros Ht Hi. unfold statsText. rewrite Ht, Hi. reflexivity. Qed.

Lemma canvas_reset st :
  canvas (reset st)
  = canvas st
    ++ [ClearRect 0 0 600 600;
        StrokeRect (offset st) (offset st) (squareSize st) (squareSize st);
        StrokeArc (centerX st) (centerY st) (radius st);
        FillRect 0 0 600 40 "#fff";
        FillText (TotalText 0) 50 20; FillText (InsideText 0) 50 38].
Proof.
  unfold reset. rewrite canvas_drawStats, canvas_drawBoard.
  rewrite (statsText_zero
             (drawBoard (draw [ClearRect 0 0 600 600]
                              (set_counts 0 0 (pause st)))) eq_refl eq_refl).
  change (canvas (draw [ClearRect 0 0 600 600] (set_counts 0 0 (pause st))))
    with (canvas (pause st) ++ [ClearRect 0 0 600 600]).
  change (offset (draw [ClearRect 0 0 600 600] (set_counts 0 0 (pause st))))
    with (offset (pause st)).
  change (squareSize (draw [ClearRect 0 0 600 600] (set_counts 0 0 (pause st))))
    with (squareSize (pause st)).
  change (centerX (draw [ClearRect 0 0 600 600] (set_counts 0 0 (pause st))))
    with (centerX (pause st)).
  change (centerY (draw [ClearRect 0 0 600 600] (set_counts 0 0 (pause st))))
    with (centerY (pause st)).
  change (radius (draw [ClearRect 0 0 600 600] (set_counts 0 0 (pause st))))
    with (radius (pause st)).
  destruct (fields_pause st) as (-> & -> & -> & -> & ->).
  rewrite canvas_pause, <- !app_assoc. reflexivity.
Qed.

(** ** Construction *)

(** The object that [new MonteCarloPi(autoStart)] returns: on the
    class's geometry [drawBoard] draws a circle of radius 250 and does
    not throw. *)
Lemma construct_cases autoStart rx ry st :
  construct autoStart rx ry = Normal st ->
  st = if autoStart
       then animate rx ry (set_isRunning true (drawBoard (fields 500 50)))
       else drawBoard (fields 500 50).
Proof.
  unfold construct, constructWith.
  change (drawBoardThrows (fields 500 50)) with false. cbv iota.
  destruct autoStart; now intros [= <-].
Qed.

(** * The properties of the specification *)

(** ** C1: the z-score and the estimate *)

(** With at least one sample, [drawStats] writes exactly the four lines:
    the two counters, the estimate and the z-score. *)
Lemma statsText_sampled st :
  PrimFloat.leb 1 (total st) = true ->
  statsText st =
  [FillText (TotalText (total st)) 50 20;
   FillText (InsideText (inside st)) 50 38;
   FillText (PiText (inside st / total st * 4)%float) 200 20;
   FillText (ZText (computeZScore st)) 200 38].
Proof.
  intros H. unfold statsText.
  destruct (one_le_positive _ H) as [_ ->]. reflexivity.
Qed.

(** C1. For every state with [total >= 1], [computeZScore] is
    [(observed - p) / std] with [p = Math.PI / 4],
    [observed = inside / total] and [std = sqrt (p * (1 - p) / total)],
    and is [0] instead of a quotient when [std == 0]; the estimate that
    [drawStats] writes is [4 * (inside / total)]. *)
Theorem C1_zscore_and_estimate (st : State) :
  PrimFloat.leb 1 (total st) = true ->
  computeZScore st = Spec.zScore st /\
  (PrimFloat.eqb (Spec.std st) 0 = true -> computeZScore st = 0%float) /\
  (PrimFloat.eqb (Spec.std st) 0 = false ->
   computeZScore st
   = PrimFloat.div (PrimFloat.sub (Spec.observed st) Spec.p) (Spec.std st)) /\
  In (FillText (PiText (Spec.piEstimate st)) 200 20) (statsText st).
Proof.
  intros Hn.
  assert (Hz : computeZScore st = Spec.zScore st).
  { unfold computeZScore, Spec.zScore, Spec.std, Spec.observed, Spec.p.
    destruct (one_le_positive _ Hn) as [-> _]. reflexivity. }
  split; [exact Hz|].
  split; [|split].
  - intros E. rewrite Hz. unfold Spec.zScore. now rewrite E.
  - intros E. rewrite Hz. unfold Spec.zScore. now rewrite E.
  - rewrite (statsText_sampled st Hn). unfold Spec.piEstimate.
    rewrite (float_mul_comm 4). cbn. tauto.
Qed.

Lemma C1_zscore_and_estimate_witness :
  PrimFloat.leb 1 (total sampled) = true /\
  computeZScore sampled = Spec.zScore sampled.
Proof.
  assert (H : PrimFloat.leb 1 (total sampled) = true) by reflexivity.
  split; [exact H | exact (proj1 (C1_zscore_and_estimate sampled H))].
Defined.

(** After 78 hits in 100 samples: the estimate is 3.12
    ([0x1.8f5c28f5c28f6p+1]) and the z-score is about -0.1315. *)
Example stats_sampled :
  statsText sampled =
  [FillText (TotalText 100) 50 20; FillText (InsideText 78) 50 38;
   FillText (PiText 0x1.8f5c28f5c28f6p+1) 200 20;
   FillText (ZText (-0x1.0d494d73769cep-3)) 200 38].
Proof. vm_compute. reflexivity. Qed.

(** The degenerate all-inside run of 100 samples is more than five
    standard deviations above expectation. *)
Example zscore_all_inside :
  PrimFloat.ltb 5 (computeZScore (set_counts 100 100 (fields 500 50))) = true.
Proof. vm_compute. reflexivity. Qed.

(** ** C2: the classifier *)

(** C2. A point is classified inside exactly when its squared distance
    from the centre is strictly below [radius * radius]; a point whose
    squared distance equals [radius * radius] is classified outside. *)
Theorem C2_classifier_strict (st : State) (x y : float) :
  (isInside st x y = true <-> PrimFloat.ltb (sqDist st x y) (sqRadius st) = true) /\
  (PrimFloat.eqb (sqDist st x y) (sqRadius st) = true -> isInside st x y = false).
Proof.
  split.
  - unfold isInside, sqDist, sqRadius. tauto.
  - intros E. unfold isInside. now apply float_eqb_not_ltb.
Qed.

(** The edge point (550, 300) of the 500 / 50 geometry is at distance
    exactly 250 and is outside. *)
Lemma C2_classifier_strict_witness :
  PrimFloat.eqb (sqDist (fields 500 50) 550 300) (sqRadius (fields 500 50)) = true /\
  isInside (fields 500 50) 550 300 = false.
Proof.
  assert (E : PrimFloat.eqb (sqDist (fields 500 50) 550 300)
                            (sqRadius (fields 500 50)) = true)
    by (vm_compute; reflexivity).
  split; [exact E | exact (proj2 (C2_classifier_strict (fields 500 50) 550 300) E)].
Defined.

(** The scenario of the specification: centre inside, corner and edge
    outside. *)
Example scenario_geometry :
  geometry (fields 500 50) = (500, 50, 250, 300, 300)%float.
Proof. vm_compute. reflexivity. Qed.

Example scenario_centre : isInside (fields 500 50) 300 300 = true.
Proof. vm_compute. reflexivity. Qed.

Example scenario_corner : isInside (fields 500 50) 50 50 = false.
Proof. vm_compute. reflexivity. Qed.

Example scenario_edge : isInside (fields 500 50) 550 300 = false.
Proof. vm_compute. reflexivity. Qed.

(** ** C3: recording a sample *)




(** The monotone half of C3 holds up to and at 2^53. *)
Lemma record_monotone (st : State) (b : bool) (n : Z) :
  total st = toNumber n -> 0 <= n <= 2 ^ 53 ->
  PrimFloat.leb (total st) (total (record b st)) = true.
Proof.
  intros Ht Hn. rewrite total_record, Ht, toNumber_incr by exact Hn.
  destruct (incr_bounds n n ltac:(lia) ltac:(unfold maxCount; lia))
    as (_ & Hmax & Hge).
  apply toNumber_leb; [lia|exact Hmax].
Qed.

(** ** C4: the invariant *)

(** C4. The counters start at (0, 0) and hold integers with
    [0 <= inside <= total]; every recorded sample preserves this, every
    reset establishes it, and it makes the script's own comparisons
    [0 <= inside] and [inside <= total] true. *)
Theorem C4_invariant :
  (forall size off,
      total (fields size off) = 0%float /\ inside (fields size off) = 0%float /\
      counts_ok (fields size off)) /\
  (forall st b, counts_ok st -> counts_ok (record b st)) /\
  (forall st, counts_ok (reset st)) /\
  (forall st, counts_ok st ->
              PrimFloat.leb 0 (inside st) = true /\
              PrimFloat.leb (inside st) (total st) = true).
Proof.
  split; [|split; [|split]].
  - intros size off. repeat split. now apply counts_ok_zero.
  - exact counts_ok_record.
  - exact counts_ok_reset.
  - exact counts_ok_ordered.
Qed.

Lemma counts_ok_sampled : counts_ok sampled.
Proof.
  exists 78, 100. unfold maxCount.
  repeat split; try reflexivity; discriminate.
Defined.

Lemma C4_invariant_witness : counts_ok (record true sampled).
Proof.
  exact (proj1 (proj2 C4_invariant) sampled true counts_ok_sampled).
Defined.

(** Every state the page can reach from [new MonteCarloPi()] satisfies
    the invariant. *)
Lemma counts_ok_reachable (autoStart : bool) (rx ry : float) (es : list Event) :
  forall st, construct autoStart rx ry = Normal st -> counts_ok (run es st).
Proof.
  intros st H. apply counts_ok_run.
  apply construct_cases in H. subst st.
  assert (H0 : counts_ok (drawBoard (fields 500 50)))
    by (apply counts_ok_zero; reflexivity).
  destruct autoStart; [|exact H0].
  apply counts_ok_animate. exact H0.
Qed.

(** ** C5: before the first sample *)

(** C5. With [total == 0] the z-score is exactly 0 and [drawStats]
    writes the two counters only: no estimate and no z-score line. *)
Theorem C5_no_samples (st : State) :
  PrimFloat.eqb (total st) 0 = true ->
  computeZScore st = 0%float /\
  statsText st = [FillText (TotalText (total st)) 50 20;
                  FillText (InsideText (inside st)) 50 38] /\
  (forall v x y, ~ In (FillText (PiText v) x y) (statsText st)).
Proof.
  intros H.
  assert (Hs : statsText st = [FillText (TotalText (total st)) 50 20;
                               FillText (InsideText (inside st)) 50 38]).
  { unfold statsText. rewrite (zero_not_positive _ H). reflexivity. }
  split; [|split].
  - unfold computeZScore. rewrite H. reflexivity.
  - exact Hs.
  - intros v x y. rewrite Hs. cbn. intros [E|[E|[]]]; discriminate E.
Qed.

Lemma C5_no_samples_witness : computeZScore (fields 500 50) = 0%float.
Proof.
  exact (proj1 (C5_no_samples (fields 500 50) eq_refl)).
Defined.

(** ** C6: reset *)

(** C6. From any state [reset] leaves both counters at 0, and so does a
    second [reset] right after it. *)
Theorem C6_reset_idempotent (st : State) :
  (total (reset st), inside (reset st)) = (0, 0)%float /\
  (total (reset (reset st)), inside (reset (reset st))) = (0, 0)%float.
Proof.
  split.
  - now rewrite total_reset, inside_reset.
  - now rewrite (total_reset (reset st)), (inside_reset (reset st)).
Qed.

(** [reset] also stops the loop and leaves no tick of its own pending. *)
Lemma reset_stops st : isRunning (reset st) = false.
Proof. apply isRunning_reset. Qed.

(** ** C7: the range of a coordinate *)

(** For [r = 1 - 2^-53] the product [r * 500] rounds to [500 - 2^-44]
    and the sum with 50 is a tie that rounds up to 550: the coordinate
    is the excluded end of the interval. *)
Lemma C7_coordinate_reaches_upper_end :
  PrimFloat.leb 0 belowOne = true /\
  PrimFloat.ltb belowOne 1 = true /\
  coordinate (fields 500 50) belowOne = 550%float /\
  PrimFloat.ltb (coordinate (fields 500 50) belowOne)
                (offset (fields 500 50) + squareSize (fields 500 50)) = false.
Proof. vm_compute. repeat split. Qed.

(** C7, amended. On the geometry of the class ([squareSize = 500],
    [offset = 50]) every [r] of [[0, 1)] gives a coordinate
    [r * squareSize + offset] of the closed interval
    [[offset, offset + squareSize]]; it is below [offset + squareSize]
    for every [r] but the largest one, [1 - 2^-53], for which it is
    [offset + squareSize]. *)
Theorem C7_coordinate_closed_range (st : State) (r : float) :
  squareSize st = 500%float -> offset st = 50%float ->
  PrimFloat.leb 0 r = true -> PrimFloat.ltb r 1 = true ->
  PrimFloat.leb (offset st) (coordinate st r) = true /\
  PrimFloat.leb (coordinate st r) (offset st + squareSize st) = true /\
  (r <> belowOne ->
   PrimFloat.ltb (coordinate st r) (offset st + squareSize st) = true) /\
  (r = belowOne -> coordinate st r = (offset st + squareSize st)%float).
Proof.
  intros Hs Ho H0 H1. unfold coordinate. rewrite Hs, Ho.
  change (50 + 500)%float with 550%float.
  destruct (coordinate_closed_range r H0 H1) as [Hlo Hhi].
  split; [exact Hlo|]. split; [exact Hhi|]. split.
  - intros Hne. now apply coordinate_half_open.
  - intros ->. reflexivity.
Qed.

Lemma C7_coordinate_closed_range_witness :
  PrimFloat.leb 50 (coordinate (fields 500 50) 0.5) = true /\
  PrimFloat.leb (coordinate (fields 500 50) 0.5) 550 = true.
Proof.
  destruct (C7_coordinate_closed_range (fields 500 50) 0.5
              eq_refl eq_refl eq_refl eq_refl) as (Hlo & Hhi & _).
  split; [exact Hlo | exact Hhi].
Defined.

(** Both coordinates of every sample that [animate] draws on that
    geometry are in the closed interval. *)
Lemma sample_in_square (st : State) (rx ry : float) :
  geometry st = (500, 50, 250, 300, 300)%float ->
  PrimFloat.leb 0 rx = true -> PrimFloat.ltb rx 1 = true ->
  PrimFloat.leb 0 ry = true -> PrimFloat.ltb ry 1 = true ->
  (PrimFloat.leb 50 (coordinate st rx) = true /\
   PrimFloat.leb (coordinate st rx) 550 = true) /\
  (PrimFloat.leb 50 (coordinate st ry) = true /\
   PrimFloat.leb (coordinate st ry) 550 = true).
Proof.
  unfold geometry. intros G. injection G as Hs Ho _ _ _.
  intros; unfold coordinate; rewrite Hs, Ho.
  split; now apply coordinate_closed_range.
Qed.

(** ** C9: pause *)

Lemma removed_not_pending id (ts : list Timer) :
  existsb (fun t => Nat.eqb (timerId t) id)
          (filter (fun t => negb (Nat.eqb (timerId t) id)) ts) = false.
Proof.
  induction ts as [|t ts IH]; cbn; [reflexivity|].
  destruct (Nat.eqb (timerId t) id) eqn:E; cbn; [exact IH|].
  now rewrite E.
Qed.

Lemma pause_cancels st id :
  timeoutId st = Some id -> pending id (pause st) = false.
Proof.
  intros H. unfold pending, pause; cbn. rewrite H; cbn.
  apply removed_not_pending.
Qed.

Lemma frozen_step e st :
  isRunning st = false -> passive e = true -> frozen st (step e st).
Proof.
  intros R P. destruct e as [id rx ry|rx ry| |v]; try discriminate P;
    unfold step, frozen.
  - destruct (pending id st); [|repeat split; exact R].
    rewrite animate_stopped by exact R. repeat split. exact R.
  - repeat split. exact R.
Qed.

Lemma frozen_run es :
  forall st, isRunning st = false -> forallb passive es = true ->
             frozen st (run es st).
Proof.
  induction es as [|e es IH]; intros st R P.
  - repeat split. exact R.
  - cbn in P. apply andb_true_iff in P as [Pe Pes].
    destruct (frozen_step e st R Pe) as (Ht & Hi & Hc & R').
    destruct (IH (step e st) R' Pes) as (Ht' & Hi' & Hc' & R'').
    change (run (e :: es) st) with (run es (step e st)).
    unfold frozen. repeat split; congruence.
Qed.

(** A click on the reset button while the object is paused empties the
    counters: after one sample and a pause the counters are (1, 1); the
    reset that follows leaves the object stopped, nothing has resumed,
    and the counters are (0, 0). *)
Lemma C9_reset_while_paused :
  isRunning (pause started) = false /\
  timers (pause started) = [] /\
  total (pause started) = 1%float /\
  inside (pause started) = 1%float /\
  forallb no_resume [ResetClick] = true /\
  isRunning (run [ResetClick] (pause started)) = false /\
  total (run [ResetClick] (pause started)) = 0%float /\
  inside (run [ResetClick] (pause started)) = 0%float /\
  PrimFloat.eqb (total (run [ResetClick] (pause started)))
                (total (pause started)) = false.
Proof. vm_compute. repeat split. Qed.

(** [reset] draws no dot. *)
Lemma dotCalls_reset st : dotCalls (canvas (reset st)) = dotCalls (canvas st).
Proof.
  unfold dotCalls. rewrite canvas_reset, filter_app.
  cbn [filter isDot]. apply app_nil_r.
Qed.

(** One event that is not a resume, on a stopped object: the object
    stays stopped and no dot is drawn; a timer or the slider changes
    neither the counters nor the canvas, a reset empties the
    counters. *)
Lemma stopped_step e st :
  isRunning st = false -> no_resume e = true ->
  isRunning (step e st) = false /\
  dotCalls (canvas (step e st)) = dotCalls (canvas st) /\
  (isReset e = false -> frozen st (step e st)) /\
  (isReset e = true ->
   total (step e st) = 0%float /\ inside (step e st) = 0%float).
Proof.
  intros R P. destruct e as [id rx ry|rx ry| |v]; try discriminate P.
  - destruct (frozen_step (TimerFires id rx ry) st R eq_refl)
      as (Ht & Hi & Hc & R').
    split; [exact R'|]. split; [now rewrite Hc|].
    split; [intros _; now repeat split|discriminate].
  - change (step ResetClick st) with (reset st).
    split; [apply isRunning_reset|]. split; [apply dotCalls_reset|].
    split; [discriminate|]. intros _. split; [apply total_reset|apply inside_reset].
  - destruct (frozen_step (SliderInput v) st R eq_refl)
      as (Ht & Hi & Hc & R').
    split; [exact R'|]. split; [now rewrite Hc|].
    split; [intros _; now repeat split|discriminate].
Qed.

Lemma stopped_run es :
  forall st,
    isRunning st = false -> forallb no_resume es = true ->
    isRunning (run es st) = false /\
    dotCalls (canvas (run es st)) = dotCalls (canvas st) /\
    (existsb isReset es = false -> frozen st (run es st)) /\
    (existsb isReset es = true ->
     total (run es st) = 0%float /\ inside (run es st) = 0%float).
Proof.
  induction es as [|e es IH]; intros st R P.
  - split; [exact R|]. split; [reflexivity|].
    split; [intros _; now repeat split|discriminate].
  - cbn [forallb] in P. apply andb_true_iff in P as [Pe Pes].
    change (run (e :: es) st) with (run es (step e st)).
    destruct (stopped_step e st R Pe) as (R1 & D1 & F1 & Z1).
    destruct (IH (step e st) R1 Pes) as (R2 & D2 & F2 & Z2).
    split; [exact R2|]. split; [now rewrite D2|].
    cbn [existsb]. split.
    + intros E. apply orb_false_iff in E as [Ee Ees].
      destruct (F1 Ee) as (Ht & Hi & Hc & _).
      destruct (F2 Ees) as (Ht' & Hi' & Hc' & R').
      unfold frozen. repeat split; congruence.
    + intros E. destruct (existsb isReset es) eqn:Ees; [now apply Z2|].
      rewrite orb_false_r in E.
      destruct (Z1 E) as [Ht Hi].
      destruct (F2 eq_refl) as (Ht' & Hi' & _ & _).
      split; congruence.
Qed.

(** C9, amended. Once [pause] has run, the pending tick is cancelled
    and no sample is recorded until a click on the pause button resumes
    the loop: for every sequence of timer firings, slider moves and
    clicks on the reset button that follows, the object stays stopped
    and no dot is drawn; [total] and [inside] (and, without a reset,
    the whole canvas) stay as they were unless a reset is among the
    events, which sets both counters to 0; the resume that follows
    records one sample. *)
Theorem C9_pause_stops_sampling (st : State) (es : list Event) (rx ry : float) :
  forallb no_resume es = true ->
  (forall id, timeoutId st = Some id -> pending id (pause st) = false) /\
  isRunning (run es (pause st)) = false /\
  dotCalls (canvas (run es (pause st))) = dotCalls (canvas st) /\
  (existsb isReset es = false ->
   total (run es (pause st)) = total st /\
   inside (run es (pause st)) = inside st /\
   canvas (run es (pause st)) = canvas (pause st)) /\
  (existsb isReset es = true ->
   total (run es (pause st)) = 0%float /\
   inside (run es (pause st)) = 0%float) /\
  isRunning (step (PauseClick rx ry) (run es (pause st))) = true /\
  total (step (PauseClick rx ry) (run es (pause st)))
  = (total (run es (pause st)) + 1)%float.
Proof.
  intros P.
  destruct (stopped_run es (pause st) (isRunning_pause st) P)
    as (R & D & F & Z).
  split; [intros id; apply pause_cancels|].
  split; [exact R|].
  split; [now rewrite D, canvas_pause|].
  split.
  { intros E. destruct (F E) as (Ht & Hi & Hc & _).
    rewrite Ht, Hi, total_pause, inside_pause. now repeat split. }
  split; [exact Z|].
  unfold step. rewrite R, (resume_stopped rx ry _ R).
  set (st' := set_pauseBtn "Pause" (set_isRunning true (run es (pause st)))).
  destruct (animate_running rx ry st' eq_refl) as (Ht' & _ & R').
  split; [exact R'|].
  rewrite Ht', total_record. reflexivity.
Qed.

(** *** One tick loop *)

Lemma one_loop_stopped st :
  isRunning st = false -> timers st = [] -> one_loop st.
Proof. unfold one_loop. now intros ->. Qed.

Lemma one_loop_pause st : one_loop st -> one_loop (pause st).
Proof.
  intros H. apply one_loop_stopped; [apply isRunning_pause|].
  unfold one_loop in H. unfold pause; cbn.
  destruct (isRunning st).
  - destruct H as (id & d & Ht & Hid). rewrite Hid; cbn. rewrite Ht; cbn.
    now rewrite Nat.eqb_refl.
  - destruct (timeoutId st); cbn; rewrite H; reflexivity.
Qed.

(** A tick that starts with no timer pending leaves exactly its own. *)
Lemma one_loop_animate rx ry st :
  isRunning st = true -> timers st = [] -> one_loop (animate rx ry st).
Proof.
  intros R Ht. unfold one_loop.
  destruct (animate_running rx ry st R) as (_ & _ & ->).
  unfold animate. rewrite R; cbn. rewrite Ht.
  exists (nextTimer st), (slider st). split; reflexivity.
Qed.

Lemma one_loop_step e st : one_loop st -> one_loop (step e st).
Proof.
  intros H. destruct e as [id rx ry|rx ry| |v]; unfold step.
  - unfold pending. unfold one_loop in H. destruct (isRunning st) eqn:R.
    + destruct H as (id' & d & Ht & Hid). rewrite Ht; cbn.
      destruct (Nat.eqb id' id) eqn:E; cbn.
      * apply one_loop_animate; [exact R|]. cbn. rewrite Ht; cbn.
        now rewrite E.
      * unfold one_loop. rewrite R. now exists id', d.
    + rewrite H; cbn. unfold one_loop. now rewrite R.
  - destruct (isRunning st) eqn:R; [now apply one_loop_pause|].
    rewrite (resume_stopped rx ry st R).
    apply one_loop_animate; [reflexivity|].
    unfold one_loop in H. rewrite R in H. exact H.
  - apply one_loop_stopped; [apply isRunning_reset|].
    pose proof (one_loop_pause st H) as Hp. unfold one_loop in Hp.
    rewrite isRunning_pause in Hp. exact Hp.
  - exact H.
Qed.

(** From construction on there is one tick loop or none. *)
Lemma one_loop_reachable (autoStart : bool) (rx ry : float) (es : list Event) :
  forall st, construct autoStart rx ry = Normal st -> one_loop (run es st).
Proof.
  intros st H.
  assert (H0 : one_loop st).
  { apply construct_cases in H. subst st. destruct autoStart.
    - apply one_loop_animate; reflexivity.
    - apply one_loop_stopped; reflexivity. }
  clear H. revert st H0.
  induction es as [|e es IH]; intros st H0; [exact H0|].
  apply (IH (step e st)), one_loop_step, H0.
Qed.

Lemma construct_started : construct true 0.5 0.5 = Normal started.
Proof. reflexivity. Qed.

Lemma C9_pause_stops_sampling_witness :
  total (run [TimerFires 1 0.25 0.75; ResetClick; SliderInput 0]
             (pause started)) = 0%float /\
  total (run [TimerFires 1 0.25 0.75; SliderInput 0; TimerFires 1 0.5 0.5]
             (pause started)) = total started.
Proof.
  split.
  - exact (proj1 (proj1 (proj2 (proj2 (proj2 (proj2
      (C9_pause_stops_sampling started
         [TimerFires 1 0.25 0.75; ResetClick; SliderInput 0]
         0.5 0.5 eq_refl))))) eq_refl)).
  - exact (proj1 (proj1 (proj2 (proj2 (proj2
      (C9_pause_stops_sampling started
         [TimerFires 1 0.25 0.75; SliderInput 0; TimerFires 1 0.5 0.5]
         0.5 0.5 eq_refl)))) eq_refl)).
Defined.

(** Without the pause the same tick records a second sample. *)
Example tick_while_running :
  total started = 1%float /\
  total (run [TimerFires 1 0.25 0.75] started) = 2%float /\
  total (run [TimerFires 1 0.25 0.75] (pause started)) = 1%float.
Proof. vm_compute. repeat split. Qed.

(** ** C10: resume on a running object *)

(** C10. On a running object [resume] returns the state it was given:
    counters, [isRunning], the button label, the canvas and the pending
    timers are all unchanged, so no second tick is scheduled; hence a
    second [resume] after any [resume] changes nothing. *)
Theorem C10_resume_running_noop (st : State) (rx ry rx' ry' : float) :
  (isRunning st = true ->
   resume rx ry st = st /\ timers (resume rx ry st) = timers st) /\
  resume rx' ry' (resume rx ry st) = resume rx ry st.
Proof.
  split.
  - intros R. rewrite resume_running by exact R. split; reflexivity.
  - apply resume_running, isRunning_resume.
Qed.

Lemma C10_resume_running_noop_witness : resume 0.25 0.75 started = started.
Proof.
  exact (proj1 (proj1 (C10_resume_running_noop started 0.25 0.75 0.5 0.5)
                      eq_refl)).
Defined.

(** From a stopped object a single [resume] does schedule a tick, and a
    second one adds none. *)
Example resume_twice :
  List.length (timers (resume 0.5 0.5 (pause started))) = 1%nat /\
  List.length (timers (resume 0.25 0.75 (resume 0.5 0.5 (pause started)))) = 1%nat.
Proof. vm_compute. split; reflexivity. Qed.

(** * Further properties of the code *)

(** ** The canvas and the counters *)

(** What a tick that draws appends: the dot, the strip and its lines. *)
Lemma canvas_tick rx ry st :
  isRunning st = true ->
  let x := coordinate st rx in
  let y := coordinate st ry in
  let isIn := isInside st x y in
  canvas (animate rx ry st)
  = canvas st
    ++ FillArc x y 4 (if isIn then "green" else "red")%string
       :: FillRect 0 0 600 40 "#fff" :: statsText (animate rx ry st).
Proof.
  intros R. unfold animate. rewrite R.
  cbn [negb setTimeout canvas set_timeoutId set_timers].
  rewrite canvas_drawStats. unfold record, drawDot, draw.
  cbn [canvas set_counts set_canvas].
  rewrite <- app_assoc. reflexivity.
Qed.

Lemma canvas_PiJs_tick rx ry st :
  let x := coordinate st rx in
  let y := coordinate st ry in
  let isIn := isInside st x y in
  canvas (PiJs.animate rx ry st)
  = canvas st
    ++ FillArc x y 4 (if isIn then "green" else "red")%string
       :: FillRect 0 0 600 40 "#fff" :: statsText (PiJs.animate rx ry st).
Proof.
  unfold PiJs.animate.
  cbn [snd setTimeout canvas set_timers].
  rewrite canvas_drawStats. unfold record, drawDot, draw.
  cbn [canvas set_counts set_canvas].
  rewrite <- app_assoc. reflexivity.
Qed.

(** The lines of the strip are [fillText] calls only. *)
Lemma statsText_texts st :
  Forall (fun c => exists t x y, c = FillText t x y) (statsText st).
Proof.
  unfold statsText. destruct (PrimFloat.ltb 0 (total st)); cbn;
    repeat constructor; eauto.
Qed.

Lemma countDot_texts (l : list DrawCmd) :
  Forall (fun c => exists t x y, c = FillText t x y) l ->
  forall acc, fold_left countDot l acc = acc.
Proof.
  induction 1 as [|c l (t & x & y & ->) _ IH]; intros acc; cbn; [reflexivity|].
  apply IH.
Qed.

Lemma stripStep_texts (l : list DrawCmd) :
  Forall (fun c => exists t x y, c = FillText t x y) l ->
  forall h, fold_left stripStep l (Some h) = Some (h ++ l).
Proof.
  induction 1 as [|c l (t & x & y & ->) _ IH]; intros h; cbn.
  - now rewrite app_nil_r.
  - rewrite IH, <- app_assoc. reflexivity.
Qed.

Lemma dotsDrawn_nonneg (c : list DrawCmd) :
  0 <= snd (dotsDrawn c) <= fst (dotsDrawn c).
Proof.
  unfold dotsDrawn.
  assert (H : forall acc, 0 <= snd acc <= fst acc ->
                          0 <= snd (fold_left countDot c acc)
                          <= fst (fold_left countDot c acc)).
  { induction c as [|cmd c IH]; intros acc Hacc; cbn [fold_left]; [exact Hacc|].
    apply IH. destruct cmd; cbn; try exact Hacc.
    - destruct (String.eqb fillStyle "green"); cbn; lia.
    - destruct (wipesCanvas x y w h); cbn; lia. }
  apply H. cbn. lia.
Qed.

Lemma incr_min (n : Z) : 0 <= n -> incr (Z.min n maxCount) = Z.min (n + 1) maxCount.
Proof.
  intros Hn. unfold incr.
  destruct (Z.ltb_spec (Z.min n maxCount) maxCount); lia.
Qed.

Lemma toNumber_count (n : Z) :
  0 <= n ->
  (toNumber (Z.min n maxCount) + 1)%float = toNumber (Z.min (n + 1) maxCount).
Proof.
  intros Hn. rewrite toNumber_incr by (unfold maxCount; lia).
  now rewrite incr_min.
Qed.

(** A tick keeps the counters equal to the numbers of dots. *)
Lemma dots_ok_tick (st st' : State) (x y : float) (b : bool) (s : State) :
  dots_ok st ->
  canvas st' = canvas st
               ++ FillArc x y 4 (if b then "green" else "red")%string
                  :: FillRect 0 0 600 40 "#fff" :: statsText s ->
  total st' = total (record b st) -> inside st' = inside (record b st) ->
  dots_ok st'.
Proof.
  intros [Ht Hi] Hc Ht' Hi'. unfold dots_ok.
  pose proof (dotsDrawn_nonneg (canvas st)) as Hn.
  rewrite Hc. unfold dotsDrawn in *. rewrite fold_left_app.
  cbn [fold_left]. rewrite (countDot_texts _ (statsText_texts s)).
  rewrite Ht', Hi', total_record, inside_record, Ht, Hi.
  cbn [countDot fst snd].
  split; [apply toNumber_count; lia|].
  destruct b.
  - change (String.eqb "green" "green") with true. cbv iota.
    apply toNumber_count; lia.
  - change (String.eqb "red" "green") with false. reflexivity.
Qed.

Lemma dots_ok_eq st st' :
  canvas st' = canvas st -> total st' = total st -> inside st' = inside st ->
  dots_ok st -> dots_ok st'.
Proof. unfold dots_ok. now intros -> -> ->. Qed.

Lemma dots_ok_animate rx ry st : dots_ok st -> dots_ok (animate rx ry st).
Proof.
  intros H. destruct (isRunning st) eqn:R.
  - destruct (animate_running rx ry st R) as (Ht & Hi & _).
    exact (dots_ok_tick st _ _ _ _ _ H (canvas_tick rx ry st R) Ht Hi).
  - now rewrite animate_stopped.
Qed.

Lemma dots_ok_reset st : dots_ok (reset st).
Proof.
  unfold dots_ok. rewrite canvas_reset, total_reset, inside_reset.
  unfold dotsDrawn. rewrite fold_left_app. split; reflexivity.
Qed.

Lemma dots_ok_step e st : dots_ok st -> dots_ok (step e st).
Proof.
  intros H. destruct e as [id rx ry|rx ry| |v]; unfold step.
  - destruct (pending id st); [|exact H].
    apply dots_ok_animate. exact H.
  - destruct (isRunning st) eqn:R.
    + apply (dots_ok_eq st);
        [apply canvas_pause|apply total_pause|apply inside_pause|exact H].
    + rewrite (resume_stopped rx ry st R). apply dots_ok_animate. exact H.
  - apply dots_ok_reset.
  - exact H.
Qed.

Lemma dots_ok_fresh : dots_ok (drawBoard (fields 500 50)).
Proof. split; reflexivity. Qed.

(** X1. From construction on and after every sequence of events, the
    counters are the numbers of dots that were drawn since the canvas
    was last cleared: [total] counts the dots and [inside] the green
    ones (up to 2^53, where a Number stops counting). *)
Theorem X1_counters_count_the_dots
        (autoStart : bool) (rx ry : float) (es : list Event) (st : State) :
  construct autoStart rx ry = Normal st ->
  total (run es st)
  = toNumber (Z.min (fst (dotsDrawn (canvas (run es st)))) (2 ^ 53)) /\
  inside (run es st)
  = toNumber (Z.min (snd (dotsDrawn (canvas (run es st)))) (2 ^ 53)).
Proof.
  intros H. apply construct_cases in H.
  assert (H0 : dots_ok st).
  { subst st. destruct autoStart; [apply dots_ok_animate|]; exact dots_ok_fresh. }
  clear H. revert st H0.
  induction es as [|e es IH]; intros st H0; [exact H0|].
  apply (IH (step e st)), dots_ok_step, H0.
Qed.

Lemma X1_counters_count_the_dots_witness :
  dotsDrawn (canvas (run [TimerFires 1 0.25 0.75; TimerFires 2 0.5 0.5] started))
  = (3, 3) /\
  total (run [TimerFires 1 0.25 0.75; TimerFires 2 0.5 0.5] started)
  = toNumber (Z.min 3 (2 ^ 53)).
Proof.
  split; [vm_compute; reflexivity|].
  exact (proj1 (X1_counters_count_the_dots true 0.5 0.5
                  [TimerFires 1 0.25 0.75; TimerFires 2 0.5 0.5] started
                  construct_started)).
Defined.

(** ** The statistics strip *)

Lemma stripShown_painted (c : list DrawCmd) (d : DrawCmd) (l : list DrawCmd) :
  (forall h, stripStep h d = h) ->
  Forall (fun c => exists t x y, c = FillText t x y) l ->
  stripShown (c ++ d :: FillRect 0 0 600 40 "#fff" :: l) = Some l.
Proof.
  intros Hd Hl. unfold stripShown. rewrite fold_left_app.
  cbn [fold_left]. rewrite Hd.
  change (stripStep (fold_left stripStep c None) (FillRect 0 0 600 40 "#fff"))
    with (Some (@nil DrawCmd)).
  now rewrite (stripStep_texts l Hl).
Qed.

Lemma strip_ok_animate rx ry st : strip_ok st -> strip_ok (animate rx ry st).
Proof.
  intros H. destruct (isRunning st) eqn:R; [|now rewrite animate_stopped].
  right. rewrite (canvas_tick rx ry st R).
  apply stripShown_painted; [reflexivity|apply statsText_texts].
Qed.

Lemma strip_ok_reset st : strip_ok (reset st).
Proof.
  right. rewrite canvas_reset.
  rewrite (statsText_zero (reset st) eq_refl eq_refl).
  unfold stripShown. rewrite fold_left_app. reflexivity.
Qed.

Lemma strip_ok_eq st st' :
  canvas st' = canvas st -> total st' = total st -> inside st' = inside st ->
  strip_ok st -> strip_ok st'.
Proof.
  intros Hc Ht Hi. unfold strip_ok.
  now rewrite Hc, Ht, Hi, (statsText_counts st st' Ht Hi).
Qed.

Lemma strip_ok_step e st : strip_ok st -> strip_ok (step e st).
Proof.
  intros H. destruct e as [id rx ry|rx ry| |v]; unfold step.
  - destruct (pending id st); [|exact H].
    apply strip_ok_animate. exact H.
  - destruct (isRunning st) eqn:R.
    + apply (strip_ok_eq st);
        [apply canvas_pause|apply total_pause|apply inside_pause|exact H].
    + rewrite (resume_stopped rx ry st R). apply strip_ok_animate. exact H.
  - apply strip_ok_reset.
  - exact H.
Qed.

(** X2. From construction on and after every sequence of events, the
    statistics strip shows exactly the lines [drawStats] would write
    for the current counters: the display is never stale. The strip is
    unpainted only before the first sample, while both counters are 0. *)
Theorem X2_strip_shows_current_counters
        (autoStart : bool) (rx ry : float) (es : list Event) (st : State) :
  construct autoStart rx ry = Normal st ->
  (stripShown (canvas (run es st)) = None /\
   total (run es st) = 0%float /\ inside (run es st) = 0%float)
  \/ stripShown (canvas (run es st)) = Some (statsText (run es st)).
Proof.
  intros H. apply construct_cases in H.
  assert (H0 : strip_ok st).
  { subst st. destruct autoStart; [apply strip_ok_animate|];
      left; repeat split. }
  clear H. revert st H0.
  induction es as [|e es IH]; intros st H0; [exact H0|].
  apply (IH (step e st)), strip_ok_step, H0.
Qed.

Lemma X2_strip_shows_current_counters_witness :
  stripShown (canvas (run [TimerFires 1 0.25 0.75; ResetClick] started))
  = Some [FillText (TotalText 0) 50 20; FillText (InsideText 0) 50 38] /\
  strip_ok (run [TimerFires 1 0.25 0.75; ResetClick] started).
Proof.
  split; [vm_compute; reflexivity|].
  exact (X2_strip_shows_current_counters true 0.5 0.5
           [TimerFires 1 0.25 0.75; ResetClick] started construct_started).
Defined.

(** ** The pause button *)

Lemma label_animate rx ry st :
  pauseBtn (animate rx ry st) = pauseBtn st /\
  isRunning (animate rx ry st) = isRunning st.
Proof.
  unfold animate. destruct (isRunning st) eqn:R; cbn [negb]; [|now split].
  split; [reflexivity|exact R].
Qed.

Lemma label_ok_step e st : label_ok st -> label_ok (step e st).
Proof.
  unfold label_ok. intros H. destruct e as [id rx ry|rx ry| |v]; unfold step.
  - destruct (pending id st); [|exact H].
    destruct (label_animate rx ry (clearTimeout id st)) as [-> ->]. exact H.
  - destruct (isRunning st) eqn:R.
    + rewrite isRunning_pause. unfold pause; cbn.
      destruct (timeoutId st); reflexivity.
    + rewrite (resume_stopped rx ry st R).
      destruct (label_animate rx ry
                  (set_pauseBtn "Pause" (set_isRunning true st))) as [-> ->].
      reflexivity.
  - rewrite isRunning_reset. unfold reset, pause; cbn.
    destruct (timeoutId st); reflexivity.
  - exact H.
Qed.

(** X3. On the page as the script builds it ([new MonteCarloPi()], so
    [autoStart] true) the pause button always names what a click on it
    does: it reads "Pause" exactly while the loop runs and "Resume"
    exactly while it is stopped, after every sequence of events. *)
Theorem X3_button_label_tells_state
        (rx ry : float) (es : list Event) (st : State) :
  construct true rx ry = Normal st ->
  pauseBtn (run es st)
  = if isRunning (run es st) then "Pause"%string else "Resume"%string.
Proof.
  intros H. apply construct_cases in H.
  assert (H0 : label_ok st).
  { subst st. unfold label_ok.
    destruct (label_animate rx ry
                (set_isRunning true (drawBoard (fields 500 50)))) as [-> ->].
    reflexivity. }
  clear H. revert st H0.
  induction es as [|e es IH]; intros st H0; [exact H0|].
  apply (IH (step e st)), label_ok_step, H0.
Qed.

Lemma X3_button_label_tells_state_witness :
  pauseBtn (run [PauseClick 0.5 0.5; ResetClick] started) = "Resume"%string.
Proof.
  exact (X3_button_label_tells_state 0.5 0.5 [PauseClick 0.5 0.5; ResetClick]
           started construct_started).
Defined.

(** With [autoStart] false the button reads "Pause" on a stopped
    object, and the first click on it starts the loop. *)
Example label_without_autostart :
  exists st,
    construct false 0.5 0.5 = Normal st /\
    pauseBtn st = "Pause"%string /\ isRunning st = false /\
    isRunning (step (PauseClick 0.5 0.5) st) = true.
Proof. eexists. split; [reflexivity|]. repeat split. Qed.

(** ** The tick loop *)

(** X4. From construction on and after every sequence of events there
    is never more than one pending timer: while the object runs exactly
    one, the one [timeoutId] names, and while it is stopped none; so
    clicks on the buttons, in any order, never start a second loop and
    never leave a tick behind. *)
Theorem X4_at_most_one_pending_tick
        (autoStart : bool) (rx ry : float) (es : list Event) (st : State) :
  construct autoStart rx ry = Normal st ->
  (List.length (timers (run es st)) <= 1)%nat /\
  (isRunning (run es st) = true ->
   exists id d, timers (run es st) = [mkTimer id d] /\
                timeoutId (run es st) = Some id /\
                pending id (run es st) = true) /\
  (isRunning (run es st) = false -> timers (run es st) = []).
Proof.
  intros H. pose proof (one_loop_reachable autoStart rx ry es st H) as L.
  unfold one_loop in L. destruct (isRunning (run es st)).
  - destruct L as (id & d & Ht & Hid). rewrite Ht. split; [cbn; lia|].
    split; [|discriminate]. intros _. exists id, d.
    repeat split; try assumption.
    unfold pending. rewrite Ht. cbn. now rewrite Nat.eqb_refl.
  - rewrite L. split; [cbn; lia|]. split; [discriminate|reflexivity].
Qed.

Lemma X4_at_most_one_pending_tick_witness :
  (List.length (timers (run [PauseClick 0.5 0.5; PauseClick 0.5 0.5;
                             ResetClick; PauseClick 0.25 0.75] started))
   <= 1)%nat.
Proof.
  exact (proj1 (X4_at_most_one_pending_tick true 0.5 0.5
                  [PauseClick 0.5 0.5; PauseClick 0.5 0.5;
                   ResetClick; PauseClick 0.25 0.75] started
                  construct_started)).
Defined.

(** ** Pause and reset *)

Lemma filter_twice {A : Type} (f : A -> bool) (l : list A) :
  filter f (filter f l) = filter f l.
Proof.
  induction l as [|a l IH]; cbn; [reflexivity|].
  destruct (f a) eqn:E; cbn; [rewrite E; now f_equal|exact IH].
Qed.

Lemma pause_pause st : pause (pause st) = pause st.
Proof.
  destruct st as [a b c d e f [id|] h i j k l m n o p];
    cbv [pause clearTimeout set_pauseBtn set_timers set_isRunning
         squareSize offset radius centerX centerY isRunning timeoutId pauseBtn
         resetBtn slider sliderValue total inside canvas timers nextTimer];
    [now rewrite filter_twice|reflexivity].
Qed.

(** [pause] touches neither the counters nor the canvas, so it commutes
    with what [reset] does after it. *)
Lemma pause_set_counts a b st :
  pause (set_counts a b st) = set_counts a b (pause st).
Proof. unfold pause. cbn [timeoutId set_isRunning set_counts].
       destruct (timeoutId st); reflexivity. Qed.

Lemma pause_draw cs st : pause (draw cs st) = draw cs (pause st).
Proof. unfold pause. cbn [timeoutId set_isRunning draw set_canvas].
       destruct (timeoutId st); reflexivity. Qed.

Lemma pause_drawBoard st : pause (drawBoard st) = drawBoard (pause st).
Proof.
  unfold drawBoard. rewrite pause_draw.
  destruct (fields_pause st) as (-> & -> & -> & -> & ->). reflexivity.
Qed.

Lemma pause_drawStats st : pause (drawStats st) = drawStats (pause st).
Proof.
  unfold drawStats. rewrite pause_draw.
  now rewrite (statsText_counts st (pause st) (total_pause st) (inside_pause st)).
Qed.

(** X5. [pause] is idempotent on the whole state, and it changes
    nothing after a [reset]: pausing an object that is already paused,
    or that was just reset, leaves every field, the canvas and the
    timers as they are. *)
Theorem X5_pause_idempotent (st : State) :
  pause (pause st) = pause st /\ pause (reset st) = reset st.
Proof.
  split; [apply pause_pause|].
  unfold reset.
  now rewrite pause_drawStats, pause_drawBoard, pause_draw, pause_set_counts,
    pause_pause.
Qed.

(** ** The slider *)

Lemma timers_tick rx ry st :
  isRunning st = true ->
  timers (animate rx ry st) = timers st ++ [mkTimer (nextTimer st) (slider st)].
Proof. intros R. unfold animate. rewrite R. reflexivity. Qed.

Lemma slider_ok_step e st : slider_ok st -> slider_ok (step e st).
Proof.
  unfold slider_ok. intros H. destruct e as [id rx ry|rx ry| |v]; unfold step.
  - destruct (pending id st); [|exact H].
    unfold animate. destruct (isRunning (clearTimeout id st)); exact H.
  - destruct (isRunning st) eqn:R.
    + unfold pause; cbn. destruct (timeoutId st); exact H.
    + rewrite (resume_stopped rx ry st R). unfold animate.
      cbn [isRunning set_pauseBtn set_isRunning negb]. exact H.
  - unfold reset, pause; cbn. destruct (timeoutId st); exact H.
  - reflexivity.
Qed.

(** X6. The number shown beside the slider is the slider's value after
    every sequence of events, and a move of the slider takes effect at
    the next tick: the timer that tick schedules has the new value as
    its delay, and it is the only pending timer. *)
Theorem X6_slider_sets_next_delay
        (autoStart : bool) (rx ry : float) (es : list Event) (st : State)
        (v : Z) (id : nat) (rx' ry' : float) :
  construct autoStart rx ry = Normal st ->
  sliderValue (run es st) = slider (run es st) /\
  (pending id (run es st) = true ->
   timers (step (TimerFires id rx' ry') (step (SliderInput v) (run es st)))
   = [mkTimer (nextTimer (run es st)) v]).
Proof.
  intros H. split.
  - apply construct_cases in H.
    assert (H0 : slider_ok st).
    { subst st. destruct autoStart; [|reflexivity].
      unfold slider_ok, animate. cbn [isRunning set_isRunning negb]. reflexivity. }
    clear H. revert st H0.
    induction es as [|e es IH]; intros st H0; [exact H0|].
    apply (IH (step e st)), slider_ok_step, H0.
  - pose proof (one_loop_reachable autoStart rx ry es st H) as L.
    set (s := run es st) in *. intros P.
    unfold one_loop in L. destruct (isRunning s) eqn:R.
    + destruct L as (id0 & d & Ht & Hid).
      assert (E : id0 = id).
      { unfold pending in P. rewrite Ht in P. cbn in P.
        rewrite orb_false_r in P. now apply Nat.eqb_eq in P. }
      subst id0.
      change (step (SliderInput v) s) with (set_slider v v s).
      unfold step.
      change (pending id (set_slider v v s)) with (pending id s). rewrite P.
      rewrite timers_tick by exact R.
      cbn [timers clearTimeout set_timers set_slider nextTimer slider].
      rewrite Ht. cbn [filter timerId]. now rewrite Nat.eqb_refl.
    + unfold pending in P. rewrite L in P. discriminate P.
Qed.

Lemma X6_slider_sets_next_delay_witness :
  pending 1 (run [] started) = true /\
  timers (step (TimerFires 1 0.25 0.75) (step (SliderInput 40) (run [] started)))
  = [mkTimer (nextTimer (run [] started)) 40].
Proof.
  assert (P : pending 1 (run [] started) = true) by (vm_compute; reflexivity).
  split; [exact P|].
  exact (proj2 (X6_slider_sets_next_delay true 0.5 0.5 [] started 40 1
                  0.25 0.75 construct_started) P).
Defined.

(** After the slider is moved to 40 the next tick waits 40 ms. *)
Example slider_moved_to_40 :
  timers (step (TimerFires 1 0.25 0.75) (step (SliderInput 40) started))
  = [mkTimer 2 40].
Proof. vm_compute. reflexivity. Qed.

(** ** Reset and start again *)

(** What [resume] sets before it calls [animate] touches neither the
    canvas nor the geometry. *)
Lemma canvas_restart st :
  canvas (set_pauseBtn "Pause" (set_isRunning true st)) = canvas st.
Proof. reflexivity. Qed.

Lemma geometry_restart st :
  geometry (set_pauseBtn "Pause" (set_isRunning true st)) = geometry st.
Proof. reflexivity. Qed.

Lemma counts_restart st :
  total (set_pauseBtn "Pause" (set_isRunning true st)) = total st /\
  inside (set_pauseBtn "Pause" (set_isRunning true st)) = inside st.
Proof. split; reflexivity. Qed.

(** X7. After a reset, whatever the state before it, the next click on
    the pause button starts a fresh run: the loop is running, the
    canvas shows exactly one dot, [total] is 1 and [inside] is 1 or 0
    as that one sample was classified. *)
Theorem X7_reset_then_resume_restarts (st : State) (rx ry : float) :
  let s := step (PauseClick rx ry) (step ResetClick st) in
  let isIn := isInside st (coordinate st rx) (coordinate st ry) in
  isRunning s = true /\
  total s = 1%float /\
  inside s = (if isIn then 1 else 0)%float /\
  dotsDrawn (canvas s) = (1, if isIn then 1 else 0).
Proof.
  intros s isIn. subst s.
  change (step ResetClick st) with (reset st).
  unfold step. rewrite isRunning_reset.
  rewrite (resume_stopped rx ry _ (isRunning_reset st)).
  pose proof (canvas_restart (reset st)) as Hc.
  pose proof (geometry_restart (reset st)) as Hg.
  rewrite geometry_reset in Hg.
  destruct (counts_restart (reset st)) as [Ht0 Hi0].
  rewrite total_reset in Ht0. rewrite inside_reset in Hi0.
  assert (R : isRunning (set_pauseBtn "Pause" (set_isRunning true (reset st)))
              = true) by reflexivity.
  set (s0 := set_pauseBtn "Pause" (set_isRunning true (reset st))) in *.
  clearbody s0.
  assert (Hin : isInside s0 (coordinate s0 rx) (coordinate s0 ry) = isIn).
  { subst isIn. unfold geometry in Hg. injection Hg as Hs Ho Hr Hx Hy.
    unfold isInside, coordinate. now rewrite Hs, Ho, Hr, Hx, Hy. }
  destruct (animate_running rx ry s0 R) as (Ht & Hi & Hr).
  rewrite Hin in Ht, Hi.
  split; [exact Hr|]. split; [|split].
  - rewrite Ht, total_record, Ht0. reflexivity.
  - rewrite Hi, inside_record, Hi0. destruct isIn; reflexivity.
  - rewrite (canvas_tick rx ry s0 R), Hin.
    rewrite Hc, canvas_reset.
    unfold dotsDrawn. rewrite !fold_left_app. cbn [fold_left].
    rewrite (countDot_texts _ (statsText_texts _)).
    change (countDot (fold_left countDot (canvas st) (0, 0))
                     (ClearRect 0 0 600 600)) with (0, 0).
    destruct isIn; reflexivity.
Qed.

(** ** The earlier revision *)

Lemma PiJs_construct_cases autoStart rx ry st :
  PiJs.construct autoStart rx ry = Normal st ->
  st = if autoStart
       then PiJs.animate rx ry (drawBoard (fields 500 50))
       else drawBoard (fields 500 50).
Proof. unfold PiJs.construct. destruct autoStart; now intros [= <-]. Qed.

Lemma PiJs_timers_tick rx ry st :
  timers (PiJs.animate rx ry st)
  = timers st ++ [mkTimer (nextTimer st) (slider st)].
Proof. reflexivity. Qed.

Lemma dots_ok_PiJs_animate rx ry st :
  dots_ok st -> dots_ok (PiJs.animate rx ry st).
Proof.
  intros H. destruct (PiJs_animate_records rx ry st) as (Ht & Hi).
  exact (dots_ok_tick st _ _ _ _ _ H (canvas_PiJs_tick rx ry st) Ht Hi).
Qed.

Lemma PiJs_ok_step autoStart c0 e st :
  PiJs_ok autoStart c0 st -> PiJs_ok autoStart c0 (PiJsLoop.step e st).
Proof.
  intros [HT HD]. destruct e as [id rx ry|v]; unfold PiJsLoop.step.
  - unfold pending. destruct autoStart.
    + destruct HT as (id0 & d & Ht). rewrite Ht. cbn [existsb timerId].
      destruct (Nat.eqb id0 id) eqn:E; cbn [orb].
      * split; [|apply dots_ok_PiJs_animate; exact HD].
        rewrite PiJs_timers_tick.
        cbn [timers clearTimeout set_timers]. rewrite Ht.
        cbn [filter timerId]. rewrite E. cbn [negb app]. eauto.
      * split; [eauto|exact HD].
    + destruct HT as (Ht & Hc & Hz). rewrite Ht. cbn [existsb].
      split; [now repeat split|exact HD].
  - split; [exact HT|exact HD].
Qed.

Lemma PiJs_ok_run autoStart c0 es :
  forall st, PiJs_ok autoStart c0 st -> PiJs_ok autoStart c0 (PiJsLoop.run es st).
Proof.
  induction es as [|e es IH]; intros st H0; [exact H0|].
  apply (IH (PiJsLoop.step e st)), PiJs_ok_step, H0.
Qed.

(** X8. In [src/pi.js] the loop cannot be stopped and cannot double:
    started by the constructor it has exactly one pending timer after
    every sequence of timer firings and slider moves, and its counters
    are the numbers of dots drawn; with [autoStart] false no timer is
    ever set and nothing is ever sampled or drawn. *)
Theorem X8_earlier_revision_loop
        (autoStart : bool) (rx ry : float) (es : list PiJsLoop.Event)
        (st : State) :
  PiJs.construct autoStart rx ry = Normal st ->
  List.length (timers (PiJsLoop.run es st)) = (if autoStart then 1 else 0)%nat /\
  dots_ok (PiJsLoop.run es st) /\
  (autoStart = false ->
   total (PiJsLoop.run es st) = 0%float /\
   canvas (PiJsLoop.run es st) = canvas st).
Proof.
  intros H. apply PiJs_construct_cases in H.
  assert (H0 : PiJs_ok autoStart (canvas st) st).
  { subst st. destruct autoStart.
    - split; [|apply dots_ok_PiJs_animate, dots_ok_fresh].
      rewrite PiJs_timers_tick. cbn. eauto.
    - split; [now repeat split|exact dots_ok_fresh]. }
  clear H.
  pose proof (PiJs_ok_run autoStart (canvas st) es st H0) as HR.
  destruct HR as [HT HD]. destruct autoStart.
  - destruct HT as (id & d & ->). split; [reflexivity|].
    split; [exact HD|discriminate].
  - destruct HT as (-> & Hc & Hz). split; [reflexivity|].
    split; [exact HD|]. intros _. now split.
Qed.

Lemma X8_earlier_revision_loop_witness :
  List.length (timers (PiJsLoop.run
                         [PiJsLoop.TimerFires 1 0.25 0.75;
                          PiJsLoop.SliderInput 0;
                          PiJsLoop.TimerFires 2 0.5 0.5]
                         (PiJs.animate 0.5 0.5 (drawBoard (fields 500 50)))))
  = 1%nat.
Proof.
  exact (proj1 (X8_earlier_revision_loop true 0.5 0.5
                  [PiJsLoop.TimerFires 1 0.25 0.75; PiJsLoop.SliderInput 0;
                   PiJsLoop.TimerFires 2 0.5 0.5]
                  (PiJs.animate 0.5 0.5 (drawBoard (fields 500 50)))
                  eq_refl)).
Defined.

(** ** The dots on the canvas *)

(** The classifier reads the geometry only. *)
Lemma isInside_geometry st st' x y :
  geometry st' = geometry st -> isInside st' x y = isInside st x y.
Proof.
  unfold geometry, isInside. intros G. injection G as _ _ Hr Hx Hy.
  now rewrite Hr, Hx, Hy.
Qed.

Lemma dot_ok_geometry st st' cmd :
  geometry st' = geometry st -> dot_ok st cmd -> dot_ok st' cmd.
Proof.
  intros G. destruct cmd; cbn [dot_ok]; try exact id.
  now rewrite (isInside_geometry st st' _ _ G).
Qed.

Lemma dots_geometry st st' c :
  geometry st' = geometry st -> Forall (dot_ok st) c -> Forall (dot_ok st') c.
Proof.
  intros G H. eapply Forall_impl; [|exact H].
  intros cmd. now apply dot_ok_geometry.
Qed.

(** The lines of the strip are no dots. *)
Lemma dots_statsText st st' : Forall (dot_ok st) (statsText st').
Proof.
  eapply Forall_impl; [|apply statsText_texts].
  intros cmd (t & x & y & ->). exact I.
Qed.

(** A tick on the geometry of the class with two random values draws a
    dot that is as it should be, and keeps those that are. *)
Lemma dots_animate rx ry st :
  geometry st = (500, 50, 250, 300, 300)%float ->
  isRandom rx = true -> isRandom ry = true ->
  Forall (dot_ok st) (canvas st) ->
  Forall (dot_ok st) (canvas (animate rx ry st)).
Proof.
  intros G Hx Hy H.
  destruct (isRunning st) eqn:R; [|now rewrite animate_stopped].
  rewrite (canvas_tick rx ry st R). cbv zeta.
  apply Forall_app. split; [exact H|].
  apply andb_true_iff in Hx as [Hx0 Hx1]. apply andb_true_iff in Hy as [Hy0 Hy1].
  destruct (sample_in_square st rx ry G Hx0 Hx1 Hy0 Hy1) as [Sx Sy].
  constructor; [|constructor; [exact I|apply dots_statsText]].
  cbn [dot_ok]. repeat split; try apply Sx; try apply Sy.
Qed.

Lemma dots_reset st :
  Forall (dot_ok st) (canvas st) -> Forall (dot_ok st) (canvas (reset st)).
Proof.
  intros H. rewrite canvas_reset. apply Forall_app. split; [exact H|].
  repeat constructor.
Qed.

Lemma dots_step e st :
  geometry st = (500, 50, 250, 300, 300)%float ->
  randoms_ok e = true ->
  Forall (dot_ok st) (canvas st) ->
  Forall (dot_ok st) (canvas (step e st)).
Proof.
  intros G He H. destruct e as [id rx ry|rx ry| |v]; cbn [step randoms_ok] in *.
  - apply andb_true_iff in He as [Hx Hy].
    destruct (pending id st); [|exact H].
    apply (dots_animate rx ry (clearTimeout id st)); assumption.
  - apply andb_true_iff in He as [Hx Hy].
    destruct (isRunning st) eqn:R.
    + now rewrite canvas_pause.
    + unfold resume. rewrite R. cbn [negb].
      apply (dots_animate rx ry
               (set_pauseBtn "Pause" (set_isRunning true st))); assumption.
  - now apply dots_reset.
  - exact H.
Qed.

Lemma dots_run es :
  forall st,
    geometry st = (500, 50, 250, 300, 300)%float ->
    forallb randoms_ok es = true ->
    Forall (dot_ok st) (canvas st) ->
    Forall (dot_ok st) (canvas (run es st)).
Proof.
  induction es as [|e es IH]; intros st G He H; [exact H|].
  cbn [forallb] in He. apply andb_true_iff in He as [He Hes].
  change (run (e :: es) st) with (run es (step e st)).
  apply (dots_geometry (step e st) st); [symmetry; apply geometry_step|].
  apply IH; [now rewrite geometry_step|exact Hes|].
  apply (dots_geometry st (step e st)); [apply geometry_step|].
  now apply dots_step.
Qed.

(** X9. Whenever [Math.random()] returns values of [[0, 1)], every dot
    on the canvas, from construction on and after every sequence of
    events, has radius 4 and its centre in the closed square
    [[50, 550] x [50, 550]], and is green exactly when the classifier
    puts its centre inside the circle and red otherwise. *)
Theorem X9_dots_in_square_and_coloured
        (autoStart : bool) (rx ry : float) (es : list Event) (st : State) :
  construct autoStart rx ry = Normal st ->
  isRandom rx = true -> isRandom ry = true ->
  forallb randoms_ok es = true ->
  Forall (dot_ok (run es st)) (canvas (run es st)).
Proof.
  intros H Hx Hy Hes. apply construct_cases in H.
  assert (G0 : geometry (drawBoard (fields 500 50))
               = (500, 50, 250, 300, 300)%float) by (vm_compute; reflexivity).
  assert (D0 : Forall (dot_ok (drawBoard (fields 500 50)))
                      (canvas (drawBoard (fields 500 50)))).
  { rewrite canvas_drawBoard. repeat constructor. }
  assert (G : geometry st = (500, 50, 250, 300, 300)%float).
  { subst st. destruct autoStart; [rewrite geometry_animate|]; exact G0. }
  assert (D : Forall (dot_ok st) (canvas st)).
  { subst st. destruct autoStart; [|exact D0].
    apply (dots_geometry (set_isRunning true (drawBoard (fields 500 50))));
      [apply geometry_animate|].
    apply dots_animate; assumption. }
  apply (dots_geometry st); [apply geometry_run|].
  now apply dots_run.
Qed.

Lemma X9_dots_in_square_and_coloured_witness :
  Forall (dot_ok (run [TimerFires 1 0.25 0.75; ResetClick; PauseClick 0.875 0.125]
                      started))
         (canvas (run [TimerFires 1 0.25 0.75; ResetClick; PauseClick 0.875 0.125]
                      started)).
Proof.
  exact (X9_dots_in_square_and_coloured true 0.5 0.5
           [TimerFires 1 0.25 0.75; ResetClick; PauseClick 0.875 0.125] started
           construct_started eq_refl eq_refl eq_refl).
Defined.

(** The dot of that last click is red: (487.5, 112.5) is outside. *)
Example last_dot_red :
  In (FillArc 487.5 112.5 4 "red")
     (canvas (run [TimerFires 1 0.25 0.75; ResetClick; PauseClick 0.875 0.125]
                  started)).
Proof. vm_compute. tauto. Qed.

(** ** Quotients and square roots in binary64 *)

(** *** Shifting from an inexact position *)

Lemma located_step m0 l : 0 <= m0 -> iter_inv shr_1 (located m0 l).
Proof.
  intros Hm0 k [m r s] Hk (Hq & Hrem); cbn [shr_m shr_r shr_s] in Hq, Hrem.
  assert (Hp : 0 < 2 ^ k) by (apply Z.pow_pos_nonneg; lia).
  assert (Hm : 0 <= m) by (subst m; apply Z.div_pos; lia).
  rewrite shr_1_nonneg by exact Hm. unfold located; cbn [shr_m shr_r shr_s].
  rewrite (Z.pow_add_r 2 k 1), Z.pow_1_r by lia.
  rewrite Z.rem_mul_r by lia. rewrite <- Hq.
  pose proof (Z.mod_pos_bound m0 (2 ^ k) Hp) as Hb.
  pose proof (Z.mod_pos_bound m 2 ltac:(lia)) as Hb2.
  split.
  - subst m. rewrite Z.div_div by lia. reflexivity.
  - rewrite orb_false_iff, Hrem.
    rewrite <- Z.negb_even, negb_false_iff, Z.even_spec.
    split.
    + intros [Hev [Hz Hl]]. apply Z.even_spec in Hev. rewrite Zeven_mod in Hev.
      apply Z.eqb_eq in Hev. rewrite Hev, Hz. split; [lia|exact Hl].
    + intros [Hsum Hl].
      assert (m0 mod 2 ^ k = 0 /\ m mod 2 = 0) as [Hz Hev] by nia.
      split; [|split; assumption]. apply Z.even_spec. rewrite Zeven_mod.
      now apply Z.eqb_eq.
Qed.

Lemma located_0 (m : Z) (l : location) : located m l 0 (shr_record_of_loc m l).
Proof.
  unfold located. rewrite Z.div_1_r, Z.mod_1_r.
  destruct l as [|[ | | ]]; cbn [shr_record_of_loc shr_m shr_r shr_s orb];
    (split; [reflexivity|]); split; try discriminate; try (now intros [_ H]);
    now split.
Qed.

Lemma shr_loc_spec (m : Z) (l : location) (e n : Z) :
  0 <= m ->
  let k := Z.max n 0 in
  let '(mrs, e') := shr (shr_record_of_loc m l) e n in
  e' = e + k /\ located m l k mrs.
Proof.
  intros Hm k. unfold shr.
  destruct n as [|p|p]; subst k; cbn [Z.max].
  - split; [lia|apply located_0].
  - rewrite Z.max_l by lia. split; [reflexivity|].
    apply (iter_pos_inv shr_1 (located m l) (located_step m l Hm) p 0); [lia|].
    apply located_0.
  - rewrite Z.max_r by lia. split; [lia|apply located_0].
Qed.

(** The rounded mantissa is the quotient or the quotient plus one, and
    the quotient when the exact result is on it. *)
Lemma round_loc_between (m : Z) (l : location) (k : Z) (mrs : shr_record) :
  located m l k mrs ->
  let m1 := round_nearest_even (shr_m mrs) (loc_of_shr_record mrs) in
  m / 2 ^ k <= m1 <= m / 2 ^ k + 1 /\
  (m mod 2 ^ k = 0 -> l = loc_Exact -> m1 = m / 2 ^ k).
Proof.
  destruct mrs as [q r s]. unfold located; cbn [shr_m shr_r shr_s].
  intros (<- & Hrem).
  destruct r, s; cbn [round_nearest_even loc_of_shr_record];
    try destruct (Z.even q);
    (split; [lia|]); intros Hz Hl; try reflexivity;
    pose proof (proj2 Hrem (conj Hz Hl)) as Hc; discriminate Hc.
Qed.

(** *** Rounding from an inexact position *)

(** [binary_round_aux] on a mantissa [m] at the position [l] rounds an
    exact result that is [m * 2^e] or lies strictly between it and
    [(m + 1) * 2^e]. Two numbers [LO] and [HI] of the format (multiples
    of a unit [2^G] that the result cannot be finer than) that enclose
    the exact result enclose the rounded one. *)
Lemma round_aux_loc_bounds (m : Z) (l : location) (e N G LO HI : Z) :
  0 <= m -> - bias <= e <= G -> fexp prec emax N <= G -> G <= emax - prec ->
  (2 ^ (G + bias) | LO) -> (2 ^ (G + bias) | HI) ->
  HI < 2 ^ (N + bias) ->
  LO <= scaled m e -> scaled (m + inexact l) e <= HI ->
  let z := binary_round_aux prec emax false m e l in
  nonneg_finite z /\ LO <= value z <= HI.
Proof.
  intros Hm He HN HG HLO HHI Hlt Hv Hv' z. subst z.
  assert (Hu : 0 < 2 ^ (e + bias)) by (apply pow2_pos; lia).
  assert (Hl : 0 <= inexact l) by (destruct l; cbn; lia).
  assert (Hlt' : scaled m e < 2 ^ (N + bias)).
  { unfold scaled in *. nia. }
  unfold binary_round_aux, shr_fexp.
  (* the first shift, to the exponent of the format *)
  set (n := fexp prec emax (Zdigits2 m + e) - e).
  pose proof (shr_loc_spec m l e n Hm) as S1.
  destruct (shr (shr_record_of_loc m l) e n) as [mrs1 e1].
  cbv zeta in S1. destruct S1 as [He1 Hsh1].
  pose proof (round_loc_between _ _ _ _ Hsh1) as R1. cbv zeta in R1.
  set (m1 := round_nearest_even (shr_m mrs1) (loc_of_shr_record mrs1)) in *.
  destruct R1 as ([Hq1 Hq1'] & Hex1).
  set (k := Z.max n 0) in *.
  assert (Hk : 0 <= k) by lia.
  assert (He1G : e1 <= G).
  { pose proof (fexp_ge_emin N).
    destruct m as [|p|p]; [| |lia].
    - subst e1 k n. cbn [Zdigits2].
      unfold fexp, SpecFloat.emin, prec, emax in *. lia.
    - assert (Hd : Zpos (digits2_pos p) + e <= N) by (apply digits_scaled; lia).
      subst e1 k n. cbn [Zdigits2]. pose proof (fexp_mono _ _ Hd). lia. }
  destruct (on_grid (e1 + bias) (G + bias) LO ltac:(lia) HLO) as [a Ha].
  destruct (on_grid (e1 + bias) (G + bias) HI ltac:(lia) HHI) as [b Hb].
  assert (Hg : 0 < 2 ^ k) by (apply pow2_pos; lia).
  pose proof (grid_step e e1 k ltac:(lia) Hk He1) as Hpow.
  unfold scaled in Hv, Hv'.
  assert (Hm1lo : a <= m1).
  { apply (floor_ge (m) (2 ^ k)); [lia| |lia].
    apply (Z.mul_le_mono_pos_r _ _ (2 ^ (e + bias)) Hu).
    rewrite <- Z.mul_assoc, <- Hpow, <- Ha. lia. }
  assert (Hup : m + inexact l <= b * 2 ^ k).
  { apply (Z.mul_le_mono_pos_r _ _ (2 ^ (e + bias)) Hu).
    rewrite <- Z.mul_assoc, <- Hpow, <- Hb. exact Hv'. }
  assert (Hm1hi : m1 <= b).
  { pose proof (Z.div_mod (m) (2 ^ k) ltac:(lia)) as Hdm.
    pose proof (Z.mod_pos_bound (m) (2 ^ k) Hg) as Hmb.
    destruct (Z.eq_dec (m mod 2 ^ k) 0) as [Hz|Hnz].
    - destruct l as [|c].
      + rewrite (Hex1 Hz eq_refl). nia.
      + cbn [inexact] in Hup. assert (m / 2 ^ k < b) by nia. lia.
    - assert (m / 2 ^ k < b) by nia. lia. }
  assert (Hm1 : 0 <= m1).
  { pose proof (Z.div_pos (m) (2 ^ k) ltac:(lia) Hg). lia. }
  assert (Hu1 : 0 < 2 ^ (e1 + bias)) by (apply pow2_pos; lia).
  (* the second shift, after a carry *)
  set (n2 := fexp prec emax (Zdigits2 m1 + e1) - e1).
  pose proof (shr_exact_spec m1 e1 n2 Hm1) as S2.
  destruct (shr (shr_record_of_loc m1 loc_Exact) e1 n2) as [mrs2 e2].
  cbv zeta in S2. destruct S2 as [He2 [Hq2 _]].
  set (k2 := Z.max n2 0) in *.
  assert (Hk2 : 0 <= k2) by lia.
  assert (He2G : e2 <= G).
  { pose proof (fexp_ge_emin N).
    destruct m1 as [|p1|p1]; [| |lia].
    - subst e2 k2 n2. cbn [Zdigits2].
      unfold fexp, SpecFloat.emin, prec, emax in *. lia.
    - assert (Hd1 : Zpos (digits2_pos p1) + e1 <= N).
      { apply digits_scaled; [lia|]. unfold scaled. nia. }
      subst e2 k2 n2. cbn [Zdigits2]. pose proof (fexp_mono _ _ Hd1). lia. }
  destruct (on_grid (e2 + bias) (G + bias) LO ltac:(lia) HLO) as [a2 Ha2].
  assert (Hg2 : 0 < 2 ^ k2) by (apply pow2_pos; lia).
  pose proof (grid_step e1 e2 k2 ltac:(lia) Hk2 He2) as Hpow2.
  rewrite Hq2.
  assert (Hm2lo : a2 <= m1 / 2 ^ k2).
  { apply Z.div_le_lower_bound; [exact Hg2|].
    apply (Z.mul_le_mono_pos_r _ _ (2 ^ (e1 + bias)) Hu1).
    rewrite (Z.mul_comm (2 ^ k2) a2), <- Z.mul_assoc, <- Hpow2, <- Ha2. nia. }
  assert (Hm2hi : m1 / 2 ^ k2 * 2 ^ (e2 + bias) <= HI).
  { pose proof (Z.mul_div_le m1 (2 ^ k2) Hg2). rewrite Hpow2. nia. }
  assert (Hm2 : 0 <= m1 / 2 ^ k2) by (apply Z.div_pos; lia).
  assert (Hu2 : 0 < 2 ^ (e2 + bias)) by (apply pow2_pos; lia).
  destruct (m1 / 2 ^ k2) as [|p2|p2] eqn:Em2; [| |lia].
  - cbn. split; [exact I|]. nia.
  - destruct (Z.leb_spec e2 (emax - prec)) as [_|Hov]; [|lia].
    cbn [nonneg_finite value]. unfold scaled.
    split; [lia|]. split; [|exact Hm2hi]. rewrite Ha2. nia.
Qed.

(** *** The quotient of two positive numbers *)

(** The mantissa that division and square root shift left by [s]
    bits. *)
Lemma shifted_left (m s : Z) :
  0 <= s ->
  match s with
  | 0 => m
  | Zpos _ => Z.shiftl m s
  | Zneg _ => 0
  end = m * 2 ^ s.
Proof.
  intros Hs. destruct s as [|p|p]; [cbn; lia| |lia].
  apply Z.shiftl_mul_pow2. lia.
Qed.

(** The position of a quotient is exact when the remainder is 0. *)
Lemma inexact_new_location (n r : Z) :
  inexact (new_location n r) = if r =? 0 then 0 else 1.
Proof.
  unfold new_location, new_location_even, new_location_odd.
  destruct (Z.even n), (r =? 0); reflexivity.
Qed.

(** The exponent of a quotient that is below [2^N]. *)
Lemma quotient_exponent (mx : positive) (ex : Z) (my : positive) (ey N HI : Z) :
  - bias <= ex -> - bias <= ey -> 0 < HI < 2 ^ (N + bias) ->
  scaled (Zpos mx) ex * 2 ^ bias <= HI * scaled (Zpos my) ey ->
  Zpos (digits2_pos mx) + ex - (Zpos (digits2_pos my) + ey) <= N.
Proof.
  intros Hex Hey HHI H. unfold scaled in H.
  pose proof (digits2_pos_bounds mx) as [Hlo _].
  pose proof (digits2_pos_bounds my) as [_ Hhi].
  set (d1 := Zpos (digits2_pos mx)) in *. set (d2 := Zpos (digits2_pos my)) in *.
  assert (Hd1 : 0 < d1) by (subst d1; lia).
  assert (Hd2 : 0 < d2) by (subst d2; lia).
  assert (HN : 0 <= N + bias).
  { destruct (Z.le_gt_cases 0 (N + bias)); [assumption|].
    rewrite Z.pow_neg_r in HHI by lia. lia. }
  assert (Hb : 0 < 2 ^ bias) by (apply pow2_pos; unfold bias; lia).
  assert (Hux : 0 < 2 ^ (ex + bias)) by (apply pow2_pos; lia).
  assert (Huy : 0 < 2 ^ (ey + bias)) by (apply pow2_pos; lia).
  assert (L : 2 ^ ((d1 - 1) + (ex + bias) + bias)
              < 2 ^ ((N + bias) + d2 + (ey + bias))).
  { assert (0 <= bias) by (unfold bias; lia).
    rewrite (Z.pow_add_r 2 (d1 - 1 + (ex + bias)) bias) by lia.
    rewrite (Z.pow_add_r 2 (d1 - 1) (ex + bias)) by lia.
    rewrite (Z.pow_add_r 2 (N + bias + d2) (ey + bias)) by lia.
    rewrite (Z.pow_add_r 2 (N + bias) d2) by lia.
    assert (Hp : 0 < 2 ^ (d1 - 1)) by (apply pow2_pos; lia).
    assert (Hy : 0 < Zpos my * 2 ^ (ey + bias)) by lia.
    assert (L1 : 2 ^ (d1 - 1) * 2 ^ (ex + bias) * 2 ^ bias
                 <= Zpos mx * 2 ^ (ex + bias) * 2 ^ bias).
    { apply Z.mul_le_mono_nonneg_r; [lia|].
      apply Z.mul_le_mono_nonneg_r; lia. }
    assert (L2 : HI * (Zpos my * 2 ^ (ey + bias))
                 < 2 ^ (N + bias) * (Zpos my * 2 ^ (ey + bias))).
    { apply Z.mul_lt_mono_pos_r; lia. }
    assert (L3 : 2 ^ (N + bias) * (Zpos my * 2 ^ (ey + bias))
                 <= 2 ^ (N + bias) * (2 ^ d2 * 2 ^ (ey + bias))).
    { apply Z.mul_le_mono_nonneg_l; [lia|].
      apply Z.mul_le_mono_nonneg_r; lia. }
    rewrite <- (Z.mul_assoc (2 ^ (N + bias))). lia. }
  apply Z.pow_lt_mono_r_iff in L; lia.
Qed.

(** The quotient of two positive numbers is their exact quotient,
    rounded: two numbers of the format that enclose the exact quotient
    [x / y] (stated on the products: [LO * y <= x <= HI * y]) enclose
    the result. *)
Lemma SFdiv_bounds (mx : positive) (ex : Z) (my : positive) (ey : Z)
      (N G LO HI : Z) :
  - bias <= ex -> - bias <= ey -> - bias <= ex - ey ->
  fexp prec emax N <= G -> G <= emax - prec ->
  (2 ^ (G + bias) | LO) -> (2 ^ (G + bias) | HI) ->
  0 <= LO -> HI < 2 ^ (N + bias) ->
  LO * scaled (Zpos my) ey <= scaled (Zpos mx) ex * 2 ^ bias
  <= HI * scaled (Zpos my) ey ->
  let z := SF64div (S754_finite false mx ex) (S754_finite false my ey) in
  nonneg_finite z /\ LO <= value z <= HI.
Proof.
  intros Hex Hey Hexy HN HG HLO HHI HLO0 Hlt [Hlo Hhi] z. subst z.
  assert (Hux : 0 < 2 ^ (ex + bias)) by (apply pow2_pos; lia).
  assert (Huy : 0 < 2 ^ (ey + bias)) by (apply pow2_pos; lia).
  assert (Hb : 0 < 2 ^ bias) by (apply pow2_pos; unfold bias; lia).
  assert (HHI0 : 0 < HI).
  { unfold scaled in *.
    destruct (Z.le_gt_cases HI 0); [|assumption]. exfalso. nia. }
  pose proof (quotient_exponent mx ex my ey N HI Hex Hey (conj HHI0 Hlt) Hhi) as Hd.
  unfold SF64div, SFdiv, SFdiv_core_binary. cbn [xorb Zdigits2].
  set (e' := Z.min (fexp prec emax (Zpos (digits2_pos mx) + ex
                                    - (Zpos (digits2_pos my) + ey)))
                   (ex - ey)).
  set (s := ex - ey - e').
  assert (He'G : e' <= G).
  { pose proof (fexp_mono _ _ Hd). subst e'. lia. }
  assert (He' : - bias <= e').
  { pose proof (fexp_ge_emin (Zpos (digits2_pos mx) + ex
                              - (Zpos (digits2_pos my) + ey))).
    subst e'. unfold bias in *. lia. }
  assert (Hs : 0 <= s) by (subst s e'; lia).
  rewrite (shifted_left (Zpos mx) s Hs).
  set (m' := Zpos mx * 2 ^ s).
  pose proof (Z.div_eucl_eq m' (Zpos my) ltac:(lia)) as Hdm.
  pose proof (Z.mod_pos_bound m' (Zpos my) ltac:(lia)) as Hr.
  unfold Z.modulo in Hr.
  destruct (Z.div_eucl m' (Zpos my)) as [q r].
  assert (Hu : 0 < 2 ^ (e' + bias)) by (apply pow2_pos; lia).
  assert (Hs2 : 0 < 2 ^ s) by (apply pow2_pos; lia).
  (* the exact quotient is [m' / my] units of [2^e'] *)
  assert (Hx : scaled (Zpos mx) ex * 2 ^ bias
               = m' * 2 ^ (e' + bias) * 2 ^ (ey + bias)).
  { assert (E : 2 ^ (ex + bias) * 2 ^ bias
                = 2 ^ s * 2 ^ (e' + bias) * 2 ^ (ey + bias)).
    { rewrite <- (Z.pow_add_r 2 (ex + bias) bias) by (unfold bias in *; lia).
      rewrite <- (Z.pow_add_r 2 s (e' + bias)) by lia.
      rewrite <- (Z.pow_add_r 2 (s + (e' + bias)) (ey + bias)) by lia.
      f_equal. subst s. lia. }
    unfold scaled. subst m'. rewrite <- !Z.mul_assoc.
    rewrite E. ring. }
  rewrite Hx in Hlo, Hhi. unfold scaled in Hlo, Hhi.
  destruct (on_grid (e' + bias) (G + bias) LO ltac:(lia) HLO) as [a Ha].
  destruct (on_grid (e' + bias) (G + bias) HI ltac:(lia) HHI) as [b Hb'].
  assert (Ha0 : 0 <= a) by nia.
  assert (Hlo' : a * Zpos my <= m').
  { apply (Z.mul_le_mono_pos_r _ _ (2 ^ (e' + bias) * 2 ^ (ey + bias)));
      [nia|]. rewrite Ha in Hlo. nia. }
  assert (Hhi' : m' <= b * Zpos my).
  { apply (Z.mul_le_mono_pos_r _ _ (2 ^ (e' + bias) * 2 ^ (ey + bias)));
      [nia|]. rewrite Hb' in Hhi. nia. }
  assert (Hq : a <= q) by nia.
  apply (round_aux_loc_bounds q _ e' N G LO HI); try assumption; [lia|lia| |].
  - unfold scaled. rewrite Ha. nia.
  - unfold scaled. rewrite inexact_new_location, Hb'.
    apply Z.mul_le_mono_nonneg_r; [lia|].
    destruct (Z.eqb_spec r 0) as [->|Hnz]; nia.
Qed.

(** A number of the format that is at most [2^K] has an exponent of
    at most [K - 52]. *)
Lemma exponent_le (m : positive) (e K : Z) :
  canonical_mantissa prec emax m e = true -> - 1022 <= K ->
  scaled (Zpos m) e <= 2 ^ (K + bias) -> e <= K - 52.
Proof.
  intros C HK H. destruct (canonical_bounds m e C) as (Hemin & Hm & Hnormal).
  destruct (Z.le_gt_cases e (K - 52)) as [|Hgt]; [assumption|exfalso].
  specialize (Hnormal ltac:(lia)). unfold scaled in H.
  assert (Hu : 0 < 2 ^ (K - 52 + bias)) by (apply pow2_pos; unfold bias; lia).
  assert (Hp : 2 * 2 ^ (K - 52 + bias) <= 2 ^ (e + bias)).
  { rewrite <- Z.pow_succ_r by (unfold bias; lia).
    apply Z.pow_le_mono_r; lia. }
  assert (E : 2 ^ (K + bias) = 2 ^ 52 * 2 ^ (K - 52 + bias)).
  { rewrite <- Z.pow_add_r by (unfold bias; lia). f_equal. lia. }
  nia.
Qed.

(** Dividing a positive number by a counter that holds [t]: the
    bounds of the exact quotient, on the products. *)
Lemma div_by_count (x : float) (t N G LO HI : Z) :
  nonneg_finite (Prim2SF x) -> 0 < value (Prim2SF x) ->
  1 <= t <= 2 ^ 53 ->
  fexp prec emax N <= G -> G <= emax - prec ->
  (2 ^ (G + bias) | LO) -> (2 ^ (G + bias) | HI) ->
  0 <= LO -> HI < 2 ^ (N + bias) ->
  LO * t <= value (Prim2SF x) <= HI * t ->
  nonneg_finite (Prim2SF (x / toNumber t)) /\
  LO <= value (Prim2SF (x / toNumber t)) <= HI.
Proof.
  intros Nx Vx Ht HN HG HLO HHI HLO0 Hlt Hv.
  destruct (toNumber_value_upto t ltac:(lia)) as [Nt Vt].
  pose proof (Prim2SF_valid x) as Wx.
  pose proof (Prim2SF_valid (toNumber t)) as Wt.
  rewrite div_spec.
  assert (Hb : 0 < 2 ^ bias) by (apply pow2_pos; unfold bias; lia).
  destruct (Prim2SF x) as [sx|sx| |sx mx ex];
    cbn [nonneg_finite value] in Nx, Vx, Hv; try contradiction;
    destruct sx; try contradiction; try lia.
  destruct (Prim2SF (toNumber t)) as [sy|sy| |sy my ey];
    cbn [nonneg_finite value] in Nt, Vt; try contradiction;
    destruct sy; try contradiction; try nia.
  cbn in Wx, Wt. unfold bounded in Wx, Wt.
  apply andb_true_iff in Wx as [Cx _]. apply andb_true_iff in Wt as [Cy _].
  destruct (canonical_bounds mx ex Cx) as (Hex & _ & _).
  assert (Hey : ey <= 53 - 52).
  { apply (exponent_le my ey 53 Cy); [lia|]. rewrite Vt.
    rewrite (Z.pow_add_r 2 53 bias) by (unfold bias; lia).
    apply Z.mul_le_mono_nonneg_r; lia. }
  apply (SFdiv_bounds mx ex my ey N G LO HI); try assumption;
    try (unfold bias in *; lia).
Qed.

(** *** The square root of a positive number *)

(** The position of a square root is exact when the remainder is 0. *)
Lemma inexact_sqrt (q r : Z) :
  inexact (if r =? 0 then loc_Exact
           else loc_Inexact (if r <=? q then Lt else Gt))
  = if r =? 0 then 0 else 1.
Proof. destruct (r =? 0); reflexivity. Qed.

(** The exponent of a square root that is below [2^N]. *)
Lemma root_exponent (m : positive) (e N HI : Z) :
  - bias <= e -> 0 <= HI < 2 ^ (N + bias) ->
  scaled (Zpos m) e * 2 ^ bias <= HI * HI ->
  (Zpos (digits2_pos m) + e + 1) / 2 <= N.
Proof.
  intros He HHI H. unfold scaled in H.
  pose proof (digits2_pos_bounds m) as [Hlo _].
  set (d := Zpos (digits2_pos m)) in *.
  assert (Hd : 0 < d) by (subst d; lia).
  assert (Hb0 : 0 <= bias) by (unfold bias; lia).
  assert (Hb : 0 < 2 ^ bias) by (apply pow2_pos; lia).
  assert (Hu : 0 < 2 ^ (e + bias)) by (apply pow2_pos; lia).
  assert (Hp : 0 < 2 ^ (d - 1)) by (apply pow2_pos; lia).
  assert (HN : 0 <= N + bias).
  { destruct (Z.le_gt_cases 0 (N + bias)); [assumption|].
    rewrite Z.pow_neg_r in HHI by lia. lia. }
  assert (L : 2 ^ ((d - 1) + (e + bias) + bias)
              < 2 ^ ((N + bias) + (N + bias))).
  { rewrite (Z.pow_add_r 2 (d - 1 + (e + bias)) bias) by lia.
    rewrite (Z.pow_add_r 2 (d - 1) (e + bias)) by lia.
    rewrite (Z.pow_add_r 2 (N + bias) (N + bias)) by lia.
    assert (L1 : 2 ^ (d - 1) * 2 ^ (e + bias) * 2 ^ bias
                 <= Zpos m * 2 ^ (e + bias) * 2 ^ bias).
    { apply Z.mul_le_mono_nonneg_r; [lia|].
      apply Z.mul_le_mono_nonneg_r; lia. }
    assert (L2 : HI * HI < 2 ^ (N + bias) * 2 ^ (N + bias)) by nia.
    lia. }
  apply Z.pow_lt_mono_r_iff in L; [|lia|lia].
  assert ((d + e + 1) / 2 < N + 1); [|lia].
  apply Z.div_lt_upper_bound; lia.
Qed.

(** The square root of a positive number is its exact square root,
    rounded: two numbers of the format that enclose the exact root
    (stated on the squares) enclose the result. *)
Lemma SFsqrt_bounds (m : positive) (e N G LO HI : Z) :
  - bias <= e ->
  fexp prec emax N <= G -> G <= emax - prec ->
  (2 ^ (G + bias) | LO) -> (2 ^ (G + bias) | HI) ->
  0 <= LO -> 0 <= HI < 2 ^ (N + bias) ->
  LO * LO <= scaled (Zpos m) e * 2 ^ bias <= HI * HI ->
  let z := SF64sqrt (S754_finite false m e) in
  nonneg_finite z /\ LO <= value z <= HI.
Proof.
  intros He HN HG HLO HHI HLO0 HHI0 [Hlo Hhi] z. subst z.
  pose proof (root_exponent m e N HI He HHI0 Hhi) as Hd.
  unfold SF64sqrt, SFsqrt, SFsqrt_core_binary. cbn [Zdigits2].
  rewrite !Z.div2_div.
  set (e' := Z.min (fexp prec emax ((Zpos (digits2_pos m) + e + 1) / 2)) (e / 2)).
  set (s := e - 2 * e').
  assert (He'G : e' <= G).
  { pose proof (fexp_mono _ _ Hd). subst e'. lia. }
  assert (He' : - bias <= e').
  { pose proof (fexp_ge_emin ((Zpos (digits2_pos m) + e + 1) / 2)).
    pose proof (Z.div_le_lower_bound e 2 (- 600) ltac:(lia)
                  ltac:(unfold bias in *; lia)).
    subst e'. unfold bias in *. lia. }
  assert (Hs : 0 <= s).
  { pose proof (Z.mul_div_le e 2 ltac:(lia)). subst s e'. lia. }
  rewrite (shifted_left (Zpos m) s Hs).
  set (m' := Zpos m * 2 ^ s).
  assert (Hs2 : 0 < 2 ^ s) by (apply pow2_pos; lia).
  pose proof (Z.sqrtrem_spec m' ltac:(subst m'; nia)) as Hsq.
  destruct (Z.sqrtrem m') as [q r]. destruct Hsq as [Hm' Hr].
  assert (Hu : 0 < 2 ^ (e' + bias)) by (apply pow2_pos; lia).
  assert (Hb : 0 < 2 ^ bias) by (apply pow2_pos; unfold bias; lia).
  (* the exact root is [sqrt m'] units of [2^e'] *)
  assert (Hx : scaled (Zpos m) e * 2 ^ bias
               = m' * (2 ^ (e' + bias) * 2 ^ (e' + bias))).
  { assert (E : 2 ^ (e + bias) * 2 ^ bias
                = 2 ^ s * (2 ^ (e' + bias) * 2 ^ (e' + bias))).
    { rewrite <- (Z.pow_add_r 2 (e + bias) bias) by (unfold bias in *; lia).
      rewrite <- (Z.pow_add_r 2 (e' + bias) (e' + bias)) by lia.
      rewrite <- (Z.pow_add_r 2 s (e' + bias + (e' + bias))) by lia.
      f_equal. subst s. lia. }
    unfold scaled. subst m'. rewrite <- !Z.mul_assoc.
    rewrite E. ring. }
  rewrite Hx in Hlo, Hhi.
  destruct (on_grid (e' + bias) (G + bias) LO ltac:(lia) HLO) as [a Ha].
  destruct (on_grid (e' + bias) (G + bias) HI ltac:(lia) HHI) as [b Hb'].
  assert (Ha0 : 0 <= a) by nia.
  assert (Hb0 : 0 <= b) by nia.
  assert (Hlo' : a * a <= m').
  { apply (Z.mul_le_mono_pos_r _ _ (2 ^ (e' + bias) * 2 ^ (e' + bias)));
      [nia|]. rewrite Ha in Hlo. nia. }
  assert (Hhi' : m' <= b * b).
  { apply (Z.mul_le_mono_pos_r _ _ (2 ^ (e' + bias) * 2 ^ (e' + bias)));
      [nia|]. rewrite Hb' in Hhi. nia. }
  assert (Hq0 : 0 <= q) by lia.
  assert (Hq : a <= q) by nia.
  apply (round_aux_loc_bounds q _ e' N G LO HI); try assumption; [lia|lia| |].
  - unfold scaled. rewrite Ha. nia.
  - unfold scaled. rewrite inexact_sqrt, Hb'.
    apply Z.mul_le_mono_nonneg_r; [lia|].
    destruct (Z.eqb_spec r 0) as [->|Hnz]; nia.
Qed.

(** ** The estimate *)

(** Four times a number of [[0, 1]] is a number of [[0, 4]]. *)
Lemma times_4 (x : float) :
  nonneg_finite (Prim2SF x) -> value (Prim2SF x) <= 2 ^ bias ->
  nonneg_finite (Prim2SF (x * 4)) /\
  0 <= value (Prim2SF (x * 4)) <= 4 * 2 ^ bias.
Proof.
  intros Nx Vx. pose proof (Prim2SF_valid x) as Wx. rewrite mul_spec.
  change (Prim2SF 4) with (S754_finite false 4503599627370496 (-50)).
  assert (Hb : 0 < 2 ^ bias) by (apply pow2_pos; unfold bias; lia).
  destruct (Prim2SF x) as [sx|sx| |sx mx ex];
    cbn [nonneg_finite value] in Nx, Vx; try contradiction;
    destruct sx; try contradiction.
  - cbn. split; [exact I|lia].
  - cbn in Wx. unfold bounded in Wx. apply andb_true_iff in Wx as [Cx _].
    destruct (canonical_bounds mx ex Cx) as (Hex & _ & _).
    assert (Hex' : ex <= 0 - 52) by (apply (exponent_le mx ex 0 Cx); [lia|exact Vx]).
    unfold SF64mul, SFmul. cbn [xorb].
    assert (E : scaled (Zpos (mx * 4503599627370496)) (ex + -50)
                = 4 * scaled (Zpos mx) ex).
    { rewrite Pos2Z.inj_mul.
      change (Zpos 4503599627370496) with (2 ^ 52).
      rewrite scaled_shift by (unfold bias; lia).
      unfold scaled.
      replace (ex + -50 + 52 + bias) with (2 + (ex + bias)) by lia.
      rewrite (Z.pow_add_r 2 2 (ex + bias)) by (unfold bias; lia).
      change (2 ^ 2) with 4. ring. }
    apply (round_aux_bounds _ _ 3 0).
    + unfold bias. lia.
    + vm_compute. discriminate.
    + vm_compute. discriminate.
    + apply Z.divide_0_r.
    + exists 4. change (0 + bias) with bias. reflexivity.
    + rewrite (Z.pow_add_r 2 3 bias) by (unfold bias; lia).
      change (2 ^ 3) with 8. lia.
    + rewrite E. unfold scaled in *.
      assert (0 < 2 ^ (ex + bias)) by (apply pow2_pos; unfold bias in *; lia).
      nia.
Qed.

(** The ratio of two counters is a number of [[0, 1]]. *)
Lemma ratio_value (i t : Z) :
  0 <= i <= t -> 1 <= t <= 2 ^ 53 ->
  nonneg_finite (Prim2SF (toNumber i / toNumber t)) /\
  0 <= value (Prim2SF (toNumber i / toNumber t)) <= 2 ^ bias.
Proof.
  intros Hi Ht.
  assert (Hb : 0 < 2 ^ bias) by (apply pow2_pos; unfold bias; lia).
  destruct (Z.eq_dec i 0) as [->|Hi0].
  - (* no sample inside: the ratio is 0 *)
    assert (E : Prim2SF (toNumber 0 / toNumber t) = S754_zero false).
    { destruct (toNumber_value_upto t ltac:(lia)) as [Nt Vt].
      rewrite div_spec. change (Prim2SF (toNumber 0)) with (S754_zero false).
      destruct (Prim2SF (toNumber t)) as [sy|sy| |sy my ey];
        cbn [nonneg_finite value] in Nt, Vt; try contradiction;
        destruct sy; try contradiction; try nia.
      reflexivity. }
    rewrite E; cbn [nonneg_finite value]. split; [exact I|lia].
  - destruct (toNumber_value_upto i ltac:(lia)) as [Ni Vi].
    assert (Vi0 : 0 < value (Prim2SF (toNumber i))) by (rewrite Vi; nia).
    assert (HN : fexp prec emax 1 <= 0) by (vm_compute; discriminate).
    assert (HG : 0 <= emax - prec) by (vm_compute; discriminate).
    assert (H1 : (2 ^ (0 + bias) | 2 ^ bias))
      by (change (0 + bias) with bias; apply Z.divide_refl).
    assert (Hlt : 2 ^ bias < 2 ^ (1 + bias))
      by (apply Z.pow_lt_mono_r; unfold bias; lia).
    assert (Hv : 0 * t <= value (Prim2SF (toNumber i)) <= 2 ^ bias * t)
      by (rewrite Vi; nia).
    exact (div_by_count (toNumber i) t 1 0 0 (2 ^ bias) Ni Vi0 Ht HN HG
             (Z.divide_0_r _) H1 (Z.le_refl 0) Hlt Hv).
Qed.

(** The ratio of two counters, times 4. *)
Lemma estimate_value (i t : Z) :
  0 <= i <= t -> 1 <= t <= 2 ^ 53 ->
  nonneg_finite (Prim2SF (toNumber i / toNumber t * 4)) /\
  0 <= value (Prim2SF (toNumber i / toNumber t * 4)) <= 4 * 2 ^ bias.
Proof.
  intros Hi Ht. destruct (ratio_value i t Hi Ht) as [Nq Vq].
  apply times_4; [exact Nq|lia].
Qed.

(** The estimate of a state that satisfies the invariant is a number
    of [[0, 4]]. *)
Lemma estimate_between st :
  counts_ok st -> PrimFloat.ltb 0 (total st) = true ->
  PrimFloat.leb 0 (inside st / total st * 4) = true /\
  PrimFloat.leb (inside st / total st * 4) 4 = true.
Proof.
  intros (i & t & Ei & Et & Hit & Hmax) Hpos. unfold maxCount in Hmax.
  assert (Ht : 1 <= t).
  { destruct (Z.eq_dec t 0) as [->|]; [|lia].
    rewrite Et in Hpos. discriminate Hpos. }
  rewrite Ei, Et.
  destruct (estimate_value i t Hit ltac:(lia)) as [Ne Ve].
  split; apply leb_of_values; try assumption.
  - exact I.
  - change (value (Prim2SF 0)) with 0. lia.
  - vm_compute. discriminate.
  - change (value (Prim2SF 4)) with (4 * 2 ^ bias). lia.
Qed.

(** The lines that [drawStats] writes for such a state. *)
Lemma estimates_statsText st : counts_ok st -> Forall estimate_ok (statsText st).
Proof.
  intros H. unfold statsText.
  destruct (PrimFloat.ltb 0 (total st)) eqn:Hpos.
  - destruct (estimate_between st H Hpos) as [Hlo Hhi].
    repeat constructor; assumption.
  - repeat constructor.
Qed.

(** What holds of every line that [drawStats] writes on a state that
    satisfies the invariant, and of every other drawing call, holds of
    the whole canvas after every sequence of events. *)
Section Shown.

Variable P : DrawCmd -> Prop.

Hypothesis P_stats : forall st, counts_ok st -> Forall P (statsText st).

Hypothesis P_other :
  forall cmd, match cmd with FillText _ _ _ => False | _ => True end -> P cmd.

Lemma shown_animate rx ry st :
  counts_ok st -> Forall P (canvas st) -> Forall P (canvas (animate rx ry st)).
Proof.
  intros C H.
  destruct (isRunning st) eqn:R; [|now rewrite animate_stopped].
  rewrite (canvas_tick rx ry st R). cbv zeta.
  apply Forall_app. split; [exact H|].
  constructor; [now apply P_other|constructor; [now apply P_other|]].
  apply P_stats, counts_ok_animate, C.
Qed.

Lemma shown_reset st : Forall P (canvas st) -> Forall P (canvas (reset st)).
Proof.
  intros H. rewrite canvas_reset. apply Forall_app. split; [exact H|].
  pose proof (P_stats (reset st) (counts_ok_reset st)) as Hz.
  rewrite (statsText_zero (reset st) (total_reset st) (inside_reset st)) in Hz.
  repeat (constructor; [now apply P_other|]). exact Hz.
Qed.

Lemma shown_step e st :
  counts_ok st -> Forall P (canvas st) -> Forall P (canvas (step e st)).
Proof.
  intros C H. destruct e as [id rx ry|rx ry| |v]; cbn [step].
  - destruct (pending id st); [|exact H].
    apply (shown_animate rx ry (clearTimeout id st)); [|exact H].
    apply (counts_ok_eq st); [reflexivity|reflexivity|exact C].
  - destruct (isRunning st) eqn:R.
    + now rewrite canvas_pause.
    + unfold resume. rewrite R. cbn [negb].
      apply (shown_animate rx ry
               (set_pauseBtn "Pause" (set_isRunning true st))); [|exact H].
      apply (counts_ok_eq st); [reflexivity|reflexivity|exact C].
  - now apply shown_reset.
  - exact H.
Qed.

Lemma shown_run es :
  forall st,
    counts_ok st -> Forall P (canvas st) -> Forall P (canvas (run es st)).
Proof.
  induction es as [|e es IH]; intros st C H; [exact H|].
  change (run (e :: es) st) with (run es (step e st)).
  apply IH; [now apply counts_ok_step|now apply shown_step].
Qed.

Lemma shown_reachable autoStart rx ry es st :
  construct autoStart rx ry = Normal st -> Forall P (canvas (run es st)).
Proof.
  intros H.
  pose proof (counts_ok_reachable autoStart rx ry [] st H) as C0.
  change (run [] st) with st in C0.
  apply shown_run; [exact C0|].
  apply construct_cases in H. subst st.
  assert (D0 : Forall P (canvas (drawBoard (fields 500 50)))).
  { rewrite canvas_drawBoard. repeat (constructor; [now apply P_other|]).
    constructor. }
  destruct autoStart; [|exact D0].
  apply shown_animate; [|exact D0].
  apply counts_ok_zero; reflexivity.
Qed.

End Shown.

(** A run in which every sample fell inside: the ratio is 1 and the
    estimate is 4. *)
Lemma estimate_all_inside (t : Z) :
  1 <= t <= 2 ^ 53 -> (toNumber t / toNumber t * 4)%float = 4%float.
Proof.
  intros Ht.
  assert (Hb : 0 < 2 ^ bias) by (apply pow2_pos; unfold bias; lia).
  destruct (toNumber_value_upto t ltac:(lia)) as [Nt Vt].
  assert (Vt0 : 0 < value (Prim2SF (toNumber t))) by (rewrite Vt; nia).
  assert (HN : fexp prec emax 1 <= 0) by (vm_compute; discriminate).
  assert (HG : 0 <= emax - prec) by (vm_compute; discriminate).
  assert (H1 : (2 ^ (0 + bias) | 2 ^ bias))
    by (change (0 + bias) with bias; apply Z.divide_refl).
  assert (Hlt : 2 ^ bias < 2 ^ (1 + bias))
    by (apply Z.pow_lt_mono_r; unfold bias; lia).
  assert (Hv : 2 ^ bias * t <= value (Prim2SF (toNumber t)) <= 2 ^ bias * t)
    by (rewrite Vt; nia).
  destruct (div_by_count (toNumber t) t 1 0 (2 ^ bias) (2 ^ bias) Nt Vt0 Ht
              HN HG H1 H1 ltac:(lia) Hlt Hv) as [Nq Vq].
  assert (E : (toNumber t / toNumber t)%float = 1%float).
  { apply (same_value _ _ (2 ^ bias) Hb Nq ltac:(lia));
      [vm_compute; discriminate|reflexivity]. }
  rewrite E. reflexivity.
Qed.

(** X10. The estimate that the page shows is never outside [[0, 4]]:
    from construction on and after every sequence of events, every
    estimate line on the canvas shows a number between 0 and 4, and so
    is the estimate of the current counters; when every sample fell
    inside the circle it is exactly 4. *)
Theorem X10_estimate_between_0_and_4
        (autoStart : bool) (rx ry : float) (es : list Event) (st : State) :
  construct autoStart rx ry = Normal st ->
  Forall estimate_ok (canvas (run es st)) /\
  (PrimFloat.ltb 0 (total (run es st)) = true ->
   PrimFloat.leb 0 (inside (run es st) / total (run es st) * 4) = true /\
   PrimFloat.leb (inside (run es st) / total (run es st) * 4) 4 = true /\
   (inside (run es st) = total (run es st) ->
    (inside (run es st) / total (run es st) * 4)%float = 4%float)).
Proof.
  intros H.
  pose proof (counts_ok_reachable autoStart rx ry es st H) as C.
  split.
  - apply (shown_reachable estimate_ok estimates_statsText) with (2 := H).
    intros cmd. destruct cmd; try contradiction; intros _; exact I.
  - intros Hpos. destruct (estimate_between _ C Hpos) as [Hlo Hhi].
    split; [exact Hlo|]. split; [exact Hhi|].
    intros E. rewrite E.
    destruct C as (i & t & Ei & Et & Hit & Hmax). unfold maxCount in Hmax.
    rewrite Et in Hpos |- *.
    assert (Ht : 1 <= t).
    { destruct (Z.eq_dec t 0) as [->|]; [|lia]. discriminate Hpos. }
    apply estimate_all_inside. lia.
Qed.

Lemma X10_estimate_between_0_and_4_witness :
  Forall estimate_ok
         (canvas (run [TimerFires 1 0.25 0.75; TimerFires 2 0.875 0.125] started)).
Proof.
  exact (proj1 (X10_estimate_between_0_and_4 true 0.5 0.5
                  [TimerFires 1 0.25 0.75; TimerFires 2 0.875 0.125] started
                  construct_started)).
Defined.

(** After those three samples, two of them inside, the strip shows
    [8/3]. *)
Example estimate_two_of_three :
  In (FillText (PiText 0x1.5555555555555p+1) 200 20)
     (canvas (run [TimerFires 1 0.25 0.75; TimerFires 2 0.875 0.125] started)).
Proof. vm_compute. tauto. Qed.

(** ** The standard deviation *)

(** [p * (1 - p)] for [p = Math.PI / 4]: about 0.1685, between 1/8 and
    1/4. *)
Lemma variance_value :
  nonneg_finite (Prim2SF (MathPI / 4 * (1 - MathPI / 4))) /\
  2 ^ (bias - 3) <= value (Prim2SF (MathPI / 4 * (1 - MathPI / 4)))
  < 2 ^ (bias - 2).
Proof. vm_compute. repeat split; discriminate. Qed.

(** Divided by a counter that holds at least one sample it is between
    [2^-56] and [2^-2]. *)
Lemma variance_by_count (t : Z) :
  1 <= t <= 2 ^ 53 ->
  nonneg_finite (Prim2SF (MathPI / 4 * (1 - MathPI / 4) / toNumber t)) /\
  2 ^ (bias - 56)
  <= value (Prim2SF (MathPI / 4 * (1 - MathPI / 4) / toNumber t))
  <= 2 ^ (bias - 2).
Proof.
  intros Ht. destruct variance_value as (Nc & Vlo & Vhi).
  set (c := (MathPI / 4 * (1 - MathPI / 4))%float) in *.
  assert (Vc : 0 < value (Prim2SF c)).
  { pose proof (pow2_pos (bias - 3) ltac:(unfold bias; lia)). lia. }
  assert (P30 : 2 ^ (bias - 2) = 2 ^ 28 * 2 ^ (bias - 30))
    by (vm_compute; reflexivity).
  assert (P3 : 2 ^ (bias - 3) = 2 ^ 27 * 2 ^ (bias - 30))
    by (vm_compute; reflexivity).
  assert (P29 : 2 ^ (bias - 29) = 2 * 2 ^ (bias - 30))
    by (vm_compute; reflexivity).
  assert (P56 : 2 ^ (bias - 30) = 2 ^ 26 * 2 ^ (bias - 56))
    by (vm_compute; reflexivity).
  assert (U30 : 0 < 2 ^ (bias - 30)) by (apply pow2_pos; unfold bias; lia).
  assert (U56 : 0 < 2 ^ (bias - 56)) by (apply pow2_pos; unfold bias; lia).
  destruct (Z.le_gt_cases t (2 ^ 27)) as [Hsmall|Hlarge].
  - (* up to 2^27 samples: between 2^-30 and 2^-2 *)
    assert (HN : fexp prec emax (- 1) <= - 54) by (vm_compute; discriminate).
    assert (HG : - 54 <= emax - prec) by (vm_compute; discriminate).
    assert (G1 : (2 ^ (- 54 + bias) | 2 ^ (bias - 30)))
      by (exists (2 ^ 24); vm_compute; reflexivity).
    assert (G2 : (2 ^ (- 54 + bias) | 2 ^ (bias - 2)))
      by (exists (2 ^ 52); vm_compute; reflexivity).
    assert (Hlt : 2 ^ (bias - 2) < 2 ^ (- 1 + bias))
      by (apply Z.pow_lt_mono_r; unfold bias; lia).
    assert (Hv : 2 ^ (bias - 30) * t <= value (Prim2SF c) <= 2 ^ (bias - 2) * t).
    { pose proof (Z.mul_le_mono_nonneg_l t (2 ^ 27) (2 ^ (bias - 30))
                    ltac:(lia) Hsmall).
      pose proof (Z.mul_le_mono_nonneg_l 1 t (2 ^ (bias - 2))
                    ltac:(lia) ltac:(lia)).
      lia. }
    destruct (div_by_count c t (- 1) (- 54) (2 ^ (bias - 30)) (2 ^ (bias - 2))
                Nc Vc Ht HN HG G1 G2 ltac:(lia) Hlt Hv) as [Nq Vq].
    split; [exact Nq|]. lia.
  - (* more: between 2^-56 and 2^-29 *)
    assert (HN : fexp prec emax (- 28) <= - 81) by (vm_compute; discriminate).
    assert (HG : - 81 <= emax - prec) by (vm_compute; discriminate).
    assert (G1 : (2 ^ (- 81 + bias) | 2 ^ (bias - 56)))
      by (exists (2 ^ 25); vm_compute; reflexivity).
    assert (G2 : (2 ^ (- 81 + bias) | 2 ^ (bias - 29)))
      by (exists (2 ^ 52); vm_compute; reflexivity).
    assert (Hlt : 2 ^ (bias - 29) < 2 ^ (- 28 + bias))
      by (apply Z.pow_lt_mono_r; unfold bias; lia).
    assert (Hv : 2 ^ (bias - 56) * t <= value (Prim2SF c) <= 2 ^ (bias - 29) * t).
    { pose proof (Z.mul_le_mono_nonneg_l t (2 ^ 53) (2 ^ (bias - 56))
                    ltac:(lia) ltac:(lia)).
      pose proof (Z.mul_le_mono_nonneg_l (2 ^ 27) t (2 ^ (bias - 29))
                    ltac:(lia) ltac:(lia)).
      lia. }
    destruct (div_by_count c t (- 28) (- 81) (2 ^ (bias - 56)) (2 ^ (bias - 29))
                Nc Vc Ht HN HG G1 G2 ltac:(lia) Hlt Hv) as [Nq Vq].
    split; [exact Nq|]. lia.
Qed.

(** The standard deviation of at least one sample is between [2^-28]
    and [1/2]. *)
Lemma std_value (t : Z) :
  1 <= t <= 2 ^ 53 ->
  nonneg_finite
    (Prim2SF (sqrt (MathPI / 4 * (1 - MathPI / 4) / toNumber t))) /\
  2 ^ (bias - 28)
  <= value (Prim2SF (sqrt (MathPI / 4 * (1 - MathPI / 4) / toNumber t)))
  <= 2 ^ (bias - 1).
Proof.
  intros Ht. destruct (variance_by_count t Ht) as (Nx & Vlo & Vhi).
  rewrite sqrt_spec.
  assert (U : 0 < 2 ^ (bias - 56)) by (apply pow2_pos; unfold bias; lia).
  assert (Hb : 0 < 2 ^ bias) by (apply pow2_pos; unfold bias; lia).
  destruct (Prim2SF (MathPI / 4 * (1 - MathPI / 4) / toNumber t))
    as [s|s| |s m e]; cbn [nonneg_finite value] in Nx, Vlo, Vhi;
    try contradiction; destruct s; try contradiction; try lia.
  assert (HN : fexp prec emax 0 <= - 53) by (vm_compute; discriminate).
  assert (HG : - 53 <= emax - prec) by (vm_compute; discriminate).
  assert (G1 : (2 ^ (- 53 + bias) | 2 ^ (bias - 28)))
    by (exists (2 ^ 25); vm_compute; reflexivity).
  assert (G2 : (2 ^ (- 53 + bias) | 2 ^ (bias - 1)))
    by (exists (2 ^ 52); vm_compute; reflexivity).
  assert (L0 : 0 <= 2 ^ (bias - 28))
    by (apply Z.lt_le_incl, pow2_pos; unfold bias; lia).
  assert (H0 : 0 <= 2 ^ (bias - 1) < 2 ^ (0 + bias)).
  { split; [apply Z.lt_le_incl, pow2_pos; unfold bias; lia|].
    apply Z.pow_lt_mono_r; unfold bias; lia. }
  assert (Q1 : 2 ^ (bias - 28) * 2 ^ (bias - 28) = 2 ^ (bias - 56) * 2 ^ bias)
    by (vm_compute; reflexivity).
  assert (Q2 : 2 ^ (bias - 1) * 2 ^ (bias - 1) = 2 ^ (bias - 2) * 2 ^ bias)
    by (vm_compute; reflexivity).
  apply (SFsqrt_bounds m e 0 (- 53)); try assumption.
  rewrite Q1, Q2. split; apply Z.mul_le_mono_nonneg_r; lia.
Qed.

(** A number of positive value is above [0] and is not [0]. *)
Lemma positive_value (x : float) :
  nonneg_finite (Prim2SF x) -> 0 < value (Prim2SF x) ->
  PrimFloat.eqb x 0 = false /\ PrimFloat.ltb 0 x = true.
Proof.
  rewrite eqb_spec, ltb_spec. change (Prim2SF 0) with (S754_zero false).
  destruct (Prim2SF x) as [s|s| |s m e]; cbn [nonneg_finite value];
    try contradiction; destruct s; try contradiction; try lia.
  intros _ _. split; reflexivity.
Qed.

(** On a state that satisfies the invariant the standard deviation is
    never [0]: it is infinite before the first sample and between
    [2^-28] and [1/2] after. *)
Lemma std_not_zero st :
  counts_ok st ->
  PrimFloat.eqb (std st) 0 = false /\
  (PrimFloat.ltb 0 (total st) = true ->
   PrimFloat.ltb 0 (std st) = true /\ PrimFloat.leb (std st) 0.5 = true).
Proof.
  intros (i & t & Ei & Et & Hit & Hmax). unfold maxCount in Hmax.
  unfold std. rewrite Et.
  destruct (Z.eq_dec t 0) as [->|Ht0].
  - split; [vm_compute; reflexivity|]. intros H. discriminate H.
  - destruct (std_value t ltac:(lia)) as (Ns & Vlo & Vhi).
    assert (U : 0 < 2 ^ (bias - 28)) by (apply pow2_pos; unfold bias; lia).
    destruct (positive_value _ Ns ltac:(lia)) as [Hne Hpos].
    split; [exact Hne|]. intros _. split; [exact Hpos|].
    apply leb_of_values; [exact Ns|vm_compute; discriminate|].
    change (value (Prim2SF 0.5)) with (2 ^ (bias - 1)). lia.
Qed.

(** So the second guard of [computeZScore] never fires. *)
Lemma zscore_unguarded st :
  counts_ok st ->
  computeZScore st
  = (if total st =? 0 then 0
     else (inside st / total st - MathPI / 4) / std st)%float.
Proof.
  intros C. destruct (std_not_zero st C) as [Hne _].
  unfold computeZScore. cbv zeta.
  destruct (PrimFloat.eqb (total st) 0); [reflexivity|].
  change (sqrt (MathPI / 4 * (1 - MathPI / 4) / total st))%float
    with (std st).
  rewrite Hne. reflexivity.
Qed.

(** X11. The guard [std === 0] of [computeZScore] is dead code: from
    construction on and after every sequence of events the standard
    deviation is not [0] (it is between [2^-28] and [1/2] once there is
    a sample), so the z-score is [0] only through the guard
    [n === 0] and is the quotient [(observed - p) / std] otherwise. *)
Theorem X11_std_never_zero
        (autoStart : bool) (rx ry : float) (es : list Event) (st : State) :
  construct autoStart rx ry = Normal st ->
  PrimFloat.eqb (std (run es st)) 0 = false /\
  computeZScore (run es st)
  = (if total (run es st) =? 0 then 0
     else (inside (run es st) / total (run es st) - MathPI / 4)
          / std (run es st))%float /\
  (PrimFloat.ltb 0 (total (run es st)) = true ->
   PrimFloat.ltb 0 (std (run es st)) = true /\
   PrimFloat.leb (std (run es st)) 0.5 = true).
Proof.
  intros H. pose proof (counts_ok_reachable autoStart rx ry es st H) as C.
  destruct (std_not_zero _ C) as [Hne Hrange].
  split; [exact Hne|]. split; [apply zscore_unguarded, C|exact Hrange].
Qed.

Lemma X11_std_never_zero_witness :
  PrimFloat.eqb
    (std (run [TimerFires 1 0.25 0.75; TimerFires 2 0.875 0.125] started)) 0
  = false.
Proof.
  exact (proj1 (X11_std_never_zero true 0.5 0.5
                  [TimerFires 1 0.25 0.75; TimerFires 2 0.875 0.125] started
                  construct_started)).
Defined.

(** ** The z-score *)

(** *** Numbers of either sign *)

(** Rounding treats both signs alike. *)
Lemma round_aux_abs (s : bool) (m e : Z) (l : location) :
  SFabs (binary_round_aux prec emax s m e l)
  = binary_round_aux prec emax false m e l.
Proof.
  unfold binary_round_aux.
  destruct (shr_fexp prec emax m e l) as [mrs1 e1].
  destruct (shr_fexp prec emax
              (round_nearest_even (shr_m mrs1) (loc_of_shr_record mrs1)) e1
              loc_Exact) as [mrs2 e2].
  destruct (shr_m mrs2); [reflexivity| |reflexivity].
  destruct (e2 <=? emax - prec); reflexivity.
Qed.

Lemma binary_round_abs (s : bool) (m : positive) (e : Z) :
  SFabs (binary_round prec emax s m e) = binary_round prec emax false m e.
Proof.
  unfold binary_round.
  destruct (shl_align m e (fexp prec emax (Zpos (digits2_pos m) + e))) as [mz ez].
  apply round_aux_abs.
Qed.

(** The magnitude of the quotient of a number of either sign by a
    positive one is the quotient of the magnitudes. *)
Lemma SFdiv_abs (s : bool) (mx : positive) (ex : Z) (my : positive) (ey : Z) :
  SFabs (SF64div (S754_finite s mx ex) (S754_finite false my ey))
  = SF64div (S754_finite false mx ex) (S754_finite false my ey).
Proof.
  unfold SF64div, SFdiv.
  destruct (SFdiv_core_binary prec emax (Zpos mx) ex (Zpos my) ey)
    as [[mz ez] lz].
  apply round_aux_abs.
Qed.

(** The difference of two numbers of [[0, 1]] is of magnitude at most
    1. *)
Lemma SFsub_unit (x y : spec_float) :
  valid_binary x = true -> valid_binary y = true ->
  nonneg_finite x -> nonneg_finite y ->
  value x <= 2 ^ bias -> value y <= 2 ^ bias ->
  nonneg_finite (SFabs (SF64sub x y)) /\
  value (SFabs (SF64sub x y)) <= 2 ^ bias.
Proof.
  intros Wx Wy Nx Ny Vx Vy.
  assert (Hb : 0 < 2 ^ bias) by (apply pow2_pos; unfold bias; lia).
  destruct x as [sx|sx| |sx mx ex]; cbn [nonneg_finite value] in Nx, Vx;
    try contradiction; destruct sx; try contradiction;
    destruct y as [sy|sy| |sy my ey]; cbn [nonneg_finite value] in Ny, Vy;
    try contradiction; destruct sy; try contradiction.
  - cbn. split; [exact I|lia].
  - cbn [SF64sub SFsub negb SFabs nonneg_finite value]. split; [exact Ny|exact Vy].
  - cbn [SF64sub SFsub SFabs nonneg_finite value]. split; [exact Nx|exact Vx].
  - cbn in Wx, Wy. unfold bounded in Wx, Wy.
    apply andb_true_iff in Wx as [Cx _]. apply andb_true_iff in Wy as [Cy _].
    pose proof (exponent_le mx ex 0 Cx ltac:(lia) Vx) as Hex.
    pose proof (exponent_le my ey 0 Cy ltac:(lia) Vy) as Hey.
    unfold SF64sub, SFsub, cond_Zopp.
    set (ez := Z.min ex ey).
    pose proof (shl_align_spec mx ex ez ltac:(lia) Nx) as Ax.
    pose proof (shl_align_spec my ey ez ltac:(lia) Ny) as Ay.
    destruct (shl_align mx ex ez) as [mx' ex'], (shl_align my ey ez) as [my' ey'].
    destruct Ax as [Ax Ex], Ay as [Ay Ey]. cbn [fst].
    replace ex' with ez in Ax by lia. replace ey' with ez in Ay by lia.
    assert (Hu : 0 < 2 ^ (ez + bias)) by (apply pow2_pos; lia).
    assert (HN : fexp prec emax 1 <= 0) by (vm_compute; discriminate).
    assert (HG : 0 <= emax - prec) by (vm_compute; discriminate).
    assert (H1 : (2 ^ (0 + bias) | 2 ^ bias))
      by (change (0 + bias) with bias; apply Z.divide_refl).
    assert (Hlt : 2 ^ bias < 2 ^ (1 + bias))
      by (apply Z.pow_lt_mono_r; unfold bias; lia).
    unfold scaled in Ax, Ay, Vx, Vy.
    destruct (Zpos mx' - Zpos my') as [|d|d] eqn:D; cbn [binary_normalize].
    + cbn. split; [exact I|lia].
    + destruct (binary_round_bounds d ez 1 0 0 (2 ^ bias)) as [Nz [_ Vz]];
        try assumption; try apply Z.divide_0_r; [lia| |].
      * unfold scaled. nia.
      * destruct (binary_round prec emax false d ez) as [s|s| |s m e];
          cbn [nonneg_finite] in Nz; try contradiction;
          destruct s; try contradiction; cbn [SFabs nonneg_finite value] in *;
          split; assumption.
    + rewrite binary_round_abs.
      destruct (binary_round_bounds d ez 1 0 0 (2 ^ bias)) as [Nz [_ Vz]];
        try assumption; try apply Z.divide_0_r; [lia| |].
      * unfold scaled. nia.
      * split; assumption.
Qed.

(** *** The quotient *)

(** [p = Math.PI / 4] is a number of [[0, 1]]. *)
Lemma p_value :
  nonneg_finite (Prim2SF (MathPI / 4)) /\
  value (Prim2SF (MathPI / 4)) <= 2 ^ bias.
Proof. vm_compute. split; discriminate. Qed.

(** The z-score of at least one sample is of magnitude at most
    [2^28]. *)
Lemma zscore_value (i t : Z) :
  0 <= i <= t -> 1 <= t <= 2 ^ 53 ->
  nonneg_finite
    (Prim2SF (abs ((toNumber i / toNumber t - MathPI / 4)
                   / sqrt (MathPI / 4 * (1 - MathPI / 4) / toNumber t)))) /\
  value
    (Prim2SF (abs ((toNumber i / toNumber t - MathPI / 4)
                   / sqrt (MathPI / 4 * (1 - MathPI / 4) / toNumber t))))
  <= 2 ^ (28 + bias).
Proof.
  intros Hi Ht.
  destruct (ratio_value i t Hi Ht) as [No [_ Vo]].
  destruct p_value as [Np Vp].
  destruct (std_value t Ht) as (Ns & Vslo & Vshi).
  pose proof (SFsub_unit _ _ (Prim2SF_valid (toNumber i / toNumber t))
                (Prim2SF_valid (MathPI / 4)) No Np Vo Vp) as [Nd Vd].
  rewrite <- sub_spec in Nd, Vd.
  pose proof (Prim2SF_valid (toNumber i / toNumber t - MathPI / 4)) as Wd.
  pose proof (Prim2SF_valid
                (sqrt (MathPI / 4 * (1 - MathPI / 4) / toNumber t))) as Ws.
  rewrite abs_spec, div_spec.
  assert (U : 0 < 2 ^ (bias - 28)) by (apply pow2_pos; unfold bias; lia).
  assert (Hb : 0 < 2 ^ bias) by (apply pow2_pos; unfold bias; lia).
  destruct (Prim2SF (sqrt (MathPI / 4 * (1 - MathPI / 4) / toNumber t)))
    as [ss|ss| |ss my ey]; cbn [nonneg_finite value] in Ns, Vslo, Vshi;
    try contradiction; destruct ss; try contradiction; try lia.
  destruct (Prim2SF (toNumber i / toNumber t - MathPI / 4))
    as [sd|sd| |sd md ed]; cbn [SFabs nonneg_finite value] in Nd, Vd;
    try contradiction.
  - assert (P28 : 0 <= 2 ^ (28 + bias))
      by (apply Z.lt_le_incl, pow2_pos; unfold bias; lia).
    destruct sd; cbn [SF64div SFdiv xorb SFabs nonneg_finite value];
      (split; [exact I|exact P28]).
  - rewrite SFdiv_abs.
    cbn in Wd, Ws. unfold bounded in Wd, Ws.
    apply andb_true_iff in Wd as [Cd _]. apply andb_true_iff in Ws as [Cs _].
    destruct (canonical_bounds md ed Cd) as (Hed & _ & _).
    pose proof (exponent_le my ey (- 1) Cs ltac:(lia)) as Hey.
    replace (- 1 + bias) with (bias - 1) in Hey by lia.
    specialize (Hey Vshi).
    assert (HN : fexp prec emax 29 <= 0) by (vm_compute; discriminate).
    assert (HG : 0 <= emax - prec) by (vm_compute; discriminate).
    assert (H1 : (2 ^ (0 + bias) | 2 ^ (28 + bias))).
    { exists (2 ^ 28). change (0 + bias) with bias.
      rewrite <- Z.pow_add_r by (unfold bias; lia). reflexivity. }
    assert (Hlt : 2 ^ (28 + bias) < 2 ^ (29 + bias))
      by (apply Z.pow_lt_mono_r; unfold bias; lia).
    assert (Q : 2 ^ (28 + bias) * 2 ^ (bias - 28) = 2 ^ bias * 2 ^ bias)
      by (vm_compute; reflexivity).
    assert (Hv : 0 * scaled (Zpos my) ey <= scaled (Zpos md) ed * 2 ^ bias
                 <= 2 ^ (28 + bias) * scaled (Zpos my) ey).
    { split.
      - apply Z.mul_nonneg_nonneg; [|lia]. unfold scaled.
        apply Z.mul_nonneg_nonneg; [lia|].
        apply Z.lt_le_incl, pow2_pos. lia.
      - apply Z.le_trans with (2 ^ bias * 2 ^ bias).
        + apply Z.mul_le_mono_nonneg_r; lia.
        + rewrite <- Q. apply Z.mul_le_mono_nonneg_l; [|lia].
          apply Z.lt_le_incl, pow2_pos. unfold bias; lia. }
    destruct (SFdiv_bounds md ed my ey 29 0 0 (2 ^ (28 + bias))
                Nd Ns ltac:(unfold bias; lia) HN HG (Z.divide_0_r _) H1
                (Z.le_refl 0) Hlt Hv) as [Nz [_ Vz]].
    split; assumption.
Qed.

(** On a state that satisfies the invariant the z-score is a finite
    number, of magnitude at most [2^28]. *)
Lemma zscore_bounded st :
  counts_ok st -> PrimFloat.leb (abs (computeZScore st)) 0x1p+28 = true.
Proof.
  intros C. rewrite (zscore_unguarded st C).
  destruct C as (i & t & Ei & Et & Hit & Hmax). unfold maxCount in Hmax.
  unfold std. rewrite Ei, Et.
  destruct (Z.eq_dec t 0) as [->|Ht0]; [reflexivity|].
  destruct (toNumber_value_upto t ltac:(lia)) as [Nt Vt].
  assert (Hb : 0 < 2 ^ bias) by (apply pow2_pos; unfold bias; lia).
  destruct (positive_value _ Nt ltac:(rewrite Vt; nia)) as [-> _].
  destruct (zscore_value i t Hit ltac:(lia)) as [Nz Vz].
  apply leb_of_values; [exact Nz|vm_compute; discriminate|].
  change (value (Prim2SF 0x1p+28)) with (2 ^ (28 + bias)). exact Vz.
Qed.

Lemma zscores_statsText st : counts_ok st -> Forall zscore_ok (statsText st).
Proof.
  intros H. unfold statsText.
  destruct (PrimFloat.ltb 0 (total st)).
  - repeat constructor. apply zscore_bounded, H.
  - repeat constructor.
Qed.

(** X12. The z-score that the page shows is always a finite number:
    from construction on and after every sequence of events,
    [computeZScore] returns a number of magnitude at most [2^28] (never
    [NaN] or an infinity), and so does every z-score line on the
    canvas. *)
Theorem X12_zscore_finite
        (autoStart : bool) (rx ry : float) (es : list Event) (st : State) :
  construct autoStart rx ry = Normal st ->
  PrimFloat.leb (abs (computeZScore (run es st))) 0x1p+28 = true /\
  Forall zscore_ok (canvas (run es st)).
Proof.
  intros H. split.
  - apply zscore_bounded, (counts_ok_reachable autoStart rx ry es st H).
  - apply (shown_reachable zscore_ok zscores_statsText) with (2 := H).
    intros cmd. destruct cmd; try contradiction; intros _; exact I.
Qed.

Lemma X12_zscore_finite_witness :
  PrimFloat.leb
    (abs (computeZScore
            (run [TimerFires 1 0.25 0.75; TimerFires 2 0.875 0.125] started)))
    0x1p+28 = true.
Proof.
  exact (proj1 (X12_zscore_finite true 0.5 0.5
                  [TimerFires 1 0.25 0.75; TimerFires 2 0.875 0.125] started
                  construct_started)).
Defined.

(** ** The board *)

(** Drawing calls that clear nothing add to what is shown. *)
Lemma sinceClear_app (c l : list DrawCmd) :
  Forall (fun cmd => match cmd with ClearRect _ _ _ _ => False | _ => True end) l ->
  sinceClear (c ++ l) = sinceClear c ++ l.
Proof.
  unfold sinceClear. rewrite fold_left_app.
  generalize (fold_left sinceClearStep c []). intros shown H. revert shown.
  induction H as [|cmd l Hc _ IH]; intros shown; cbn [fold_left].
  - now rewrite app_nil_r.
  - rewrite IH. destruct cmd; try contradiction; cbn [sinceClearStep];
      now rewrite <- app_assoc.
Qed.

(** Clearing the whole canvas leaves what is drawn after it. *)
Lemma sinceClear_wiped (c l : list DrawCmd) :
  Forall (fun cmd => match cmd with ClearRect _ _ _ _ => False | _ => True end) l ->
  sinceClear (c ++ ClearRect 0 0 600 600 :: l) = l.
Proof.
  intros H.
  change (c ++ ClearRect 0 0 600 600 :: l)
    with (c ++ [ClearRect 0 0 600 600] ++ l).
  rewrite app_assoc, sinceClear_app by exact H.
  unfold sinceClear. rewrite fold_left_app. reflexivity.
Qed.

Lemma statsText_no_clear st :
  Forall (fun cmd => match cmd with ClearRect _ _ _ _ => False | _ => True end)
         (statsText st).
Proof.
  eapply Forall_impl; [|apply statsText_texts].
  intros cmd (t & x & y & ->). exact I.
Qed.

Lemma board_ok_eq st st' :
  geometry st' = geometry st -> canvas st' = canvas st ->
  board_ok st -> board_ok st'.
Proof. unfold board_ok. now intros -> ->. Qed.

Lemma board_ok_animate rx ry st : board_ok st -> board_ok (animate rx ry st).
Proof.
  intros H.
  destruct (isRunning st) eqn:R; [|now rewrite animate_stopped].
  unfold board_ok in *.
  rewrite geometry_animate, (canvas_tick rx ry st R). cbv zeta.
  destruct (geometry st) as [[[[size off] r] cx] cy]. cbn [boardShown] in *.
  rewrite sinceClear_app
    by (constructor; [exact I|constructor; [exact I|apply statsText_no_clear]]).
  destruct H as [H1 H2]. split; apply in_or_app; now left.
Qed.

Lemma board_ok_reset st : board_ok (reset st).
Proof.
  unfold board_ok, boardShown.
  rewrite geometry_reset, canvas_reset. unfold geometry.
  rewrite sinceClear_wiped by (repeat constructor).
  cbn [In]. split; tauto.
Qed.

Lemma board_ok_step e st : board_ok st -> board_ok (step e st).
Proof.
  intros H. destruct e as [id rx ry|rx ry| |v]; cbn [step].
  - destruct (pending id st); [|exact H].
    apply board_ok_animate.
    apply (board_ok_eq st); [reflexivity|reflexivity|exact H].
  - destruct (isRunning st) eqn:R.
    + apply (board_ok_eq st); [apply geometry_pause|apply canvas_pause|exact H].
    + unfold resume. rewrite R. cbn [negb].
      apply board_ok_animate.
      apply (board_ok_eq st); [reflexivity|reflexivity|exact H].
  - apply board_ok_reset.
  - apply (board_ok_eq st); [reflexivity|reflexivity|exact H].
Qed.

(** X13. The board never disappears: from construction on and after
    every sequence of events, the square and the inscribed circle of
    the object's geometry are among what was drawn since the canvas was
    last cleared ([reset] clears the canvas and draws them again). *)
Theorem X13_board_always_drawn
        (autoStart : bool) (rx ry : float) (es : list Event) (st : State) :
  construct autoStart rx ry = Normal st ->
  In (StrokeRect 50 50 500 500) (sinceClear (canvas (run es st))) /\
  In (StrokeArc 300 300 250) (sinceClear (canvas (run es st))).
Proof.
  intros H.
  assert (G : geometry (run es st) = (500, 50, 250, 300, 300)%float).
  { rewrite geometry_run. apply construct_cases in H. subst st.
    destruct autoStart; [rewrite geometry_animate|]; vm_compute; reflexivity. }
  assert (B : board_ok (run es st)).
  { apply construct_cases in H.
    assert (B0 : board_ok (drawBoard (fields 500 50))).
    { vm_compute. tauto. }
    assert (B1 : board_ok st).
    { subst st. destruct autoStart; [|exact B0].
      apply board_ok_animate.
      apply (board_ok_eq (drawBoard (fields 500 50)));
        [reflexivity|reflexivity|exact B0]. }
    clear H G. revert st B1.
    induction es as [|e es IH]; intros st B1; [exact B1|].
    apply (IH (step e st)), board_ok_step, B1. }
  unfold board_ok in B. rewrite G in B. exact B.
Qed.

Lemma X13_board_always_drawn_witness :
  In (StrokeRect 50 50 500 500)
     (sinceClear (canvas (run [TimerFires 1 0.25 0.75; ResetClick] started))).
Proof.
  exact (proj1 (X13_board_always_drawn true 0.5 0.5
                  [TimerFires 1 0.25 0.75; ResetClick] started
                  construct_started)).
Defined.

(** After that reset the canvas shows the board and the empty strip
    only. *)
Example canvas_after_reset :
  sinceClear (canvas (run [TimerFires 1 0.25 0.75; ResetClick] started))
  = [StrokeRect 50 50 500 500; StrokeArc 300 300 250;
     FillRect 0 0 600 40 "#fff";
     FillText (TotalText 0) 50 20; FillText (InsideText 0) 50 38].
Proof. vm_compute. reflexivity. Qed.

(** ** The statistics of the earlier revision *)

(** The tick of [src/pi.js] records its sample as [animate] does. *)
Lemma counts_ok_PiJs_animate rx ry st :
  counts_ok st -> counts_ok (PiJs.animate rx ry st).
Proof.
  intros C. destruct (PiJs_animate_records rx ry st) as (Ht & Hi).
  cbv zeta in Ht, Hi.
  apply (counts_ok_eq (record (isInside st (coordinate st rx) (coordinate st ry))
                              st)); [exact Ht|exact Hi|].
  apply counts_ok_record, C.
Qed.

Lemma counts_ok_PiJs_step e st :
  counts_ok st -> counts_ok (PiJsLoop.step e st).
Proof.
  intros C. destruct e as [id rx ry|v]; unfold PiJsLoop.step.
  - destruct (pending id st); [|exact C].
    apply counts_ok_PiJs_animate.
    apply (counts_ok_eq st); [reflexivity|reflexivity|exact C].
  - apply (counts_ok_eq st); [reflexivity|reflexivity|exact C].
Qed.

Lemma counts_ok_PiJs_reachable autoStart rx ry es st :
  PiJs.construct autoStart rx ry = Normal st ->
  counts_ok (PiJsLoop.run es st).
Proof.
  intros H. apply PiJs_construct_cases in H.
  assert (C0 : counts_ok (drawBoard (fields 500 50)))
    by (apply counts_ok_zero; reflexivity).
  assert (C : counts_ok st).
  { subst st. destruct autoStart; [apply counts_ok_PiJs_animate|]; exact C0. }
  clear H. revert st C.
  induction es as [|e es IH]; intros st C; [exact C|].
  apply (IH (PiJsLoop.step e st)), counts_ok_PiJs_step, C.
Qed.

(** X14. The statistics of [src/pi.js], whose [drawStats] and
    [computeZScore] are the same code, are as well-behaved: after every
    sequence of timer firings and slider moves the counters are
    integers with [0 <= inside <= total], the standard deviation is not
    [0], the z-score is a finite number of magnitude at most [2^28],
    and once there is a sample the estimate is between 0 and 4. *)
Theorem X14_earlier_revision_statistics
        (autoStart : bool) (rx ry : float) (es : list PiJsLoop.Event)
        (st : State) :
  PiJs.construct autoStart rx ry = Normal st ->
  counts_ok (PiJsLoop.run es st) /\
  PrimFloat.eqb (std (PiJsLoop.run es st)) 0 = false /\
  PrimFloat.leb (abs (computeZScore (PiJsLoop.run es st))) 0x1p+28 = true /\
  (PrimFloat.ltb 0 (total (PiJsLoop.run es st)) = true ->
   PrimFloat.leb 0 (inside (PiJsLoop.run es st) / total (PiJsLoop.run es st) * 4)
   = true /\
   PrimFloat.leb (inside (PiJsLoop.run es st) / total (PiJsLoop.run es st) * 4) 4
   = true).
Proof.
  intros H. pose proof (counts_ok_PiJs_reachable autoStart rx ry es st H) as C.
  split; [exact C|]. split; [apply std_not_zero, C|].
  split; [apply zscore_bounded, C|]. apply estimate_between, C.
Qed.

Lemma X14_earlier_revision_statistics_witness :
  counts_ok
    (PiJsLoop.run [PiJsLoop.TimerFires 1 0.25 0.75; PiJsLoop.SliderInput 40]
                  (PiJs.animate 0.5 0.5 (drawBoard (fields 500 50)))).
Proof.
  exact (proj1 (X14_earlier_revision_statistics true 0.5 0.5
                  [PiJsLoop.TimerFires 1 0.25 0.75; PiJsLoop.SliderInput 40]
                  (PiJs.animate 0.5 0.5 (drawBoard (fields 500 50)))
                  eq_refl)).
Defined.

(** ** Construction and the geometry *)

Lemma geometry_well_formed st :
  geometry st = (500, 50, 250, 300, 300)%float ->
  PrimFloat.ltb 0 (squareSize st) = true /\
  PrimFloat.leb 0 (offset st) = true.
Proof.
  unfold geometry. intros H. injection H as Hs Ho _ _ _.
  rewrite Hs, Ho. split; reflexivity.
Qed.

(** What [drawBoard]'s [arc] is given is geometry. *)
Lemma drawBoardThrows_geometry st st' :
  geometry st' = geometry st -> drawBoardThrows st' = drawBoardThrows st.
Proof.
  unfold geometry, drawBoardThrows. intros G. injection G as _ _ Hr Hx Hy.
  now rewrite Hr, Hx, Hy.
Qed.

(** The circle of a dot has the radius 4: [drawDot]'s [arc] never
    throws. *)
Lemma drawDot_accepted (x y : float) : arcThrows x y 4 = false.
Proof.
  unfold arcThrows. change (PrimFloat.ltb 4 0) with false.
  apply andb_false_r.
Qed.

(** X15. [new MonteCarloPi(autoStart)] completes, whatever [autoStart]
    and the random values are: it takes no geometry, and on the class's
    literals [drawBoard] gives [arc] the radius 250, which the canvas
    accepts. Every instance has the geometry [squareSize = 500],
    [offset = 50], [radius = 250], centre (300, 300), which is
    well-formed ([squareSize > 0], [offset >= 0]), and keeps it after
    every sequence of events: no tick and no [drawBoard] of a [reset]
    meets another one. *)
Theorem X15_geometry_fixed (autoStart : bool) (rx ry : float) :
  exists st,
    construct autoStart rx ry = Normal st /\
    forall es,
      geometry (run es st) = (500, 50, 250, 300, 300)%float /\
      PrimFloat.ltb 0 (squareSize (run es st)) = true /\
      PrimFloat.leb 0 (offset (run es st)) = true /\
      drawBoardThrows (run es st) = false.
Proof.
  pose (st0 := drawBoard (fields 500 50)).
  assert (G0 : geometry st0 = (500, 50, 250, 300, 300)%float)
    by (vm_compute; reflexivity).
  assert (T0 : drawBoardThrows st0 = false) by (vm_compute; reflexivity).
  exists (if autoStart then animate rx ry (set_isRunning true st0) else st0).
  split.
  { unfold construct, constructWith.
    change (drawBoardThrows (fields 500 50)) with false. cbv iota.
    destruct autoStart; reflexivity. }
  intros es.
  assert (G : geometry (run es (if autoStart
                                then animate rx ry (set_isRunning true st0)
                                else st0)) = geometry st0).
  { rewrite geometry_run.
    destruct autoStart; [rewrite geometry_animate|]; reflexivity. }
  split; [now rewrite G|].
  destruct (geometry_well_formed _ (eq_trans G G0)) as [Hs Ho].
  split; [exact Hs|]. split; [exact Ho|].
  now rewrite (drawBoardThrows_geometry _ _ G).
Qed.

(** The exception itself: were the class's literals [-500] and [-50],
    [drawBoard] would give [arc] the radius [-250] and the constructor
    would end in the canvas's [IndexSizeError]. *)
Example negative_radius_refused :
  constructWith (-500) (-50) true 0.5 0.5 = Throw.
Proof. reflexivity. Qed.
